(** * i-can-not-speak: text to speech through a virtual microphone

    A shallow embedding of [i_can_not_speak/sapi.py] and
    [i_can_not_speak/service.py] and the properties of the two modules.

    Conventions of the embedding.
    - A Python [str] is a [string]; its characters are read as the code
      points 0..255.
    - A Python [int] is a [Z].
    - A float32 sample is the rational number it denotes ([Q]); the
      arithmetic on samples is exact.  [Binary32] repeats the sample
      arithmetic with IEEE 754 rounding, and the properties of samples are
      stated for both.
    - Code that raises, touches the file system, the COM runtime or an audio
      device is a computation [M A]: a function of the [world] returning a
      [result] and the new world.  What the operating system, SAPI and
      PortAudio answer is given by the fields of a [platform]. *)

From Stdlib Require Import ZArith QArith Qabs Qminmax Qpower.
From Stdlib Require Import Ascii String List Lia Lqa Bool.
From Stdlib Require Import Floats.SpecFloat Sorted.
From stdpp Require Import base option list gmap strings pretty.

Local Open Scope Z_scope.
Local Open Scope string_scope.

(** ** Python values used by both modules *)

Module Py.

(** [str.isspace] on one character, for the code points below 256:
    TAB..CR, FS..US, SPACE, NEL and NBSP. *)
Definition isspace (c : ascii) : bool :=
  let n := N_of_ascii c in
  ((9 <=? n) && (n <=? 13) || (28 <=? n) && (n <=? 32)
   || (n =? 133) || (n =? 160))%N.

Fixpoint lstrip (s : string) : string :=
  match s with
  | EmptyString => EmptyString
  | String c s' => if isspace c then lstrip s' else s
  end.

Definition rstrip (s : string) : string :=
  String.rev (lstrip (String.rev s)).

(** [s.strip()] *)
Definition strip (s : string) : string := rstrip (lstrip s).

(** Truth value of a [str]: the empty string is false. *)
Definition truthy (s : string) : bool :=
  match s with EmptyString => false | String _ _ => true end.

(** [a or b] on strings *)
Definition str_or (a b : string) : string := if truthy a then a else b.

(** [str.lower] on one character, for the code points below 256: the ASCII
    capitals and the Latin-1 capitals (all of 0xC0..0xDE but the
    multiplication sign 0xD7) move up by 32. *)
Definition lower_char (c : ascii) : ascii :=
  let n := N_of_ascii c in
  if ((65 <=? n) && (n <=? 90)
      || (192 <=? n) && (n <=? 222) && negb (n =? 215))%N
  then ascii_of_N (n + 32) else c.

Fixpoint lower (s : string) : string :=
  match s with
  | EmptyString => EmptyString
  | String c s' => String (lower_char c) (lower s')
  end.

(** [sub in s] *)
Fixpoint contains (sub s : string) : bool :=
  String.prefix sub s ||
  match s with
  | EmptyString => false
  | String _ s' => contains sub s'
  end.

(** [sep.join(parts)] *)
Fixpoint join (sep : string) (parts : list string) : string :=
  match parts with
  | [] => ""
  | [p] => p
  | p :: ps => p +:+ sep +:+ join sep ps
  end.

(** [str(n)] for an [int] *)
Definition str_of_int (n : Z) : string := pretty n.

(** [range(n)] *)
Definition range (n : Z) : list Z := map Z.of_nat (seq 0 (Z.to_nat n)).

(** A string all of whose characters are whitespace (the empty one too). *)
Fixpoint whitespace_only (s : string) : bool :=
  match s with
  | EmptyString => true
  | String c s' => isspace c && whitespace_only s'
  end.

(** One hexadecimal digit, in lower case *)
Definition hex_digit (n : N) : ascii :=
  ascii_of_N (if (n <? 10)%N then 48 + n else 87 + n).

(** [str.isprintable] on one character, for the code points below 256: all
    but the control characters, NBSP and the soft hyphen. *)
Definition isprintable (c : ascii) : bool :=
  let n := N_of_ascii c in
  negb ((n <? 32) || (127 <=? n) && (n <=? 160) || (n =? 173))%N.

(** One character of [repr(s)], between quotes [quote] *)
Definition repr_char (quote c : ascii) : string :=
  let n := N_of_ascii c in
  if (Ascii.eqb c quote || (n =? 92)%N)%bool then String "\"%char (String c "")
  else if (n =? 9)%N then "\t"
  else if (n =? 10)%N then "\n"
  else if (n =? 13)%N then "\r"
  else if isprintable c then String c ""
  else "\x" +:+ String (hex_digit (n / 16)) (String (hex_digit (n mod 16)) "").

Fixpoint repr_chars (quote : ascii) (s : string) : string :=
  match s with
  | EmptyString => EmptyString
  | String c s' => repr_char quote c +:+ repr_chars quote s'
  end.

Definition double_quote : ascii := ascii_of_N 34.

(** [repr(s)] for a [str]: between single quotes, or between double quotes
    when [s] holds a single quote and no double quote. *)
Definition repr (s : string) : string :=
  let quote :=
    if contains "'" s && negb (contains (String double_quote "") s)
    then double_quote else "'"%char in
  String quote (repr_chars quote s +:+ String quote "").

(** Exceptions: the class and the message that [str(exc)] gives. *)
Inductive exn_class :=
| RuntimeError | ImportError | OSError | FileNotFoundError | PermissionError
| EOFError | ValueError | WaveError | StructError | COMError | PortAudioError.

Record exn := Exn { exn_cls : exn_class; exn_msg : string }.

Inductive result (A : Type) :=
| Ok (a : A)
| Raise (e : exn).
Arguments Ok {A} a.
Arguments Raise {A} e.

(** [str(exc)] for an [OSError] of the operating system on [path] *)
Definition os_error (code text path : string) : string :=
  "[" +:+ code +:+ "] " +:+ text +:+ ": " +:+ repr path.

End Py.
Export Py.

(** ** The world the program runs in *)

Module Sys.

(** Thread identifiers; [_COM_STATE] is a [threading.local]. *)
Definition tid := nat.

(** A file: a WAV container (what [wave.open] finds in it), a file of no
    bytes, a file of another format (eight bytes or more that do not start
    with [RIFF]), a damaged WAV file (one on which [wave.open] raises [e]),
    or any of these while a stream of the speech engine holds it open. *)
Inductive file :=
| WavFile (nchannels sampwidth framerate : Z) (frames : list Byte.byte)
| EmptyFile
| OtherFile
| Damaged (e : exn)
| InUse (f : file).

(** The file itself, whoever holds it *)
Fixpoint content (f : file) : file :=
  match f with
  | InUse f' => content f'
  | _ => f
  end.

Definition held (f : file) : bool :=
  match f with InUse _ => true | _ => false end.

(** What the program does to the outside, oldest event first. *)
Inductive event :=
| EvCoInitialize (t : tid)
| EvCoUninitialize (t : tid)
| EvCreateObject (progid : string)
| EvSelectVoice (token_id : string)
| EvSetRate (v : Z)
| EvSetVolume (v : Z)
| EvSpeak (text path : string)
| EvMkstemp (path : string)
| EvRemove (path : string)
| EvWaveWrite (path : string)
| EvPlayback (device samplerate : Z).

Record world := World {
  fs : gmap string file;         (* the files, by path *)
  com_count : gmap tid Z;        (* [_COM_STATE.count]; absent: never set *)
  trace : list event
}.

(** An entry of [sd.query_devices()]; [max_output_channels] may be missing
    from the dict. *)
Record device_info := DeviceInfo {
  dev_name : string;
  max_output_channels : option Z
}.

(** The value of [sd.default.device], holding the default input and output
    device (each an [int] or [None]): a list or a tuple, or an indexable
    pair object of another class.  What [sounddevice] returns is a pair
    object of its own class. *)
Inductive default_device :=
| DefaultSeq (items : list (option Z))
| DefaultObject (input output : option Z).

(** [default[1]], the system default output device *)
Definition default_output (d : default_device) : option Z :=
  match d with
  | DefaultSeq items => mjoin (items !! 1%nat)
  | DefaultObject _ output => output
  end.

(** The answers of the operating system, SAPI and PortAudio. *)
Record platform := Platform {
  sys_platform : string;
  _IMPORT_ERROR : option exn;        (* set when [comtypes] did not import *)
  _SPEECHLIB_ERROR : option exn;
  co_initialize : tid -> option exn; (* [CoInitialize()] raising *)
  create_object : string -> option exn;
  select_voice : string -> option exn;  (* [SetId] and [voice.Voice = token] *)
  voices_count : Z;                  (* [voice.GetVoices().Count] *)
  stream_open : string -> option exn;   (* [stream.Open(path, ..)] raising *)
  (* [voice.Speak(text, 0)]: what the engine does to the files, and whether
     it raises *)
  sapi_render : string -> Z -> Z -> option string -> string ->
                gmap string file -> gmap string file * option exn;
  stream_close : string -> option exn;  (* [stream.Close()] raising *)
  mkstemp : gmap string file -> result string;
  open_for_write : string -> option exn;   (* [open(path, "wb")] raising *)
  (* writing the frames to the opened file, or closing it, failing: what is
     left of the file, and the exception *)
  write_frames : string -> option (file * exn);
  query_devices : list device_info;
  sd_default_device : default_device;
  (* [sd.OutputStream(...)] opened on a device and written to *)
  sd_play : Z -> Z -> list Q -> option exn;
  (* the order in which two playback threads finish *)
  monitor_finishes_first : bool
}.

(** Computations *)
Definition M (A : Type) : Type := world -> result A * world.

Definition ret {A} (a : A) : M A := fun w => (Ok a, w).
Definition raise {A} (e : exn) : M A := fun w => (Raise e, w).
Definition bind {A B} (m : M A) (k : A -> M B) : M B :=
  fun w => match m w with
           | (Ok a, w') => k a w'
           | (Raise e, w') => (Raise e, w')
           end.

(** [try: body finally: fin]: [fin] always runs; an exception of [fin]
    replaces the outcome of [body]. *)
Definition try_finally {A} (body : M A) (fin : M unit) : M A :=
  fun w => let '(r, w') := body w in
           match fin w' with
           | (Ok _, w'') => (r, w'')
           | (Raise e, w'') => (Raise e, w'')
           end.

(** [try: body except cls: pass] *)
Definition try_except_pass (body : M unit) (cls : exn_class -> bool) : M unit :=
  fun w => match body w with
           | (Raise e, w') => if cls (exn_cls e) then (Ok tt, w') else (Raise e, w')
           | r => r
           end.

(** [try: body except Exception as exc: raise e' from exc] *)
Definition try_except_raise {A} (body : M A) (e' : exn) : M A :=
  fun w => match body w with
           | (Raise _, w') => (Raise e', w')
           | r => r
           end.

Definition emit (e : event) : M unit :=
  fun w => (Ok tt, World (fs w) (com_count w) (trace w ++ [e])).

(** An external call that either returns or raises. *)
Definition may_raise (o : option exn) : M unit :=
  match o with None => ret tt | Some e => raise e end.

Definition lift_result {A} (r : result A) : M A := fun w => (r, w).

(** [getattr(_COM_STATE, "count", 0)] on thread [t] *)
Definition get_count (t : tid) : M Z :=
  fun w => (Ok (default 0 (com_count w !! t)), w).

(** [_COM_STATE.count = v] on thread [t] *)
Definition set_count (t : tid) (v : Z) : M unit :=
  fun w => (Ok tt, World (fs w) (<[t := v]> (com_count w)) (trace w)).

Definition win32 (P : platform) : bool := String.eqb (sys_platform P) "win32".

(** [os.remove(path)]: removes an existing file and raises
    [FileNotFoundError] when there is none.  Windows refuses to remove a
    file that is held open, with a [PermissionError]. *)
Definition os_remove (P : platform) (path : string) : M unit :=
  fun w =>
    match fs w !! path with
    | None =>
        (Raise (Exn FileNotFoundError
                  (if win32 P
                   then os_error "WinError 2" "The system cannot find the file specified" path
                   else os_error "Errno 2" "No such file or directory" path)), w)
    | Some f =>
        if held f && win32 P then
          (Raise (Exn PermissionError
                    (os_error "WinError 32"
                       "The process cannot access the file because it is being used by another process"
                       path)), w)
        else (Ok tt, World (delete path (fs w)) (com_count w)
                           (trace w ++ [EvRemove path]))
    end.

(** A file created or replaced at [path] *)
Definition put_file (path : string) (f : file) : M unit :=
  fun w => (Ok tt, World (<[path := f]> (fs w)) (com_count w) (trace w)).

(** The file at [path], if there is one, replaced by [change] of it *)
Definition alter_file (change : file -> file) (path : string) : M unit :=
  fun w => (Ok tt, World (alter change path (fs w)) (com_count w) (trace w)).

End Sys.
Export Sys.

(** [M] is a monad; [x ← m; k], ['(x, y) ← m; k] and [m;; k] sequence
    computations, an exception ending the sequence. *)
Global Instance M_ret : MRet M := @ret.
Global Instance M_bind : MBind M := fun A B k m => bind m k.

(** ** [sapi.py] *)

Module Sapi.

(** *** Samples and their 16-bit encoding *)

(** [np.clip(x, lo, hi)], that is [minimum(maximum(x, lo), hi)] *)
Definition clip (x lo hi : Q) : Q := Qmin (Qmax x lo) hi.

(** The integer a 16-bit two's complement word holds. *)
Definition wrap16 (z : Z) : Z := (z + 32768) mod 65536 - 32768.

(** Conversion of a float to an integer: the fraction is dropped. *)
Definition Qtrunc (x : Q) : Z := Z.quot (Qnum x) (Zpos (Qden x)).

(** [x.astype(np.int16)] on one sample *)
Definition astype_int16 (x : Q) : Z := wrap16 (Qtrunc x).

(** One sample of
    [np.clip(pcm * 32767.0, -32768.0, 32767.0).astype(np.int16)], with the
    product taken exactly.  The binary32 product of the code is rounded;
    [Binary32.to_pcm16] is the conversion with that rounding.  The two give
    the same integer on every sample that [synth_pcm16] returns, the
    samples [k / 32768] for 16-bit [k], which are the samples that
    [export_wav] converts. *)
Definition to_pcm16 (x : Q) : Z :=
  astype_int16 (clip (x * 32767) (-32768) 32767).

(** One sample of [np.frombuffer(..).astype(np.float32) / 32768.0] *)
Definition of_pcm16 (k : Z) : Q := inject_Z k / 32768.

Definition byte_of_Z (z : Z) : Byte.byte :=
  match Byte.of_N (Z.to_N (z mod 256)) with
  | Some b => b
  | None => Byte.x00
  end.

Definition Z_of_byte (b : Byte.byte) : Z := Z.of_N (Byte.to_N b).

(** [pcm16.tobytes()]: two bytes a sample, low byte first *)
Definition tobytes (pcm16 : list Z) : list Byte.byte :=
  flat_map (fun k => [byte_of_Z k; byte_of_Z (k / 256)]) pcm16.

(** [np.frombuffer(frames, dtype=np.int16)]; a buffer of odd length is a
    [ValueError]. *)
Fixpoint frombuffer_int16 (frames : list Byte.byte) : option (list Z) :=
  match frames with
  | [] => Some []
  | [_] => None
  | lo :: hi :: rest =>
      match frombuffer_int16 rest with
      | Some ks => Some (wrap16 (Z_of_byte lo + 256 * Z_of_byte hi) :: ks)
      | None => None
      end
  end.

(** *** The synthesizer *)

Section WithPlatform.
Context (P : platform).

Definition _ensure_windows : M unit :=
  if negb (String.eqb (sys_platform P) "win32") then
    raise (Exn OSError "Windows SAPI speech synthesis is only available on Windows.")
  else if bool_decide (is_Some (_IMPORT_ERROR P)) then
    raise (Exn ImportError "Failed to import comtypes. Install the dependency first.")
  else if bool_decide (is_Some (_SPEECHLIB_ERROR P)) then
    raise (Exn ImportError "Failed to load SAPI type library.")
  else ret tt.

Definition _clamp (value lo hi : Z) : Z := Z.max lo (Z.min hi value).

(** [with _com_scope(): body], run by thread [t].  [CoInitialize] and
    [CoUninitialize] are [None] exactly when [comtypes] did not import. *)
Definition _com_scope {A} (t : tid) (body : M A) : M A :=
  if bool_decide (is_Some (_IMPORT_ERROR P)) then
    raise (Exn ImportError "comtypes CoInitialize is unavailable.")
  else
    count ← get_count t;
    if (0 <? count)%Z then
      set_count t (count + 1);;
      try_finally body (c ← get_count t; set_count t (c - 1))
    else
      may_raise (co_initialize P t);;
      emit (EvCoInitialize t);;
      set_count t 1;;
      try_finally body (set_count t 0 ;; emit (EvCoUninitialize t)).

(** [CreateObject(progid)] *)
Definition CreateObject (progid : string) : M unit :=
  emit (EvCreateObject progid) ;; may_raise (create_object P progid).

Definition _create_voice (voice_token_id : option string) : M unit :=
  _ensure_windows;;
  CreateObject "SAPI.SpVoice";;
  match voice_token_id with
  | Some id =>
      if truthy id then
        try_except_raise
          (CreateObject "SAPI.SpObjectToken";;
           emit (EvSelectVoice id);;
           may_raise (select_voice P id))
          (Exn RuntimeError ("Failed to select voice: " +:+ id))
      else ret tt
  | None => ret tt
  end.

(** [tempfile.mkstemp(suffix=".wav")] and [os.close(tmp_fd)]: a new, empty
    file. *)
Definition mkstemp_wav : M string :=
  fun w => match mkstemp P (fs w) with
           | Ok path => (Ok path, World (<[path := EmptyFile]> (fs w)) (com_count w)
                                        (trace w ++ [EvMkstemp path]))
           | Raise e => (Raise e, w)
           end.

(** [stream.Open(path, SSFMCreateForWrite)]: the file is created, or
    emptied, and the stream holds it open. *)
Definition stream_Open (path : string) : M unit :=
  may_raise (stream_open P path);;
  put_file path (InUse EmptyFile).

(** [voice.Speak(text, 0)] into the stream on [path]; the stream goes on
    holding the file. *)
Definition Speak (text : string) (rate volume : Z) (voice_token_id : option string)
    (path : string) : M unit :=
  fun w => let '(fs', r) := sapi_render P text rate volume voice_token_id path (fs w) in
           let w' := World (alter (fun f => InUse (content f)) path fs')
                           (com_count w) (trace w ++ [EvSpeak text path]) in
           match r with
           | None => (Ok tt, w')
           | Some e => (Raise e, w')
           end.

(** [stream.Close()]: the stream lets go of the file. *)
Definition stream_Close (path : string) : M unit :=
  may_raise (stream_close P path);;
  alter_file content path.

(** Lines 101-105 of [synth_pcm16]: [stream.Open(tmp_path, ..)],
    [voice.Speak(text, 0)], [stream.Close()] *)
Definition render (text : string) (rate volume : Z) (voice_token_id : option string)
    (path : string) : M unit :=
  stream_Open path;;
  Speak text rate volume voice_token_id path;;
  stream_Close path.

(** What [wave.open(.., "rb")] makes of a file: the frames and the frame
    rate, or the exception it raises *)
Fixpoint wave_parse (f : file) : result (list Byte.byte * Z) :=
  match f with
  | WavFile _ _ framerate frames => Ok (frames, framerate)
  | EmptyFile => Raise (Exn EOFError "")
  | OtherFile => Raise (Exn WaveError "file does not start with RIFF id")
  | Damaged e => Raise e
  | InUse f' => wave_parse f'
  end.

(** [with wave.open(path, "rb") as wf]: the frames and the frame rate.
    Windows refuses to open a file that a stream holds. *)
Definition wave_read (path : string) : M (list Byte.byte * Z) :=
  fun w => match fs w !! path with
           | None =>
               (Raise (Exn FileNotFoundError
                         (os_error "Errno 2" "No such file or directory" path)), w)
           | Some f =>
               if held f && win32 P then
                 (Raise (Exn PermissionError
                           (os_error "Errno 13" "Permission denied" path)), w)
               else (wave_parse f, w)
           end.

(** Lines 108-115 of [synth_pcm16]: the file read back as samples *)
Definition read_pcm (path : string) : M (list Q * Z) :=
  '(frames, samplerate) ← wave_read path;
  match frombuffer_int16 frames with
  | None => raise (Exn ValueError "buffer size must be a multiple of element size")
  | Some ks => ret (map of_pcm16 ks, samplerate)
  end.

Definition default_samplerate : Z := 16000.

Definition is_FileNotFoundError (c : exn_class) : bool :=
  match c with FileNotFoundError => true | _ => false end.

(** Lines 85-115 of [synth_pcm16]: the body of its [try] *)
Definition synth_try (t : tid) (text : string) (rate volume : Z)
    (voice_token_id : option string) (tmp_path : string) : M (list Q * Z) :=
  _com_scope t
    (_create_voice voice_token_id;;
     (if (voices_count P =? 0)%Z then
        raise (Exn RuntimeError
          "Windows SAPI does not have any voices installed. Install a voice pack from Windows settings.")
      else ret tt);;
     emit (EvSetRate (_clamp rate (-10) 10));;
     emit (EvSetVolume (_clamp volume 0 100));;
     CreateObject "SAPI.SpFileStream";;
     CreateObject "SAPI.SpAudioFormat";;
     render text (_clamp rate (-10) 10) (_clamp volume 0 100) voice_token_id tmp_path);;
  read_pcm tmp_path.

(** Lines 117-120 of [synth_pcm16]: its [finally] *)
Definition synth_finally (tmp_path : string) : M unit :=
  try_except_pass (os_remove P tmp_path) is_FileNotFoundError.

Definition synth_pcm16 (t : tid) (text : string) (rate volume : Z)
    (voice_token_id : option string) : M (list Q * Z) :=
  let text := strip (str_or text "") in
  if negb (truthy text) then ret ([], default_samplerate)
  else
    tmp_path ← mkstemp_wav;
    try_finally (synth_try t text rate volume voice_token_id tmp_path)
                (synth_finally tmp_path).

(** Lines 138-144 of [export_wav]: the samples written as a WAV file.
    [wave.open(path, "wb")] creates the file, or empties it, before
    anything else.  A frame rate that is not positive is refused by
    [setframerate], and closing the file then raises for the missing rate:
    the file stays empty.  A rate or a length that does not fit the header
    makes [struct.pack] raise while the header is written, twice, once in
    [writeframes] and once on closing: the eight bytes [RIFFRIFF] stay. *)
Definition write_pcm (path : string) (pcm : list Q) (samplerate : Z) : M unit :=
  let pcm16 := map to_pcm16 pcm in
  may_raise (open_for_write P path);;
  emit (EvWaveWrite path);;
  put_file path EmptyFile;;
  if (samplerate <=? 0)%Z then
    raise (Exn WaveError "sampling rate not specified")
  else if ((4294967295 <? 2 * samplerate)
           || (4294967295 <? 36 + 2 * Z.of_nat (length pcm16)))%Z then
    put_file path (Damaged (Exn WaveError "not a WAVE file"));;
    raise (Exn StructError "'L' format requires 0 <= number <= 4294967295")
  else
    match write_frames P path with
    | Some (rest, e) => put_file path rest;; raise e
    | None => put_file path (WavFile 1 2 samplerate (tobytes pcm16))
    end.

Definition export_wav (t : tid) (text path : string) (rate volume : Z)
    (voice_token_id : option string) : M unit :=
  '(pcm, samplerate) ← synth_pcm16 t text rate volume voice_token_id;
  match pcm with
  | [] => raise (Exn RuntimeError "No audio was generated for the provided text.")
  | _ :: _ => write_pcm path pcm samplerate
  end.

End WithPlatform.

(** *** The installed voices *)

(** Metadata about an installed SAPI voice. *)
Record VoiceInfo := {
  index : Z;
  description : string;
  language : string;
  token_id : string
}.

(** A voice token, by what SAPI answers to the calls [list_voices] makes on
    it: each call returns or raises. *)
Record token := Token {
  GetDescription : result string;
  GetAttribute : string -> result (option string);
  Id : result string
}.

Section Voices.
Context (P : platform).
Context (Item : Z -> result token).   (* [tokens.Item(i)] *)

(** The body of the loop of [list_voices] *)
Definition voice_info (i : Z) : M VoiceInfo :=
  token ← lift_result (Item i);
  desc ← lift_result (GetDescription token);
  attr ← lift_result (GetAttribute token "Language");
  let lang := match attr with Some s => str_or s "" | None => "" end in
  token_id ← lift_result (Id token);
  ret {| index := i; description := desc; language := lang; token_id := token_id |}.

(** [for i in range(tokens.Count): .. items.append(..)] *)
Fixpoint collect_voices (indices : list Z) (items : list VoiceInfo)
    : M (list VoiceInfo) :=
  match indices with
  | [] => ret items
  | i :: rest => v ← voice_info i; collect_voices rest (items ++ [v])%list
  end.

Definition list_voices (t : tid) : M (list VoiceInfo) :=
  _com_scope P t
    (_create_voice P None;;
     collect_voices (range (voices_count P)) []).

(** An entry that holds what the token at its index answered, with the
    empty string for a language that is missing. *)
Definition recorded (v : VoiceInfo) : Prop :=
  exists tok attr,
    Item (index v) = Ok tok /\
    GetDescription tok = Ok (description v) /\
    GetAttribute tok "Language" = Ok attr /\
    language v = default "" attr /\
    Id tok = Ok (token_id v).

End Voices.

(** *** Loading the SAPI type library *)

(** The module globals [SpeechLib] and [_SPEECHLIB_ERROR], which
    [_load_speechlib] assigns. *)
Record globals := Globals {
  g_SpeechLib : option unit;          (* [None], or the generated module *)
  g_SPEECHLIB_ERROR : option exn
}.

(** The platform as the code finds it when the module globals are [g]. *)
Definition with_globals (P : platform) (g : globals) : platform := {|
  sys_platform := sys_platform P;
  _IMPORT_ERROR := _IMPORT_ERROR P;
  _SPEECHLIB_ERROR := g_SPEECHLIB_ERROR g;
  co_initialize := co_initialize P;
  create_object := create_object P;
  select_voice := select_voice P;
  voices_count := voices_count P;
  stream_open := stream_open P;
  sapi_render := sapi_render P;
  stream_close := stream_close P;
  mkstemp := mkstemp P;
  open_for_write := open_for_write P;
  write_frames := write_frames P;
  query_devices := query_devices P;
  sd_default_device := sd_default_device P;
  sd_play := sd_play P;
  monitor_finishes_first := monitor_finishes_first P
|}.

(** Computations that also read and assign the module globals; an
    exception leaves the globals as they were assigned before it. *)
Definition MG (A : Type) : Type := globals -> world -> result A * globals * world.

Definition g_ret {A} (a : A) : MG A := fun g w => (Ok a, g, w).
Definition g_raise {A} (e : exn) : MG A := fun g w => (Raise e, g, w).
Definition g_bind {A B} (m : MG A) (k : A -> MG B) : MG B :=
  fun g w => match m g w with
             | (Ok a, g', w') => k a g' w'
             | (Raise e, g', w') => (Raise e, g', w')
             end.
Definition g_lift {A} (m : M A) : MG A :=
  fun g w => let '(r, w') := m w in (r, g, w').
Definition get_globals : MG globals := fun g w => (Ok g, g, w).
Definition set_globals (g' : globals) : MG unit := fun _ w => (Ok tt, g', w).

Definition is_ImportError (c : exn_class) : bool :=
  match c with ImportError => true | _ => false end.

(** The answers of Python and [comtypes] to what [_load_speechlib] asks. *)
Record runtime := Runtime {
  environ_SystemRoot : option string;   (* [os.environ.get("SystemRoot")] *)
  os_path_join : string -> list string -> string;   (* [os.path.join(a, *parts)] *)
  (* [GetModule(path)]: what it does to the files and whether it raises *)
  GetModule : string -> gmap string file -> gmap string file * option exn;
  (* [from comtypes.gen import SpeechLib] raising, after the calls of
     [GetModule] made so far (the paths, oldest first) *)
  import_SpeechLib : list string -> option exn
}.

Section Loading.
Context (P : platform) (R : runtime).

(** [with _com_scope(): body] around a body that assigns globals.  The way
    the body ends, with a value or an exception, and the globals it leaves
    are carried through the scope as its value. *)
Definition g_com_scope {A} (t : tid) (body : MG A) : MG A :=
  fun g w =>
    match _com_scope P t (fun w0 => let '(r, g', w') := body g w0 in (Ok (r, g'), w')) w with
    | (Ok (r, g'), w') => (r, g', w')
    | (Raise e, w') => (Raise e, g, w')
    end.

Definition os_path_exists (path : string) : M bool :=
  fun w => (Ok (bool_decide (is_Some (fs w !! path))), w).

Definition call_GetModule (path : string) : M unit :=
  fun w => let '(fs', r) := GetModule R path (fs w) in
           let w' := World fs' (com_count w) (trace w) in
           match r with
           | None => (Ok tt, w')
           | Some e => (Raise e, w')
           end.

Definition candidates : list string :=
  let windows_dir := default "C:\Windows" (environ_SystemRoot R) in
  [os_path_join R windows_dir ["System32"; "Speech"; "Common"; "sapi.dll"];
   os_path_join R windows_dir ["SysWOW64"; "Speech"; "Common"; "sapi.dll"]].

(** The [for] loop over the candidates; [called] holds the paths given to
    [GetModule] so far.  It returns the paths given to [GetModule] when it
    ends, and whether it ended by [break] (otherwise its [else] runs). *)
Fixpoint try_candidates (paths called : list string) : M (list string * bool) :=
  match paths with
  | [] => ret (called, false)
  | path :: rest =>
      found ← os_path_exists path;
      if negb found then try_candidates rest called
      else
        fun w => match call_GetModule path w with
                 | (Ok _, w') => (Ok ((called ++ [path])%list, true), w')
                 | (Raise _, w') => try_candidates rest (called ++ [path])%list w'
                 end
  end.

(** Lines 188-211 of [_load_speechlib]: what runs inside its COM scope *)
Definition import_or_generate : MG unit :=
  match import_SpeechLib R [] with
  | None => g_ret tt
  | Some err =>
      if negb (is_ImportError (exn_cls err)) then g_raise err
      else if bool_decide (is_Some (_IMPORT_ERROR P)) then   (* [GetModule is None] *)
        g_bind get_globals (fun g =>
        g_bind (set_globals (Globals (g_SpeechLib g) (Some err))) (fun _ =>
        g_raise err))
      else
        g_bind (g_lift (try_candidates candidates [])) (fun '(called, broke) =>
        if broke then
          match import_SpeechLib R called with
          | None => g_ret tt
          | Some err' => g_raise err'
          end
        else
          g_bind get_globals (fun g =>
          g_bind (set_globals (Globals (g_SpeechLib g) (Some err))) (fun _ =>
          g_raise err)))
  end.

Definition _load_speechlib (t : tid) : MG unit :=
  g_bind get_globals (fun g =>
  match g_SpeechLib g, g_SPEECHLIB_ERROR g with
  | Some _, _ => g_ret tt
  | None, Some e => g_raise e
  | None, None =>
      if bool_decide (is_Some (_IMPORT_ERROR P)) then
        g_raise (Exn ImportError "comtypes is not available.")
      else
        g_bind (g_com_scope t import_or_generate) (fun _ =>
        g_bind get_globals (fun g' =>
        set_globals (Globals (Some tt) (g_SPEECHLIB_ERROR g'))))
  end).

(** [SapiSynth()]: lines 47-48 of [__init__] *)
Definition SapiSynth_init (t : tid) : MG unit :=
  g_bind get_globals (fun g =>
  g_bind (g_lift (_ensure_windows (with_globals P g))) (fun _ =>
  _load_speechlib t)).

End Loading.
End Sapi.

(** ** [service.py] *)

Module Service.
Import Sapi.

Definition PREFERRED_VB_KEYWORDS : list string :=
  ["CABLE Input"; "VB-Audio"; "Virtual Cable"].

Record OutputDevice := { index : Z; name : string }.

(** The settings a [TalkAsMicService] holds. *)
Record TalkAsMicService := {
  device_vb : option Z;
  device_monitor : option Z;
  voice_token_id : option string;
  rate : Z;
  volume : Z
}.

(** [enumerate(l)], counting from [start] *)
Fixpoint enumerate {A} (start : Z) (l : list A) : list (Z * A) :=
  match l with
  | [] => []
  | x :: l' => (start, x) :: enumerate (start + 1) l'
  end.

(** [any(kw.lower() in name for kw in keywords)], [name] the lowered name
    of the device *)
Definition name_matches (keywords : list string) (device : OutputDevice) : bool :=
  let name := lower (name device) in
  existsb (fun kw => contains (lower kw) name) keywords.

(** The loop of [_auto_pick_output_device]: the index of the first device
    whose name matches *)
Fixpoint first_match (keywords : list string) (devices : list OutputDevice)
    : option Z :=
  match devices with
  | [] => None
  | device :: rest =>
      if name_matches keywords device then Some (index device)
      else first_match keywords rest
  end.

Definition set_virtual_mic_device (device_index : option Z)
    (self : TalkAsMicService) : TalkAsMicService :=
  {| device_vb := device_index; device_monitor := device_monitor self;
     voice_token_id := voice_token_id self; rate := rate self;
     volume := volume self |}.

Definition set_monitor_device (device_index : option Z)
    (self : TalkAsMicService) : TalkAsMicService :=
  {| device_vb := device_vb self; device_monitor := device_index;
     voice_token_id := voice_token_id self; rate := rate self;
     volume := volume self |}.

(** [self.voice_token_id = token_id or None] *)
Definition set_voice (token_id : option string)
    (self : TalkAsMicService) : TalkAsMicService :=
  {| device_vb := device_vb self; device_monitor := device_monitor self;
     voice_token_id := match token_id with
                       | Some s => if truthy s then Some s else None
                       | None => None
                       end;
     rate := rate self; volume := volume self |}.

Definition set_rate (value : Z) (self : TalkAsMicService) : TalkAsMicService :=
  {| device_vb := device_vb self; device_monitor := device_monitor self;
     voice_token_id := voice_token_id self;
     rate := Z.max (-10) (Z.min 10 value);
     volume := volume self |}.

Definition set_volume (value : Z) (self : TalkAsMicService) : TalkAsMicService :=
  {| device_vb := device_vb self; device_monitor := device_monitor self;
     voice_token_id := voice_token_id self; rate := rate self;
     volume := Z.max 0 (Z.min 100 value) |}.

(** [np.max(np.abs(pcm))] of a buffer that starts with [x] *)
Definition peak_of (x : Q) (rest : list Q) : Q :=
  fold_left Qmax (map Qabs rest) (Qabs x).

(** Lines 83-88 of [synthesize]: what is done to the synthesized buffer *)
Definition normalize_peak (pcm : list Q) : result (list Q) :=
  match pcm with
  | [] => Raise (Exn RuntimeError "Speech synthesis returned empty audio.")
  | x :: rest =>
      let peak := peak_of x rest in
      if Qlt_le_dec (99 # 100) peak
      then Ok (map (fun s => s * ((99 # 100) / peak))%Q pcm)
      else Ok pcm
  end.

Section WithPlatform.
Context (P : platform).

Definition list_output_devices : list OutputDevice :=
  map (fun '(i, d) => {| index := i; name := dev_name d |})
      (List.filter (fun '(_, d) => (0 <? default 0 (max_output_channels d))%Z)
                   (enumerate 0 (query_devices P))).

Definition _auto_pick_output_device (keywords : list string) : option Z :=
  match first_match keywords list_output_devices with
  | Some i => Some i
  | None =>
      match sd_default_device P with
      | DefaultSeq [_; output] => output
      | _ => None
      end
  end.

(** The fields [__init__] sets. *)
Definition init : TalkAsMicService :=
  {| device_vb := _auto_pick_output_device PREFERRED_VB_KEYWORDS;
     device_monitor := None;
     voice_token_id := None;
     rate := 0;
     volume := 100 |}.

(** The services that the constructor and the setters produce. *)
Inductive configured : TalkAsMicService -> Prop :=
| configured_init : configured init
| configured_set_virtual_mic_device d self :
    configured self -> configured (set_virtual_mic_device d self)
| configured_set_monitor_device d self :
    configured self -> configured (set_monitor_device d self)
| configured_set_voice token_id self :
    configured self -> configured (set_voice token_id self)
| configured_set_rate value self :
    configured self -> configured (set_rate value self)
| configured_set_volume value self :
    configured self -> configured (set_volume value self).

Definition synthesize (t : tid) (self : TalkAsMicService) (text : string)
    : M (list Q * Z) :=
  '(pcm, samplerate) ← synth_pcm16 P t text (rate self) (volume self)
                                     (voice_token_id self);
  pcm' ← lift_result (normalize_peak pcm);
  ret (pcm', samplerate).

(** The thread [_play_async] starts: it plays on one device and appends its
    outcome to the shared list [results]. *)
Definition runner (pcm : list Q) (samplerate device_index : Z)
    (results : list (Z * option exn)) : M (list (Z * option exn)) :=
  emit (EvPlayback device_index samplerate);;
  ret (results ++ [(device_index, sd_play P samplerate device_index pcm)])%list.

(** The threads started by [speak], run until all are joined.  Each appends
    once; the platform decides which of two finishes first. *)
Definition run_threads (threads : list (list (Z * option exn) -> M (list (Z * option exn))))
    (results : list (Z * option exn)) : M (list (Z * option exn)) :=
  match threads with
  | [primary; monitor] =>
      if monitor_finishes_first P
      then (r ← monitor results; primary r)
      else (r ← primary results; monitor r)
  | _ => foldl (fun m th => r ← m; th r) (ret results) threads
  end.

(** [f"#{idx}: {err}" for idx, err in results if err is not None] *)
Definition error_lines (results : list (Z * option exn)) : list string :=
  flat_map (fun '(idx, err) =>
              match err with
              | Some e => ["#" +:+ str_of_int idx +:+ ": " +:+ exn_msg e]
              | None => []
              end) results.

Definition speak (t : tid) (self : TalkAsMicService) (text : string) : M unit :=
  '(pcm, samplerate) ← synthesize t self text;
  match device_vb self with
  | None =>
      raise (Exn RuntimeError
        "No VB-CABLE or virtual microphone output device has been selected.")
  | Some vb =>
      let threads :=
        runner pcm samplerate vb ::
        match device_monitor self with
        | Some mon => [runner pcm samplerate mon]
        | None => []
        end in
      results ← run_threads threads [];
      match error_lines results with
      | [] => ret tt
      | errors =>
          raise (Exn RuntimeError
            ("Failed to play audio on device(s): " +:+ join "; " errors))
      end
  end.

End WithPlatform.
End Service.

(** ** The same arithmetic in IEEE 754

    The conversions of [sapi.py] and the scaling of [service.py] as numpy
    computes them: on [float32] (binary32), a Python [float] being a
    binary64.  The Standard Library's [spec_float] is the executable
    specification of both formats.  This module is used to compare the
    exact arithmetic above with the rounded one on the samples that can
    occur. *)

Module Binary32.

Definition of_Z (z : Z) : spec_float := binary_normalize 24 128 z 0 false.
Definition mul : spec_float -> spec_float -> spec_float := SFmul 24 128.
Definition div : spec_float -> spec_float -> spec_float := SFdiv 24 128.

Definition is_nan (x : spec_float) : bool :=
  match x with S754_nan => true | _ => false end.

(** [np.maximum] and [np.minimum]: a NaN wins *)
Definition maximum (x y : spec_float) : spec_float :=
  if is_nan x then x else if is_nan y then y else if SFltb x y then y else x.
Definition minimum (x y : spec_float) : spec_float :=
  if is_nan x then x else if is_nan y then y else if SFltb y x then y else x.
Definition clip (x lo hi : spec_float) : spec_float := minimum (maximum x lo) hi.

(** The integer part of a finite float; the cast of a NaN or an infinity
    is not defined. *)
Definition trunc (x : spec_float) : option Z :=
  match x with
  | S754_zero _ => Some 0
  | S754_finite s m e =>
      Some (cond_Zopp s (match e with
                         | Z0 => Zpos m
                         | Zpos p => Zpos m * 2 ^ Zpos p
                         | Zneg p => Zpos m / 2 ^ Zpos p
                         end))
  | _ => None
  end.

(** The rational a finite float denotes (0 for the others) *)
Definition to_Q (x : spec_float) : Q :=
  match x with
  | S754_finite s m e => (inject_Z (cond_Zopp s (Zpos m)) * Qpower 2 e)%Q
  | _ => 0%Q
  end.

(** One sample of
    [np.clip(pcm * 32767.0, -32768.0, 32767.0).astype(np.int16)] *)
Definition to_pcm16 (x : spec_float) : option Z :=
  option_map Sapi.wrap16
    (trunc (clip (mul x (of_Z 32767)) (of_Z (-32768)) (of_Z 32767))).

(** One sample of [np.frombuffer(..).astype(np.float32) / 32768.0] *)
Definition of_pcm16 (k : Z) : spec_float := div (of_Z k) (of_Z 32768).

(** The literal [0.99], a binary64 *)
Definition c099 : spec_float :=
  SFdiv 53 1024 (binary_normalize 53 1024 99 0 false)
                (binary_normalize 53 1024 100 0 false).

(** A binary64 rounded to binary32 *)
Definition of_binary64 (x : spec_float) : spec_float :=
  match x with
  | S754_finite s m e => binary_normalize 24 128 (cond_Zopp s (Zpos m)) e s
  | _ => x
  end.

(** A binary32 as a binary64: [float(x)] *)
Definition to_binary64 (x : spec_float) : spec_float :=
  match x with
  | S754_finite s m e => binary_normalize 53 1024 (cond_Zopp s (Zpos m)) e s
  | _ => x
  end.

(** [x * (0.99 / peak)] for a sample [x] and the peak of its buffer: the
    peak and the quotient are Python [float]s, the product is a
    [float32]. *)
Definition scale (peak x : spec_float) : spec_float :=
  mul x (of_binary64 (SFdiv 53 1024 c099 (to_binary64 peak))).

(** [np.max(np.abs(pcm))] of a buffer that starts with [x] *)
Definition peak_of (x : spec_float) (rest : list spec_float) : spec_float :=
  fold_left maximum (map SFabs rest) (SFabs x).

(** Lines 85-87 of [synthesize] *)
Definition normalize_peak (pcm : list spec_float) : list spec_float :=
  match pcm with
  | [] => []
  | x :: rest =>
      let peak := peak_of x rest in
      if SFltb c099 (to_binary64 peak) then map (scale peak) pcm else pcm
  end.

(** The number with mantissa [m] and exponent [e] *)
Definition val (m e : Z) : Q := (inject_Z m * Qpower 2 e)%Q.

(** The integers [z], [z + 1], .., [n] of them *)
Fixpoint upto (n : nat) (z : Z) : list Z :=
  match n with
  | O => []
  | S n' => z :: upto n' (z + 1)
  end.

Definition SF_eqb (x y : spec_float) : bool :=
  match x, y with
  | S754_zero a, S754_zero b => Bool.eqb a b
  | S754_infinity a, S754_infinity b => Bool.eqb a b
  | S754_nan, S754_nan => true
  | S754_finite a m e, S754_finite b m' e' =>
      Bool.eqb a b && (m =? m')%positive && (e =? e')%Z
  | _, _ => false
  end.

(** The sample of magnitude [i / 32768], for [0 <= i <= 32768] *)
Definition level (i : Z) : spec_float := SFabs (of_pcm16 (- i)).

(** A number that orders zero and the positive binary32 numbers as they
    are ordered *)
Definition key (x : spec_float) : Z :=
  match x with
  | S754_finite false m e => (e + 200) * 16777216 + Zpos m
  | _ => 0
  end.

(** [0.99 / peak] as a [float32], for the peak [i / 32768] *)
Definition factor (i : Z) : spec_float :=
  of_binary64 (SFdiv 53 1024 c099 (to_binary64 (level i))).

(** What is checked, by computation, of each 16-bit sample [k]: it is read
    as plus or minus a level, reading is exact, and writing the sample read
    gives the integer of the exact arithmetic. *)
Definition sample_ok (k : Z) : bool :=
  let x := of_pcm16 k in
  SF_eqb x (if (k <? 0)%Z then SFopp (level (- k)) else level k) &&
  Qeq_bool (to_Q x) (Sapi.of_pcm16 k) &&
  match to_pcm16 x with
  | Some j => (j =? Sapi.to_pcm16 (Sapi.of_pcm16 k))%Z
  | None => false
  end.

(** What is checked of each level [i]: it is zero or a normal positive
    number, it denotes [i / 32768], it lies below the next level, and it
    exceeds [0.99] exactly from [i = 32441] on. *)
Definition level_ok (i : Z) : bool :=
  let x := level i in
  match x with
  | S754_zero false => (i =? 0)%Z
  | S754_finite false m e =>
      (0 <? i)%Z && (8388608 <=? Zpos m)%Z && (Zpos m <? 16777216)%Z && (-38 <=? e)%Z
  | _ => false
  end &&
  Qeq_bool (to_Q x) (i # 32768) &&
  ((i =? 32768)%Z || (key x <? key (level (i + 1)))%Z) &&
  Bool.eqb (SFltb c099 (to_binary64 x)) (32441 <=? i)%Z.

(** What is checked of each factor, for the peaks above 0.99: it is a
    normal positive number, and the peak times the factor, rounded up,
    stays below [0.99 + 2^-22]. *)
Definition factor_ok (i : Z) : bool :=
  match factor i with
  | S754_finite false m e =>
      (8388608 <=? Zpos m)%Z && (-100 <=? e)%Z &&
      Qle_bool ((i # 32768) * val (Zpos m) e * (1 + (1 # 8388608)))
               ((99 # 100) + (1 # 4194304))
  | _ => false
  end.

(** On a peak sample [k / 32768]: scaled, it is within [2^-23] of 0.99. *)
Definition peak_within_tolerance (k : Z) : bool :=
  let peak := SFabs (of_pcm16 k) in
  Qle_bool (Qabs (to_Q (scale peak (of_pcm16 k))) - (99 # 100)) (1 # 8388608) &&
  Qle_bool ((99 # 100) - Qabs (to_Q (scale peak (of_pcm16 k)))) (1 # 8388608).

(** Zero, or a positive normal number of exponent at least -38 *)
Definition level_like (x : spec_float) : Prop :=
  x = S754_zero false \/
  exists m e, x = S754_finite false m e /\ 8388608 <= Zpos m < 16777216 /\ -38 <= e.

(** The largest magnitude in a buffer of 16-bit samples that starts with
    [k] *)
Definition int_peak (k : Z) (rest : list Z) : Z :=
  fold_left Z.max (map Z.abs rest) (Z.abs k).

End Binary32.

(** ** What is observed of a run *)

Module Obs.

Definition is_playback (e : event) : bool :=
  match e with EvPlayback _ _ => true | _ => false end.

(** The device I/O in a trace: the playbacks, in order *)
Definition playbacks (tr : list event) : list event := List.filter is_playback tr.

(** The COM initializations (true) and uninitializations (false) of thread
    [t] in a trace, in order *)
Fixpoint com_calls (t : tid) (tr : list event) : list bool :=
  match tr with
  | [] => []
  | EvCoInitialize t' :: tr' =>
      if bool_decide (t' = t) then true :: com_calls t tr' else com_calls t tr'
  | EvCoUninitialize t' :: tr' =>
      if bool_decide (t' = t) then false :: com_calls t tr' else com_calls t tr'
  | _ :: tr' => com_calls t tr'
  end.

(** [_COM_STATE.count] as thread [t] reads it *)
Definition count_of (t : tid) (w : world) : Z := default 0 (com_count w !! t).

(** A computation [m] keeps a relation [R] between the world before and the
    world after, however it ends. *)
Definition keeps {A} (R : world -> world -> Prop) (m : M A) : Prop :=
  forall w, R w (m w).2.

(** The same device I/O before and after *)
Definition same_playbacks (w w' : world) : Prop :=
  playbacks (trace w') = playbacks (trace w).

(** Code run inside a COM scope of thread [t] (entered with a positive
    count) that leaves the count and the COM runtime of the thread as they
    are *)
Definition com_neutral (t : tid) (w w' : world) : Prop :=
  0 < count_of t w ->
  com_count w' !! t = com_count w !! t /\
  com_calls t (trace w') = com_calls t (trace w).

(** The computation has added events to the trace, all of them allowed by
    [ok], and removed none. *)
Definition adds_only (ok : event -> bool) (w w' : world) : Prop :=
  exists evs, trace w' = (trace w ++ evs)%list /\ forallb ok evs = true.

(** The count and the COM calls of thread [t] are as they were. *)
Definition com_same (t : tid) (w w' : world) : Prop :=
  com_count w' !! t = com_count w !! t /\
  com_calls t (trace w') = com_calls t (trace w).

(** The count of thread [t] is what it was, and the thread has made no COM
    call or, the count being zero, one initialization followed by one
    uninitialization. *)
Definition com_balanced (t : tid) (w w' : world) : Prop :=
  count_of t w' = count_of t w /\
  (com_calls t (trace w') = com_calls t (trace w) \/
   count_of t w = 0 /\
   com_calls t (trace w') = (com_calls t (trace w) ++ [true; false])%list).

(** The files are as they were. *)
Definition same_files (w w' : world) : Prop := fs w' = fs w.

(** What a call of [synth_pcm16] by thread [t] may do, [tmp_path] being its
    temporary file. *)
Definition synth_event (t : tid) (text : string) (voice_token_id : option string)
    (tmp_path : string) (e : event) : bool :=
  match e with
  | EvCoInitialize t' | EvCoUninitialize t' => bool_decide (t' = t)
  | EvCreateObject progid =>
      bool_decide (progid ∈ ["SAPI.SpVoice"; "SAPI.SpObjectToken";
                             "SAPI.SpFileStream"; "SAPI.SpAudioFormat"])
  | EvSelectVoice id => bool_decide (voice_token_id = Some id) && truthy id
  | EvSetRate v => ((-10 <=? v) && (v <=? 10))%Z
  | EvSetVolume v => ((0 <=? v) && (v <=? 100))%Z
  | EvSpeak text' path =>
      String.eqb text' (strip text) && truthy text' && String.eqb path tmp_path
  | EvMkstemp path | EvRemove path => String.eqb path tmp_path
  | EvWaveWrite _ | EvPlayback _ _ => false
  end.

(** The events of lines 94-106 of [synth_pcm16]: rate and volume are set,
    the file stream is set up, the text is spoken. *)
Definition is_speaking (e : event) : bool :=
  match e with
  | EvSetRate _ | EvSetVolume _ | EvSpeak _ _ => true
  | EvCreateObject progid =>
      bool_decide (progid ∈ ["SAPI.SpFileStream"; "SAPI.SpAudioFormat"])
  | _ => false
  end.

End Obs.
Export Obs.

(** ** Concrete platforms, for running the model *)

Module Demo.
Import Sapi Service.

(** Three 16-bit samples as the engine writes them; the second has full
    negative scale. *)
Definition rendered : file := WavFile 1 2 16000 (tobytes [16384; -32768; 1]).

(** A machine with a virtual cable as device 2; playback on device 7
    fails. *)
Definition windows : platform := {|
  sys_platform := "win32";
  _IMPORT_ERROR := None;
  _SPEECHLIB_ERROR := None;
  co_initialize := fun _ => None;
  create_object := fun _ => None;
  select_voice := fun _ => None;
  voices_count := 2;
  stream_open := fun _ => None;
  sapi_render := fun _ _ _ _ path files => (<[path := rendered]> files, None);
  stream_close := fun _ => None;
  mkstemp := fun _ => Ok "tmp0.wav";
  open_for_write := fun _ => None;
  write_frames := fun _ => None;
  query_devices :=
    [DeviceInfo "Speakers (Realtek Audio)" (Some 2);
     DeviceInfo "Microphone (USB)" (Some 0);
     DeviceInfo "CABLE Input (VB-Audio Virtual Cable)" (Some 2)];
  sd_default_device := DefaultObject (Some 1) (Some 0);
  sd_play := fun _ device _ =>
    if (device =? 7)%Z then Some (Exn PortAudioError "Invalid device") else None;
  monitor_finishes_first := false
|}.

(** The same machine with other devices and another default setting. *)
Definition with_devices (devices : list device_info) (d : default_device)
    : platform := {|
  sys_platform := sys_platform windows;
  _IMPORT_ERROR := _IMPORT_ERROR windows;
  _SPEECHLIB_ERROR := _SPEECHLIB_ERROR windows;
  co_initialize := co_initialize windows;
  create_object := create_object windows;
  select_voice := select_voice windows;
  voices_count := voices_count windows;
  stream_open := stream_open windows;
  sapi_render := sapi_render windows;
  stream_close := stream_close windows;
  mkstemp := mkstemp windows;
  open_for_write := open_for_write windows;
  write_frames := write_frames windows;
  query_devices := devices;
  sd_default_device := d;
  sd_play := sd_play windows;
  monitor_finishes_first := monitor_finishes_first windows
|}.

(** The same machine with another engine: [render] is what [voice.Speak]
    does to the files and whether it raises. *)
Definition with_engine
    (render : string -> gmap string file -> gmap string file * option exn)
    : platform := {|
  sys_platform := sys_platform windows;
  _IMPORT_ERROR := _IMPORT_ERROR windows;
  _SPEECHLIB_ERROR := _SPEECHLIB_ERROR windows;
  co_initialize := co_initialize windows;
  create_object := create_object windows;
  select_voice := select_voice windows;
  voices_count := voices_count windows;
  stream_open := stream_open windows;
  sapi_render := fun _ _ _ _ => render;
  stream_close := stream_close windows;
  mkstemp := mkstemp windows;
  open_for_write := open_for_write windows;
  write_frames := write_frames windows;
  query_devices := query_devices windows;
  sd_default_device := sd_default_device windows;
  sd_play := sd_play windows;
  monitor_finishes_first := monitor_finishes_first windows
|}.

(** Nothing on disk, COM never entered, nothing done yet. *)
Definition boot : world := World ∅ ∅ [].

(** A service with no device selected. *)
Definition unset : TalkAsMicService :=
  {| device_vb := None; device_monitor := None; voice_token_id := None;
     rate := 0; volume := 100 |}.

(** The service as constructed on [windows] (primary device 2), with
    device 7 as monitor. *)
Definition monitored : TalkAsMicService :=
  set_monitor_device (Some 7) (init windows).

(** What [synthesize] makes of [rendered]: the peak 1 brought to 0.99 *)
Definition hello_pcm : list Q :=
  match (synthesize windows 0%nat monitored "hello" boot).1 with
  | Ok (pcm, _) => pcm
  | Raise _ => []
  end.

(** The machine [windows] with [n] voices installed. *)
Definition with_voices (n : Z) : platform := {|
  sys_platform := sys_platform windows;
  _IMPORT_ERROR := _IMPORT_ERROR windows;
  _SPEECHLIB_ERROR := _SPEECHLIB_ERROR windows;
  co_initialize := co_initialize windows;
  create_object := create_object windows;
  select_voice := select_voice windows;
  voices_count := n;
  stream_open := stream_open windows;
  sapi_render := sapi_render windows;
  stream_close := stream_close windows;
  mkstemp := mkstemp windows;
  open_for_write := open_for_write windows;
  write_frames := write_frames windows;
  query_devices := query_devices windows;
  sd_default_device := sd_default_device windows;
  sd_play := sd_play windows;
  monitor_finishes_first := monitor_finishes_first windows
|}.

(** A machine on which [comtypes] did not import. *)
Definition without_comtypes : platform := {|
  sys_platform := "linux";
  _IMPORT_ERROR := Some (Exn ImportError "No module named 'comtypes'");
  _SPEECHLIB_ERROR := None;
  co_initialize := co_initialize windows;
  create_object := create_object windows;
  select_voice := select_voice windows;
  voices_count := 0;
  stream_open := stream_open windows;
  sapi_render := sapi_render windows;
  stream_close := stream_close windows;
  mkstemp := mkstemp windows;
  open_for_write := open_for_write windows;
  write_frames := write_frames windows;
  query_devices := query_devices windows;
  sd_default_device := sd_default_device windows;
  sd_play := sd_play windows;
  monitor_finishes_first := monitor_finishes_first windows
|}.

(** Two installed voices; the second has no language attribute. *)
Definition tokens (i : Z) : result token :=
  if (i =? 0)%Z then
    Ok (Token (Ok "Microsoft David Desktop - English (United States)")
              (fun _ => Ok (Some "409"))
              (Ok "HKEY_LOCAL_MACHINE\SOFTWARE\Microsoft\Speech\Voices\Tokens\TTS_MS_EN-US_DAVID_11.0"))
  else if (i =? 1)%Z then
    Ok (Token (Ok "Microsoft Zira Desktop - English (United States)")
              (fun _ => Ok None)
              (Ok "HKEY_LOCAL_MACHINE\SOFTWARE\Microsoft\Speech\Voices\Tokens\TTS_MS_EN-US_ZIRA_11.0"))
  else Raise (Exn COMError "Item index out of range").

(** A machine whose type library has not been generated yet: the first
    import fails, [GetModule] succeeds on the library in System32. *)
Definition fresh_runtime : runtime := {|
  environ_SystemRoot := None;
  os_path_join := fun a parts => foldl (fun acc part => acc +:+ "\" +:+ part) a parts;
  GetModule := fun _ files => (files, None);
  import_SpeechLib := fun called =>
    match called with
    | [] => Some (Exn ImportError "cannot import name 'SpeechLib' from 'comtypes.gen'")
    | _ :: _ => None
    end
|}.

(** The same, with no [sapi.dll] to be loaded. *)
Definition broken_runtime : runtime := {|
  environ_SystemRoot := environ_SystemRoot fresh_runtime;
  os_path_join := os_path_join fresh_runtime;
  GetModule := fun _ files => (files, Some (Exn COMError "Error loading type library/DLL"));
  import_SpeechLib := import_SpeechLib fresh_runtime
|}.

(** A disk that holds the library in System32. *)
Definition installed : world :=
  World {[ "C:\Windows\System32\Speech\Common\sapi.dll" := OtherFile ]} ∅ [].

(** Nothing loaded, no error recorded. *)
Definition unloaded : globals := Globals None None.

End Demo.

(** * Properties *)

Import Sapi Service.

(** ** Strings *)

Example strip_ex1 : strip "  hi there " = "hi there".
Proof. reflexivity. Qed.

Example lower_ex1 : lower "CABLE Input (VB-Audio)" = "cable input (vb-audio)".
Proof. reflexivity. Qed.

Example contains_ex1 : contains "vb-audio" "cable input (vb-audio)" = true.
Proof. reflexivity. Qed.

Example str_of_int_ex1 :
  str_of_int 12 = "12" /\ str_of_int (-3) = "-3" /\ str_of_int 0 = "0".
Proof. repeat split; vm_compute; reflexivity. Qed.

Example join_ex1 : join "; " ["a"; "b"; "c"] = "a; b; c".
Proof. reflexivity. Qed.

Lemma lstrip_whitespace_only (s : string) :
  whitespace_only s = true -> lstrip s = "".
Proof.
  induction s as [|c s IH]; simpl; [reflexivity|].
  intros H. apply andb_prop in H as [Hc Hs]. rewrite Hc. auto.
Qed.

Lemma strip_whitespace_only (s : string) :
  whitespace_only s = true -> strip (str_or s "") = "".
Proof.
  intros H. unfold str_or.
  assert (E : (if truthy s then s else "") = s) by (destruct s; reflexivity).
  rewrite E. unfold strip. rewrite lstrip_whitespace_only by exact H.
  reflexivity.
Qed.

(** ** Empty text *)

(** C1. For every text that is empty or consists of whitespace only,
    [synth_pcm16] returns the empty buffer with the sample rate 16000 and
    leaves the world as it was: no file, no COM call, no event; and
    [export_wav] raises its no-audio error, again in an unchanged world, so
    no file is written. *)
Theorem empty_text_yields_no_audio (P : platform) (t : tid) (text path : string)
    (rate volume : Z) (voice_token_id : option string) (w : world) :
  whitespace_only text = true ->
  synth_pcm16 P t text rate volume voice_token_id w = (Ok ([], 16000), w) /\
  export_wav P t text path rate volume voice_token_id w =
    (Raise (Exn RuntimeError "No audio was generated for the provided text."), w).
Proof.
  intros H.
  assert (S : synth_pcm16 P t text rate volume voice_token_id w = (Ok ([], 16000), w)).
  { unfold synth_pcm16. rewrite strip_whitespace_only by exact H. reflexivity. }
  split; [exact S|].
  unfold export_wav, mbind, M_bind, bind. rewrite S. reflexivity.
Qed.

Lemma empty_text_yields_no_audio_witness :
  whitespace_only "   " = true /\
  synth_pcm16 Demo.windows 0%nat "   " 0 100 None Demo.boot = (Ok ([], 16000), Demo.boot) /\
  export_wav Demo.windows 0%nat "   " "out.wav" 0 100 None Demo.boot =
    (Raise (Exn RuntimeError "No audio was generated for the provided text."), Demo.boot).
Proof.
  split; [reflexivity|].
  apply (empty_text_yields_no_audio Demo.windows 0%nat "   " "out.wav" 0 100 None Demo.boot).
  reflexivity.
Defined.

Example synth_pcm16_empty_string :
  synth_pcm16 Demo.windows 0%nat "" 0 100 None Demo.boot = (Ok ([], 16000), Demo.boot).
Proof. reflexivity. Qed.

(** ** Rate and volume *)

(** C5. For every integer, [set_rate] stores the value clamped to
    [-10, 10] and [set_volume] the value clamped to [0, 100]: the bound
    that an out-of-range value passes, the value itself otherwise
    ([set_rate 999] stores 10, [set_volume (-5)] stores 0).  [_clamp], used
    with the same bounds before the engine is set up, computes the same
    values. *)
Theorem setters_store_clamped_value (value : Z) (self : TalkAsMicService) :
  rate (set_rate value self) =
    (if value <? -10 then -10 else if 10 <? value then 10 else value)%Z /\
  volume (set_volume value self) =
    (if value <? 0 then 0 else if 100 <? value then 100 else value)%Z /\
  rate (set_rate 999 self) = 10 /\
  volume (set_volume (-5) self) = 0 /\
  _clamp value (-10) 10 = rate (set_rate value self) /\
  _clamp value 0 100 = volume (set_volume value self).
Proof.
  unfold set_rate, set_volume, _clamp; simpl.
  repeat split; try reflexivity.
  - destruct (Z.ltb_spec value (-10)); [lia|].
    destruct (Z.ltb_spec 10 value); lia.
  - destruct (Z.ltb_spec value 0); [lia|].
    destruct (Z.ltb_spec 100 value); lia.
Qed.

Lemma setters_keep_other_fields (value : Z) (self : TalkAsMicService) :
  volume (set_rate value self) = volume self /\
  rate (set_volume value self) = rate self /\
  device_vb (set_rate value self) = device_vb self /\
  device_vb (set_volume value self) = device_vb self /\
  device_monitor (set_rate value self) = device_monitor self /\
  device_monitor (set_volume value self) = device_monitor self.
Proof. repeat split. Qed.

(** ** Relations kept by the building blocks *)

Section Keeps.
Context (R : world -> world -> Prop) `{!PreOrder R}.

Lemma keeps_ret {A} (a : A) : keeps R (ret a).
Proof. intros w. simpl. reflexivity. Qed.

Lemma keeps_raise {A} (e : exn) : keeps R (@raise A e).
Proof. intros w. simpl. reflexivity. Qed.

Lemma keeps_lift_result {A} (r : result A) : keeps R (lift_result r).
Proof. intros w. simpl. reflexivity. Qed.

Lemma keeps_may_raise (o : option exn) : keeps R (may_raise o).
Proof. destruct o; [apply keeps_raise | apply keeps_ret]. Qed.

Lemma keeps_bind {A B} (m : M A) (k : A -> M B) :
  keeps R m -> (forall a, keeps R (k a)) -> keeps R (bind m k).
Proof.
  intros Hm Hk w. unfold bind. specialize (Hm w).
  destruct (m w) as [[a|e] w1]; simpl in *; [|exact Hm].
  etransitivity; [exact Hm | apply Hk].
Qed.

Lemma keeps_mbind {A B} (m : M A) (k : A -> M B) :
  keeps R m -> (forall a, keeps R (k a)) -> keeps R (m ≫= k).
Proof. apply keeps_bind. Qed.

Lemma keeps_try_finally {A} (body : M A) (fin : M unit) :
  keeps R body -> keeps R fin -> keeps R (try_finally body fin).
Proof.
  intros Hb Hf w. unfold try_finally. specialize (Hb w).
  destruct (body w) as [r w1]; simpl in *. specialize (Hf w1).
  destruct (fin w1) as [[[]|e] w2]; simpl in *; etransitivity; eauto.
Qed.

Lemma keeps_try_except_pass (body : M unit) (cls : exn_class -> bool) :
  keeps R body -> keeps R (try_except_pass body cls).
Proof.
  intros Hb w. unfold try_except_pass. specialize (Hb w).
  destruct (body w) as [[[]|e] w1]; simpl in *; [exact Hb|].
  destruct (cls (exn_cls e)); exact Hb.
Qed.

Lemma keeps_try_except_raise {A} (body : M A) (e' : exn) :
  keeps R body -> keeps R (try_except_raise body e').
Proof.
  intros Hb w. unfold try_except_raise. specialize (Hb w).
  destruct (body w) as [[a|e] w1]; simpl in *; exact Hb.
Qed.

Lemma keeps_get_count (t : tid) : keeps R (get_count t).
Proof. intros w. simpl. reflexivity. Qed.

End Keeps.

Ltac preorder := try match goal with |- PreOrder _ => apply _ end.

(** ** Synthesis does no device I/O *)

Global Instance same_playbacks_preorder : PreOrder same_playbacks.
Proof.
  split.
  - intros w. reflexivity.
  - intros w1 w2 w3 H12 H23. unfold same_playbacks in *. congruence.
Qed.

Lemma same_playbacks_snoc (w w' : world) (e : event) :
  trace w' = (trace w ++ [e])%list -> is_playback e = false -> same_playbacks w w'.
Proof.
  intros Ht He. unfold same_playbacks, playbacks. rewrite Ht, List.filter_app.
  simpl. rewrite He. apply app_nil_r.
Qed.

Create HintDb quiet discriminated.

Lemma quiet_emit (e : event) : is_playback e = false -> keeps same_playbacks (emit e).
Proof. intros He w. simpl. eapply same_playbacks_snoc; eauto. Qed.

Lemma quiet_set_count (t : tid) (v : Z) : keeps same_playbacks (set_count t v).
Proof. intros w. reflexivity. Qed.

Lemma quiet_put_file (path : string) (f : file) : keeps same_playbacks (put_file path f).
Proof. intros w. reflexivity. Qed.

Lemma quiet_alter_file (change : file -> file) (path : string) :
  keeps same_playbacks (alter_file change path).
Proof. intros w. reflexivity. Qed.

Lemma quiet_os_remove (P : platform) (path : string) :
  keeps same_playbacks (os_remove P path).
Proof.
  intros w. unfold os_remove. destruct (fs w !! path) as [f|]; simpl; [|reflexivity].
  destruct (held f && win32 P); simpl; [reflexivity|].
  eapply same_playbacks_snoc; eauto.
Qed.

Section Quiet.
Context (P : platform).

Lemma quiet_mkstemp_wav : keeps same_playbacks (mkstemp_wav P).
Proof.
  intros w. unfold mkstemp_wav. destruct (mkstemp P (fs w)); simpl; [|reflexivity].
  eapply same_playbacks_snoc; eauto.
Qed.

Lemma quiet_Speak text rate volume voice path :
  keeps same_playbacks (Speak P text rate volume voice path).
Proof.
  intros w. unfold Speak.
  destruct (sapi_render P text rate volume voice path (fs w)) as [fs' [e|]]; simpl;
    eapply same_playbacks_snoc; eauto.
Qed.

Lemma quiet_wave_read path : keeps same_playbacks (wave_read P path).
Proof.
  intros w. unfold wave_read.
  destruct (fs w !! path) as [f|]; [destruct (held f && win32 P)|]; reflexivity.
Qed.

Ltac quiet :=
  repeat first
    [ apply keeps_mbind; preorder; [|intros ?]
    | apply keeps_bind; preorder; [|intros ?]
    | apply keeps_try_finally; preorder
    | apply keeps_try_except_pass; preorder
    | apply keeps_try_except_raise; preorder
    | apply keeps_ret; preorder
    | apply keeps_raise; preorder
    | apply keeps_may_raise; preorder
    | apply keeps_lift_result; preorder
    | apply keeps_get_count; preorder
    | apply quiet_emit; reflexivity
    | apply quiet_set_count
    | apply quiet_put_file
    | apply quiet_alter_file
    | apply quiet_os_remove
    | apply quiet_mkstemp_wav
    | apply quiet_Speak
    | apply quiet_wave_read
    | solve [auto with quiet]
    | match goal with
      | |- keeps _ (if ?b then _ else _) => destruct b
      | |- keeps _ (match ?x with _ => _ end) => destruct x
      end ].

Lemma quiet_ensure_windows : keeps same_playbacks (_ensure_windows P).
Proof. unfold _ensure_windows. quiet. Qed.

Lemma quiet_com_scope {A} t (body : M A) :
  keeps same_playbacks body -> keeps same_playbacks (_com_scope P t body).
Proof. intros Hb. unfold _com_scope. quiet. Qed.

Lemma quiet_CreateObject progid : keeps same_playbacks (CreateObject P progid).
Proof. unfold CreateObject. quiet. Qed.

Hint Resolve quiet_ensure_windows quiet_CreateObject : quiet.

Lemma quiet_create_voice voice : keeps same_playbacks (_create_voice P voice).
Proof. unfold _create_voice. quiet. Qed.

Lemma quiet_read_pcm path : keeps same_playbacks (read_pcm P path).
Proof. unfold read_pcm. quiet. Qed.

Lemma quiet_render text rate volume voice path :
  keeps same_playbacks (render P text rate volume voice path).
Proof. unfold render, stream_Open, stream_Close. quiet. Qed.

Hint Resolve quiet_create_voice quiet_read_pcm quiet_render : quiet.

Lemma quiet_synth_pcm16 t text rate volume voice :
  keeps same_playbacks (synth_pcm16 P t text rate volume voice).
Proof.
  unfold synth_pcm16, synth_try, synth_finally.
  quiet. apply quiet_com_scope. quiet.
Qed.

Lemma quiet_synthesize t self text :
  keeps same_playbacks (synthesize P t self text).
Proof.
  unfold synthesize. pose proof (quiet_synth_pcm16 t text (rate self) (volume self)
    (voice_token_id self)). quiet.
Qed.

End Quiet.

(** ** [speak] without a primary device *)

(** C2, as stated, fails: with no primary device selected [speak] first
    synthesizes, and an empty text is rejected there with the empty-audio
    error, not with the no-device error. *)
Lemma speak_unset_device_empty_text :
  device_vb Demo.unset = None /\
  (speak Demo.windows 0%nat Demo.unset "" Demo.boot).1 =
    Raise (Exn RuntimeError "Speech synthesis returned empty audio.") /\
  (speak Demo.windows 0%nat Demo.unset "" Demo.boot).1 <>
    Raise (Exn RuntimeError
      "No VB-CABLE or virtual microphone output device has been selected.").
Proof. split; [reflexivity|]. split; [reflexivity|]. vm_compute. discriminate. Qed.

(** C2, amended.  On a service whose primary device is unset, every call of
    [speak] fails and plays on no device.  It fails with the no-device
    error whenever synthesis succeeds with a non-empty buffer; when
    synthesis itself fails (an empty text, an engine failure), it fails
    with that error instead. *)
Theorem speak_without_primary_device (P : platform) (t : tid)
    (self : TalkAsMicService) (text : string) (w : world) :
  device_vb self = None ->
  (exists e, (speak P t self text w).1 = Raise e) /\
  playbacks (trace (speak P t self text w).2) = playbacks (trace w) /\
  (forall pcm samplerate w',
     synthesize P t self text w = (Ok (pcm, samplerate), w') ->
     speak P t self text w =
       (Raise (Exn RuntimeError
          "No VB-CABLE or virtual microphone output device has been selected."), w')) /\
  (forall e w',
     synthesize P t self text w = (Raise e, w') ->
     speak P t self text w = (Raise e, w')).
Proof.
  intros Hvb.
  pose proof (quiet_synthesize P t self text w) as Hq.
  unfold speak, mbind, M_bind, bind in *. rewrite Hvb.
  destruct (synthesize P t self text w) as [[[pcm sr]|e] w1]; simpl in *.
  - repeat split; eauto; try congruence. intros ? ? ? [= <- <- <-]. reflexivity.
  - repeat split; eauto; try congruence.
Qed.

Lemma speak_without_primary_device_witness :
  device_vb Demo.unset = None /\
  (speak Demo.windows 0%nat Demo.unset "hello" Demo.boot).1 =
    Raise (Exn RuntimeError
      "No VB-CABLE or virtual microphone output device has been selected.") /\
  playbacks (trace (speak Demo.windows 0%nat Demo.unset "hello" Demo.boot).2) = [].
Proof.
  split; [reflexivity|].
  destruct (speak_without_primary_device Demo.windows 0%nat Demo.unset "hello"
              Demo.boot eq_refl) as (_ & Hio & Hok & _).
  split; [|exact Hio].
  erewrite Hok; [reflexivity|]. vm_compute. reflexivity.
Defined.

(** ** [speak] with a primary and a monitor device *)

(** C3. With both devices configured and a synthesized buffer at hand,
    [speak] plays on both devices whatever the outcome of either: no
    failure is raised before both playbacks have finished.  It then
    succeeds when both succeeded, and otherwise raises one [RuntimeError]
    whose message lists [#index: message] for each device that failed and
    for no other, in the order in which the playbacks finished; a primary
    that succeeds with a monitor that fails yields the error naming the
    monitor alone. *)
Theorem speak_reports_each_failed_device (P : platform) (t : tid)
    (self : TalkAsMicService) (text : string) (vb mon : Z)
    (pcm : list Q) (samplerate : Z) (w w1 : world) :
  device_vb self = Some vb ->
  device_monitor self = Some mon ->
  synthesize P t self text w = (Ok (pcm, samplerate), w1) ->
  let line idx e := "#" +:+ str_of_int idx +:+ ": " +:+ exn_msg e in
  let failed msg := Raise (Exn RuntimeError ("Failed to play audio on device(s): " +:+ msg)) in
  let w2 := World (fs w1) (com_count w1)
              (trace w1 ++ if monitor_finishes_first P
                           then [EvPlayback mon samplerate; EvPlayback vb samplerate]
                           else [EvPlayback vb samplerate; EvPlayback mon samplerate]) in
  speak P t self text w =
    (match sd_play P samplerate vb pcm, sd_play P samplerate mon pcm with
     | None, None => Ok tt
     | Some e1, None => failed (line vb e1)
     | None, Some e2 => failed (line mon e2)
     | Some e1, Some e2 =>
         if monitor_finishes_first P
         then failed (line mon e2 +:+ "; " +:+ line vb e1)
         else failed (line vb e1 +:+ "; " +:+ line mon e2)
     end, w2).
Proof.
  intros Hvb Hmon Hsyn. simpl.
  unfold speak, mbind, M_bind, bind. rewrite Hsyn, Hvb, Hmon.
  unfold run_threads, runner, mbind, M_bind, mret, M_ret, bind, ret, emit. simpl.
  destruct (monitor_finishes_first P); simpl; rewrite <- !app_assoc; simpl;
    destruct (sd_play P samplerate vb pcm), (sd_play P samplerate mon pcm);
    reflexivity.
Qed.

Lemma speak_reports_each_failed_device_witness :
  device_vb Demo.monitored = Some 2 /\
  device_monitor Demo.monitored = Some 7 /\
  (speak Demo.windows 0%nat Demo.monitored "hello" Demo.boot).1 =
    Raise (Exn RuntimeError "Failed to play audio on device(s): #7: Invalid device") /\
  playbacks (trace (speak Demo.windows 0%nat Demo.monitored "hello" Demo.boot).2) =
    [EvPlayback 2 16000; EvPlayback 7 16000].
Proof.
  split; [reflexivity|]. split; [reflexivity|].
  rewrite (speak_reports_each_failed_device Demo.windows 0%nat Demo.monitored
             "hello" 2 7 Demo.hello_pcm 16000 Demo.boot
             (synthesize Demo.windows 0%nat Demo.monitored "hello" Demo.boot).2
             eq_refl eq_refl).
  - split; vm_compute; reflexivity.
  - vm_compute. reflexivity.
Defined.

(** ** Choosing the output device *)

Lemma first_match_app (keywords : list string) (pre post : list OutputDevice)
    (d : OutputDevice) :
  Forall (fun x => name_matches keywords x = false) pre ->
  name_matches keywords d = true ->
  first_match keywords (pre ++ d :: post) = Some (index d).
Proof.
  intros Hpre Hd. induction Hpre as [|x pre Hx _ IH]; simpl.
  - rewrite Hd. reflexivity.
  - rewrite Hx. exact IH.
Qed.

Lemma first_match_none (keywords : list string) (devices : list OutputDevice) :
  Forall (fun x => name_matches keywords x = false) devices ->
  first_match keywords devices = None.
Proof.
  induction 1 as [|x l Hx _ IH]; simpl; [reflexivity|]. rewrite Hx. exact IH.
Qed.

(** Only devices with output channels are listed, each under its position
    in the device table. *)
Example list_output_devices_windows :
  list_output_devices Demo.windows =
    [ {| index := 0; name := "Speakers (Realtek Audio)" |};
      {| index := 2; name := "CABLE Input (VB-Audio Virtual Cable)" |} ].
Proof. reflexivity. Qed.

(** The comparison ignores case, in the name and in the keyword. *)
Example name_matches_ignores_case :
  name_matches PREFERRED_VB_KEYWORDS {| index := 4; name := "cable INPUT 16ch" |} = true /\
  name_matches ["vb-AUDIO"] {| index := 4; name := "Line (VB-Audio Point)" |} = true /\
  name_matches PREFERRED_VB_KEYWORDS {| index := 0; name := "Speakers (Realtek Audio)" |} = false.
Proof. repeat split. Qed.

(** With no matching name the fallback is guarded by
    [isinstance(default, (list, tuple)) and len(default) == 2].  The value
    of [sd.default.device] is a pair object of a class of [sounddevice],
    neither a list nor a tuple: the guard fails and no device is returned,
    whatever the default output device is. *)
Lemma auto_pick_never_falls_back (P : platform) (keywords : list string)
    (input output : option Z) :
  sd_default_device P = DefaultObject input output ->
  Forall (fun x => name_matches keywords x = false) (list_output_devices P) ->
  default_output (sd_default_device P) = output /\
  _auto_pick_output_device P keywords = None.
Proof.
  intros Hd Hnone. unfold _auto_pick_output_device.
  rewrite (first_match_none _ _ Hnone), Hd. split; reflexivity.
Qed.

(** C8: the fallback that the claim describes is never taken.  On a
    machine whose only output device is "Speakers (Realtek Audio)" and
    whose default output device is 3, [sd.default.device] being the pair
    object that [sounddevice] returns, no name matches a keyword and
    auto-selection returns no device, where the claim has it return 3; the
    service is constructed with no primary device. *)
Theorem auto_pick_ignores_default_output :
  let P := Demo.with_devices [DeviceInfo "Speakers (Realtek Audio)" (Some 2)]
                             (DefaultObject (Some 1) (Some 3)) in
  first_match PREFERRED_VB_KEYWORDS (list_output_devices P) = None /\
  default_output (sd_default_device P) = Some 3 /\
  _auto_pick_output_device P PREFERRED_VB_KEYWORDS = None /\
  device_vb (init P) = None.
Proof. repeat split. Qed.

(** ** The temporary file *)

Lemma held_content (f : file) : held (content f) = false.
Proof. induction f; simpl; auto. Qed.

Lemma try_finally_ok {A} (body : M A) (fin : M unit) (w : world) (a : A) :
  (try_finally body fin w).1 = Ok a -> (body w).1 = Ok a.
Proof.
  unfold try_finally. destruct (body w) as [r w1].
  destruct (fin w1) as [[[]|e] w2]; simpl; [auto|discriminate].
Qed.

Lemma bind_ok {A B} (m : M A) (k : A -> M B) (w w2 : world) (b : B) :
  (m ≫= k) w = (Ok b, w2) ->
  exists a w1, m w = (Ok a, w1) /\ k a w1 = (Ok b, w2).
Proof.
  unfold mbind, M_bind, bind. destruct (m w) as [[a|e] w1]; [eauto|discriminate].
Qed.

(** The [finally] of [synth_pcm16]: it removes the file, or finds it gone
    and does nothing.  A file that is still held open is not removed on
    Windows, and the [PermissionError] of [os.remove] is not caught. *)
Lemma synth_finally_spec (P : platform) (path : string) (w : world) :
  synth_finally P path w =
    match fs w !! path with
    | None => (Ok tt, w)
    | Some f =>
        if held f && win32 P then
          (Raise (Exn PermissionError
                    (os_error "WinError 32"
                       "The process cannot access the file because it is being used by another process"
                       path)), w)
        else (Ok tt, World (delete path (fs w)) (com_count w) (trace w ++ [EvRemove path]))
    end.
Proof.
  unfold synth_finally, try_except_pass, os_remove.
  destruct (fs w !! path) as [f|]; [|destruct (win32 P); reflexivity].
  destruct (held f && win32 P); reflexivity.
Qed.

(** A call of [synth_pcm16] with a text that is not empty after stripping
    creates a temporary file [p] and runs the [try] body on it.  If the
    body does not leave [p] held open, then however the body ends the call
    ends the same way, and afterwards [p] does not exist: if the body
    leaves [p] in place it is removed and no other file is touched; if [p]
    is already gone the cleanup changes nothing and raises nothing. *)
Lemma temp_file_removed_unless_held (P : platform) (t : tid) (text : string)
    (rate volume : Z) (voice_token_id : option string) (w : world) (p : string) :
  truthy (strip (str_or text "")) = true ->
  mkstemp P (fs w) = Ok p ->
  let created := World (<[p := EmptyFile]> (fs w)) (com_count w)
                       (trace w ++ [EvMkstemp p]) in
  let body := synth_try P t (strip (str_or text "")) rate volume voice_token_id p created in
  let call := synth_pcm16 P t text rate volume voice_token_id w in
  (forall f, fs body.2 !! p = Some f -> held f && win32 P = false) ->
  call.1 = body.1 /\
  fs call.2 !! p = None /\
  (forall q, q <> p -> fs call.2 !! q = fs body.2 !! q) /\
  (fs body.2 !! p = None -> call.2 = body.2).
Proof.
  intros Htext Hmk. simpl.
  unfold synth_pcm16. rewrite Htext. simpl.
  unfold mbind, M_bind, bind, mkstemp_wav. rewrite Hmk.
  unfold try_finally.
  destruct (synth_try _ _ _ _ _ _ _ _) as [r w1]. rewrite synth_finally_spec. simpl.
  intros Hfree.
  destruct (fs w1 !! p) as [f|] eqn:E; simpl.
  - rewrite (Hfree f eq_refl). simpl. repeat split; try congruence.
    + apply lookup_delete_eq.
    + intros q Hq. apply lookup_delete_ne. congruence.
  - repeat split; congruence.
Qed.

(** If the body leaves [p] held open, the call ends with the
    [PermissionError] of [os.remove], whatever the body returned or raised,
    and [p] is still there. *)
Lemma temp_file_kept_when_held (P : platform) (t : tid) (text : string)
    (rate volume : Z) (voice_token_id : option string) (w : world) (p : string)
    (f : file) :
  truthy (strip (str_or text "")) = true ->
  mkstemp P (fs w) = Ok p ->
  let created := World (<[p := EmptyFile]> (fs w)) (com_count w)
                       (trace w ++ [EvMkstemp p]) in
  let body := synth_try P t (strip (str_or text "")) rate volume voice_token_id p created in
  let call := synth_pcm16 P t text rate volume voice_token_id w in
  fs body.2 !! p = Some f ->
  held f && win32 P = true ->
  call =
    (Raise (Exn PermissionError
              (os_error "WinError 32"
                 "The process cannot access the file because it is being used by another process"
                 p)), body.2).
Proof.
  intros Htext Hmk. simpl.
  unfold synth_pcm16. rewrite Htext. simpl.
  unfold mbind, M_bind, bind, mkstemp_wav. rewrite Hmk.
  unfold try_finally.
  destruct (synth_try _ _ _ _ _ _ _ _) as [r w1]. rewrite synth_finally_spec. simpl.
  intros -> ->. reflexivity.
Qed.

(** [stream.Open] .. [stream.Close]: when [stream.Close()] has returned the
    file is not held; when [voice.Speak] raises, the stream has not been
    closed and the file, if the engine has left one, is held. *)
Lemma render_released (P : platform) (text : string) (rate volume : Z)
    (voice : option string) (p : string) (w : world) :
  (render P text rate volume voice p w).1 = Ok tt ->
  forall f, fs (render P text rate volume voice p w).2 !! p = Some f -> held f = false.
Proof.
  unfold render, stream_Open, Speak, stream_Close, alter_file, put_file,
    mbind, M_bind, bind.
  destruct (stream_open P p); simpl; [discriminate|].
  destruct (sapi_render _ _ _ _ _ _ _) as [fs' [e|]]; simpl; [discriminate|].
  destruct (stream_close P p); simpl; [discriminate|].
  intros _ f. rewrite !lookup_alter_eq.
  destruct (fs' !! p) as [g|]; simpl; [|discriminate].
  intros [= <-]. apply held_content.
Qed.

Lemma render_speak_raises (P : platform) (text : string) (rate volume : Z)
    (voice : option string) (p : string) (w : world)
    (fs' : gmap string file) (e : exn) :
  stream_open P p = None ->
  sapi_render P text rate volume voice p (<[p := InUse EmptyFile]> (fs w)) = (fs', Some e) ->
  (render P text rate volume voice p w).1 = Raise e /\
  fs (render P text rate volume voice p w).2 !! p =
    (fun f => InUse (content f)) <$> fs' !! p.
Proof.
  intros Ho Hs.
  unfold render, stream_Open, Speak, put_file, mbind, M_bind, bind.
  rewrite Ho. simpl. rewrite Hs. simpl. split; [reflexivity|].
  apply lookup_alter_eq.
Qed.

(** A scope that returns has run its body to the end, and leaves the files
    as the body left them. *)
Lemma com_scope_ok (P : platform) (t : tid) {A} (body : M A) (w : world) (a : A) :
  (_com_scope P t body w).1 = Ok a ->
  exists w0, (body w0).1 = Ok a /\ fs (_com_scope P t body w).2 = fs (body w0).2.
Proof.
  unfold _com_scope. destruct (bool_decide _); [discriminate|].
  unfold mbind, M_bind, bind, get_count, set_count, try_finally, emit. simpl.
  destruct (0 <? _)%Z; simpl.
  - match goal with |- context [body ?w0] => exists w0; destruct (body w0) as [r w1] end.
    simpl in *. split; [assumption|reflexivity].
  - destruct (co_initialize P t); simpl; [discriminate|].
    match goal with |- context [body ?w0] => exists w0; destruct (body w0) as [r w1] end.
    simpl in *. split; [assumption|reflexivity].
Qed.

Lemma read_pcm_world (P : platform) (path : string) (w : world) :
  (read_pcm P path w).2 = w.
Proof.
  unfold read_pcm, wave_read, mbind, M_bind, bind.
  destruct (fs w !! path) as [f|]; [|reflexivity].
  destruct (held f && win32 P); [reflexivity|].
  destruct (wave_parse f) as [[frames sr]|e]; [|reflexivity].
  destruct (frombuffer_int16 frames); reflexivity.
Qed.

(** When the COM scope of [synth_pcm16] returns, the stream has been closed
    and the temporary file is not held. *)
Lemma synth_scope_released (P : platform) (t : tid) (text : string) (rate volume : Z)
    (voice : option string) (p : string) (w : world) :
  let scope :=
    _com_scope P t
      (_create_voice P voice;;
       (if (voices_count P =? 0)%Z then
          raise (Exn RuntimeError
            "Windows SAPI does not have any voices installed. Install a voice pack from Windows settings.")
        else ret tt);;
       emit (EvSetRate (_clamp rate (-10) 10));;
       emit (EvSetVolume (_clamp volume 0 100));;
       CreateObject P "SAPI.SpFileStream";;
       CreateObject P "SAPI.SpAudioFormat";;
       render P text (_clamp rate (-10) 10) (_clamp volume 0 100) voice p) in
  (scope w).1 = Ok tt ->
  forall f, fs (scope w).2 !! p = Some f -> held f = false.
Proof.
  cbv zeta. intros Hok f.
  destruct (com_scope_ok _ _ _ _ _ Hok) as (w0 & Hb & ->).
  match goal with |- context [fs (?body w0).2] => destruct (body w0) as [r w1] eqn:E end.
  simpl in Hb. subst r.
  do 6 (apply bind_ok in E as (? & ? & _ & E)).
  pose proof (render_released P text (_clamp rate (-10) 10) (_clamp volume 0 100)
                voice p) as R.
  match type of E with render _ _ _ _ _ _ ?w' = _ => specialize (R w') end.
  rewrite E in R. exact (R eq_refl f).
Qed.

(** The success path and the read-back failure path of [synth_pcm16]: once
    the COM scope has returned, the call ends as the body of the [try] ends,
    with the samples or with the exception of the reading, and the
    temporary file is gone. *)
Lemma temp_file_removed_after_rendering (P : platform) (t : tid) (text : string)
    (rate volume : Z) (voice_token_id : option string) (w : world) (p : string) :
  truthy (strip (str_or text "")) = true ->
  mkstemp P (fs w) = Ok p ->
  let created := World (<[p := EmptyFile]> (fs w)) (com_count w)
                       (trace w ++ [EvMkstemp p]) in
  let scope :=
    _com_scope P t
      (_create_voice P voice_token_id;;
       (if (voices_count P =? 0)%Z then
          raise (Exn RuntimeError
            "Windows SAPI does not have any voices installed. Install a voice pack from Windows settings.")
        else ret tt);;
       emit (EvSetRate (_clamp rate (-10) 10));;
       emit (EvSetVolume (_clamp volume 0 100));;
       CreateObject P "SAPI.SpFileStream";;
       CreateObject P "SAPI.SpAudioFormat";;
       render P (strip (str_or text "")) (_clamp rate (-10) 10) (_clamp volume 0 100)
         voice_token_id p) in
  let body := synth_try P t (strip (str_or text "")) rate volume voice_token_id p created in
  let call := synth_pcm16 P t text rate volume voice_token_id w in
  (scope created).1 = Ok tt ->
  body.1 = (read_pcm P p (scope created).2).1 /\
  call.1 = body.1 /\
  fs call.2 !! p = None.
Proof.
  intros Htext Hmk. cbv zeta. intros Hscope.
  set (created := World _ _ _) in *.
  pose proof (synth_scope_released P t (strip (str_or text "")) rate volume
                voice_token_id p created Hscope) as Hrel.
  assert (Hbody : synth_try P t (strip (str_or text "")) rate volume voice_token_id p created
                  = read_pcm P p (_com_scope P t
      (_create_voice P voice_token_id;;
       (if (voices_count P =? 0)%Z then
          raise (Exn RuntimeError
            "Windows SAPI does not have any voices installed. Install a voice pack from Windows settings.")
        else ret tt);;
       emit (EvSetRate (_clamp rate (-10) 10));;
       emit (EvSetVolume (_clamp volume 0 100));;
       CreateObject P "SAPI.SpFileStream";;
       CreateObject P "SAPI.SpAudioFormat";;
       render P (strip (str_or text "")) (_clamp rate (-10) 10) (_clamp volume 0 100)
         voice_token_id p) created).2).
  { unfold synth_try, mbind, M_bind, bind.
    destruct (_com_scope P t _ created) as [[[]|e] w1]; [reflexivity|discriminate]. }
  split; [rewrite Hbody; reflexivity|].
  destruct (temp_file_removed_unless_held P t text rate volume voice_token_id w p
              Htext Hmk) as (H1 & H2 & _); [|split; assumption].
  fold created. rewrite Hbody, read_pcm_world.
  intros f Hf. rewrite (Hrel f Hf). reflexivity.
Qed.

(** C6: the temporary file is not deleted on the engine-failure path.  On
    Windows, with an engine whose [voice.Speak] raises, [stream.Close()] is
    skipped and the stream still holds the temporary file when the
    [finally] runs: [os.remove] is refused with a [PermissionError], which
    the handler for [FileNotFoundError] does not catch.  The file stays on
    disk, nothing is removed, and the call ends with the [PermissionError]
    in place of the error of the engine. *)
Theorem temp_file_survives_engine_failure :
  let P := Demo.with_engine (fun path files =>
             (files, Some (Exn COMError "Speak failed"))) in
  let call := synth_pcm16 P 0%nat "hello" 0 100 None Demo.boot in
  call.1 = Raise (Exn PermissionError
    "[WinError 32] The process cannot access the file because it is being used by another process: 'tmp0.wav'") /\
  fs call.2 !! "tmp0.wav" = Some (InUse EmptyFile) /\
  In (EvSpeak "hello" "tmp0.wav") (trace call.2) /\
  ~ In (EvRemove "tmp0.wav") (trace call.2).
Proof.
  split; [vm_compute; reflexivity|]. split; [vm_compute; reflexivity|].
  split; vm_compute; intuition discriminate.
Qed.

(** The other ways out on concrete engines: samples; a file left empty; a
    file that is no WAV file; a file that the engine has removed. *)
Example synth_pcm16_succeeds :
  let call := synth_pcm16 Demo.windows 0%nat "hello" 0 100 None Demo.boot in
  call.1 = Ok ([16384 # 32768; -32768 # 32768; 1 # 32768]%Q, 16000) /\
  fs call.2 = ∅.
Proof. split; vm_compute; reflexivity. Qed.

Example synth_pcm16_read_back_fails :
  let P := Demo.with_engine (fun path files => (files, None)) in
  let call := synth_pcm16 P 0%nat "hello" 0 100 None Demo.boot in
  call.1 = Raise (Exn EOFError "") /\
  fs call.2 = ∅ /\
  last (trace call.2) = Some (EvRemove "tmp0.wav").
Proof. repeat split; vm_compute; reflexivity. Qed.

Example synth_pcm16_reads_no_wav :
  let P := Demo.with_engine (fun path files => (<[path := OtherFile]> files, None)) in
  let call := synth_pcm16 P 0%nat "hello" 0 100 None Demo.boot in
  call.1 = Raise (Exn WaveError "file does not start with RIFF id") /\
  fs call.2 = ∅ /\
  last (trace call.2) = Some (EvRemove "tmp0.wav").
Proof. repeat split; vm_compute; reflexivity. Qed.

Example synth_pcm16_file_already_gone :
  let P := Demo.with_engine (fun path files => (delete path files, None)) in
  let call := synth_pcm16 P 0%nat "hello" 0 100 None Demo.boot in
  call.1 = Raise (Exn FileNotFoundError
                    "[Errno 2] No such file or directory: 'tmp0.wav'") /\
  fs call.2 = ∅ /\
  last (trace call.2) = Some (EvCoUninitialize 0%nat).
Proof. repeat split; vm_compute; reflexivity. Qed.

(** ** The COM scope *)

Lemma com_calls_app (t : tid) (tr tr' : list event) :
  com_calls t (tr ++ tr') = (com_calls t tr ++ com_calls t tr')%list.
Proof.
  induction tr as [|e tr IH]; simpl; [reflexivity|].
  destruct e; simpl; try exact IH; case_bool_decide; simpl; congruence.
Qed.

Global Instance com_neutral_preorder (t : tid) : PreOrder (com_neutral t).
Proof.
  split.
  - intros w _. split; reflexivity.
  - intros w1 w2 w3 H12 H23 Hpos. destruct (H12 Hpos) as [Hc Ht].
    assert (Hpos2 : 0 < count_of t w2) by (unfold count_of in *; rewrite Hc; exact Hpos).
    destruct (H23 Hpos2) as [Hc' Ht']. split; congruence.
Qed.

(** Code that only appends events other than COM (un)initializations of
    the thread, and leaves the counts alone, is neutral. *)
Lemma com_neutral_events (t : tid) (w w' : world) (evs : list event) :
  com_count w' = com_count w ->
  trace w' = (trace w ++ evs)%list ->
  com_calls t evs = [] ->
  com_neutral t w w'.
Proof.
  intros Hc Ht He _. rewrite Hc, Ht, com_calls_app, He, app_nil_r. split; reflexivity.
Qed.

Lemma neutral_emit (t : tid) (e : event) :
  com_calls t [e] = [] -> keeps (com_neutral t) (emit e).
Proof. intros He w. simpl. eapply com_neutral_events; eauto. Qed.

Section Neutral.
Context (P : platform) (t : tid).

Lemma neutral_put_file path f : keeps (com_neutral t) (put_file path f).
Proof.
  intros w. simpl. apply (com_neutral_events t _ _ []); simpl; auto using app_nil_r.
Qed.

Lemma neutral_alter_file change path : keeps (com_neutral t) (alter_file change path).
Proof.
  intros w. simpl. apply (com_neutral_events t _ _ []); simpl; auto using app_nil_r.
Qed.

Lemma neutral_Speak text rate volume voice path :
  keeps (com_neutral t) (Speak P text rate volume voice path).
Proof.
  intros w. unfold Speak.
  destruct (sapi_render P text rate volume voice path (fs w)) as [fs' [e|]]; simpl;
    eapply com_neutral_events; eauto.
Qed.

Ltac neutral :=
  repeat first
    [ apply keeps_mbind; preorder; [|intros ?]
    | apply keeps_try_except_raise; preorder
    | apply keeps_ret; preorder
    | apply keeps_raise; preorder
    | apply keeps_may_raise; preorder
    | apply neutral_emit; reflexivity
    | apply neutral_put_file
    | apply neutral_alter_file
    | apply neutral_Speak
    | match goal with
      | |- keeps _ (if ?b then _ else _) => destruct b
      | |- keeps _ (match ?x with _ => _ end) => destruct x
      end ].

Lemma neutral_CreateObject progid : keeps (com_neutral t) (CreateObject P progid).
Proof. unfold CreateObject. neutral. Qed.

Lemma neutral_create_voice voice : keeps (com_neutral t) (_create_voice P voice).
Proof. unfold _create_voice, _ensure_windows, CreateObject. neutral. Qed.

(** What [synth_pcm16] runs inside its COM scope is neutral. *)
Lemma neutral_synth_scope text rate volume voice path :
  keeps (com_neutral t)
    (_create_voice P voice;;
     (if (voices_count P =? 0)%Z then
        raise (Exn RuntimeError
          "Windows SAPI does not have any voices installed. Install a voice pack from Windows settings.")
      else ret tt);;
     emit (EvSetRate (_clamp rate (-10) 10));;
     emit (EvSetVolume (_clamp volume 0 100));;
     CreateObject P "SAPI.SpFileStream";;
     CreateObject P "SAPI.SpAudioFormat";;
     render P text (_clamp rate (-10) 10) (_clamp volume 0 100) voice path).
Proof.
  apply keeps_mbind; preorder; [apply neutral_create_voice|intros ?].
  unfold CreateObject, render, stream_Open, stream_Close. neutral.
Qed.

End Neutral.

(** C9. Thread [t] enters [_com_scope] around a body that is itself
    neutral (it touches the count and the COM runtime of [t] through
    nested scopes only).
    - Entered with the count at zero (or never set), the scope initializes
      COM once, runs the body with the count at 1, and on the way out,
      whether the body returned or raised, finds the count back at 1, sets
      it to 0 and uninitializes COM once: one initialization and one
      uninitialization are added for the thread, around everything the body
      did.
    - Entered with a positive count [c], the scope runs the body with the
      count at [c + 1] and on the way out, however the body ended, puts it
      back to [c]; it neither initializes nor uninitializes.
    - A scope is again neutral, so scopes nest to any depth.
    - If [CoInitialize] raises, nothing has changed.
    - The counts of other threads are those the body leaves. *)
Theorem com_scope_reference_counted (P : platform) (t : tid) {A} (body : M A)
    (w : world) :
  _IMPORT_ERROR P = None ->
  keeps (com_neutral t) body ->
  let c := count_of t w in
  let call := _com_scope P t body w in
  (c <= 0 -> co_initialize P t = None ->
     let inside := World (fs w) (<[t := 1]> (com_count w))
                         (trace w ++ [EvCoInitialize t]) in
     call.1 = (body inside).1 /\
     count_of t (body inside).2 = 1 /\
     count_of t call.2 = 0 /\
     trace call.2 = (trace (body inside).2 ++ [EvCoUninitialize t])%list /\
     com_calls t (trace call.2) = (com_calls t (trace w) ++ [true; false])%list /\
     (forall t', t' <> t -> com_count call.2 !! t' = com_count (body inside).2 !! t')) /\
  (0 < c ->
     let inside := World (fs w) (<[t := c + 1]> (com_count w)) (trace w) in
     call.1 = (body inside).1 /\
     count_of t (body inside).2 = c + 1 /\
     count_of t call.2 = c /\
     trace call.2 = trace (body inside).2 /\
     com_calls t (trace call.2) = com_calls t (trace w) /\
     (forall t', t' <> t -> com_count call.2 !! t' = com_count (body inside).2 !! t')) /\
  (c <= 0 -> forall e, co_initialize P t = Some e -> call = (Raise e, w)) /\
  keeps (com_neutral t) (_com_scope P t body).
Proof.
  intros Himp Hbody.
  assert (Nested : forall w0, 0 < count_of t w0 ->
    let inside := World (fs w0) (<[t := count_of t w0 + 1]> (com_count w0)) (trace w0) in
    let call := _com_scope P t body w0 in
    call.1 = (body inside).1 /\
    count_of t (body inside).2 = count_of t w0 + 1 /\
    count_of t call.2 = count_of t w0 /\
    trace call.2 = trace (body inside).2 /\
    com_calls t (trace call.2) = com_calls t (trace w0) /\
    (forall t', t' <> t -> com_count call.2 !! t' = com_count (body inside).2 !! t')).
  { intros w0 Hpos. simpl.
    unfold _com_scope. rewrite Himp. simpl.
    unfold mbind, M_bind, bind, get_count, set_count, try_finally. simpl.
    fold (count_of t w0). destruct (Z.ltb_spec 0 (count_of t w0)); [|lia]. simpl.
    set (inside := World (fs w0) (<[t:=count_of t w0 + 1]> (com_count w0)) (trace w0)).
    assert (Hin : 0 < count_of t inside).
    { unfold count_of, inside. simpl. rewrite lookup_insert_eq. simpl. lia. }
    destruct (Hbody inside Hin) as [Hc Ht].
    destruct (body inside) as [r w2]. simpl in *.
    assert (E : count_of t w2 = count_of t w0 + 1).
    { unfold count_of. rewrite Hc. unfold inside. simpl.
      rewrite lookup_insert_eq. reflexivity. }
    repeat split.
    - exact E.
    - change (default 0 (com_count w2 !! t)) with (count_of t w2). rewrite E.
      unfold count_of at 1. simpl. rewrite lookup_insert_eq. simpl. lia.
    - exact Ht.
    - intros t' Ht'. apply lookup_insert_ne. congruence. }
  simpl. split; [|split; [|split]].
  - intros Hc Hinit. unfold _com_scope. rewrite Himp, Hinit. simpl.
    unfold mbind, M_bind, bind, get_count, set_count, try_finally, emit. simpl.
    fold (count_of t w). destruct (Z.ltb_spec 0 (count_of t w)); [lia|]. simpl.
    set (inside := World (fs w) (<[t:=1]> (com_count w)) (trace w ++ [EvCoInitialize t])).
    assert (Hin : 0 < count_of t inside).
    { unfold count_of, inside. simpl. rewrite lookup_insert_eq. simpl. lia. }
    destruct (Hbody inside Hin) as [Hcnt Ht].
    destruct (body inside) as [r w2]. simpl in *.
    repeat split.
    + unfold count_of. rewrite Hcnt. unfold inside. simpl.
      rewrite lookup_insert_eq. reflexivity.
    + unfold count_of. simpl. rewrite lookup_insert_eq. reflexivity.
    + rewrite com_calls_app, Ht. unfold inside. simpl.
      rewrite com_calls_app. simpl. rewrite !bool_decide_eq_true_2 by reflexivity.
      rewrite <- app_assoc. reflexivity.
    + intros t' Ht'. apply lookup_insert_ne. congruence.
  - intros Hpos. exact (Nested w Hpos).
  - intros Hc e Hinit. unfold _com_scope. rewrite Himp, Hinit. simpl.
    unfold mbind, M_bind, bind, get_count. simpl.
    fold (count_of t w). destruct (Z.ltb_spec 0 (count_of t w)); [lia|]. reflexivity.
  - intros w0 Hpos. destruct (Nested w0 Hpos) as (_ & _ & Hc & _ & Ht & _).
    split; [|exact Ht].
    unfold count_of in Hc, Hpos.
    destruct (com_count (_com_scope P t body w0).2 !! t) eqn:E1,
             (com_count w0 !! t) eqn:E2; simpl in *; try congruence; lia.
Qed.

Lemma com_scope_reference_counted_witness :
  let body := _com_scope Demo.windows 0%nat (CreateObject Demo.windows "SAPI.SpVoice") in
  let call := _com_scope Demo.windows 0%nat body Demo.boot in
  _IMPORT_ERROR Demo.windows = None /\
  keeps (com_neutral 0%nat) body /\
  count_of 0%nat call.2 = 0 /\
  com_calls 0%nat (trace call.2) = [true; false].
Proof.
  intros body call.
  assert (Hb : keeps (com_neutral 0%nat) body).
  { apply (com_scope_reference_counted Demo.windows 0%nat
             (CreateObject Demo.windows "SAPI.SpVoice") Demo.boot eq_refl).
    apply neutral_CreateObject. }
  split; [reflexivity|]. split; [exact Hb|].
  destruct (com_scope_reference_counted Demo.windows 0%nat body Demo.boot eq_refl Hb)
    as (First & _).
  assert (Hc0 : count_of 0%nat Demo.boot <= 0) by (vm_compute; discriminate).
  destruct (First Hc0 eq_refl) as (_ & _ & Hc & _ & Hcalls & _).
  split; assumption.
Defined.

(** Three scopes deep, the innermost body raising: one initialization, one
    uninitialization, the count back at zero, the exception passed on. *)
Example com_scope_nested_raise :
  let P := Demo.windows in
  let call := _com_scope P 0%nat
                (_com_scope P 0%nat
                   (_com_scope P 0%nat
                      (CreateObject P "SAPI.SpVoice";; raise (Exn COMError "boom"))))
                Demo.boot in
  call.1 = @Raise unit (Exn COMError "boom") /\
  trace call.2 = [EvCoInitialize 0%nat; EvCreateObject "SAPI.SpVoice"; EvCoUninitialize 0%nat] /\
  count_of 0%nat call.2 = 0.
Proof. repeat split; vm_compute; reflexivity. Qed.

(** [synth_pcm16] entered from inside a scope of the same thread (count 1)
    does not touch the COM runtime and leaves the count at 1. *)
Example synth_pcm16_inside_scope :
  let w := World ∅ {[ 0%nat := 1 ]} [EvCoInitialize 0%nat] in
  let call := synth_pcm16 Demo.windows 0%nat "hello" 0 100 None w in
  com_calls 0%nat (trace call.2) = [true] /\ count_of 0%nat call.2 = 1.
Proof. split; vm_compute; reflexivity. Qed.

(** ** Rounding keeps the mantissa within the precision *)

Section Rounding.
Context (prec emax : Z) (Hprec : 0 < prec).

Lemma digits2_pos_bounds (p : positive) :
  2 ^ (Zpos (digits2_pos p) - 1) <= Zpos p < 2 ^ Zpos (digits2_pos p).
Proof.
  induction p as [p IH|p IH|]; simpl digits2_pos.
  - rewrite Pos2Z.inj_succ. replace (Z.succ (Zpos (digits2_pos p)) - 1)
      with (Z.succ (Zpos (digits2_pos p) - 1)) by lia.
    rewrite !Z.pow_succ_r by lia. lia.
  - rewrite Pos2Z.inj_succ. replace (Z.succ (Zpos (digits2_pos p)) - 1)
      with (Z.succ (Zpos (digits2_pos p) - 1)) by lia.
    rewrite !Z.pow_succ_r by lia. lia.
  - simpl. lia.
Qed.

Lemma shr_1_m (mrs : shr_record) :
  0 <= shr_m mrs -> shr_m (shr_1 mrs) = shr_m mrs / 2.
Proof.
  destruct mrs as [m r s]. simpl. intros Hm.
  destruct m as [|[p|p|]|p]; simpl; try reflexivity; try lia.
  - apply Z.div_unique with 1; lia.
  - apply Z.div_unique with 0; lia.
Qed.

Lemma iter_pos_shr_m (p : positive) (mrs : shr_record) :
  0 <= shr_m mrs ->
  shr_m (SpecFloat.iter_pos shr_1 p mrs) = shr_m mrs / 2 ^ Zpos p.
Proof.
  revert mrs. induction p as [p IH|p IH|]; intros mrs Hm; simpl SpecFloat.iter_pos.
  - assert (H1 : 0 <= shr_m (shr_1 mrs)) by (rewrite shr_1_m by lia; apply Z.div_pos; lia).
    assert (H2 : 0 <= shr_m (SpecFloat.iter_pos shr_1 p (shr_1 mrs)))
      by (rewrite IH by lia; apply Z.div_pos; lia).
    rewrite IH, IH, shr_1_m by lia.
    rewrite !Z.div_div by lia. f_equal.
    replace (Zpos p~1) with (Zpos p + Zpos p + 1) by lia.
    rewrite !Z.pow_add_r by lia. ring.
  - assert (H2 : 0 <= shr_m (SpecFloat.iter_pos shr_1 p mrs))
      by (rewrite IH by lia; apply Z.div_pos; lia).
    rewrite IH, IH by lia. rewrite Z.div_div by lia. f_equal.
    replace (Zpos p~0) with (Zpos p + Zpos p) by lia.
    rewrite Z.pow_add_r by lia. reflexivity.
  - rewrite shr_1_m by lia. reflexivity.
Qed.

Lemma Zdigits2_bounds (m : Z) : 0 < m -> m < 2 ^ Zdigits2 m.
Proof.
  destruct m as [|p|p]; try lia. intros _. simpl. apply digits2_pos_bounds.
Qed.

Lemma shr_record_of_loc_m (m : Z) (l : location) :
  shr_m (shr_record_of_loc m l) = m.
Proof. destruct l as [|[]]; reflexivity. Qed.

(** Shifting to the exponent of the format leaves a mantissa of at most
    [prec] bits. *)
Lemma shr_fexp_bounds (m e : Z) (l : location) :
  0 <= m -> 0 <= shr_m (shr_fexp prec emax m e l).1 < 2 ^ prec.
Proof.
  intros Hm. unfold shr_fexp, shr.
  assert (Hp : 0 < 2 ^ prec) by (apply Z.pow_pos_nonneg; lia).
  assert (Hf : Zdigits2 m + e - prec <= fexp prec emax (Zdigits2 m + e))
    by (unfold fexp; lia).
  destruct (Z.eq_dec m 0) as [->|Hne].
  - destruct (fexp prec emax (Zdigits2 0 + e) - e); simpl;
      rewrite ?iter_pos_shr_m, ?shr_record_of_loc_m by (rewrite ?shr_record_of_loc_m; lia);
      rewrite ?Z.div_0_l by (apply Z.pow_nonzero; lia); lia.
  - pose proof (Zdigits2_bounds m ltac:(lia)) as Hd.
    destruct (fexp prec emax (Zdigits2 m + e) - e) as [|p|p] eqn:En; simpl;
      rewrite ?iter_pos_shr_m, ?shr_record_of_loc_m by (rewrite ?shr_record_of_loc_m; lia).
    + split; [lia|]. eapply Z.lt_le_trans; [exact Hd|]. apply Z.pow_le_mono_r; lia.
    + assert (Hpp : 0 < 2 ^ Zpos p) by (apply Z.pow_pos_nonneg; lia).
      split; [apply Z.div_pos; lia|].
      apply Z.div_lt_upper_bound; [exact Hpp|].
      rewrite <- Z.pow_add_r by lia.
      eapply Z.lt_le_trans; [exact Hd|]. apply Z.pow_le_mono_r; lia.
    + split; [lia|]. eapply Z.lt_le_trans; [exact Hd|]. apply Z.pow_le_mono_r; lia.
Qed.

Lemma round_nearest_even_bounds (m : Z) (l : location) :
  m <= round_nearest_even m l <= m + 1.
Proof. destruct l as [|[]]; simpl; try destruct (Z.even m); lia. Qed.

(** A rounded number is a zero, an infinity, or a finite number whose
    mantissa has at most [prec] bits. *)
Lemma binary_round_aux_bounded (s : bool) (m : positive) (e : Z) (l : location) :
  match binary_round_aux prec emax s (Zpos m) e l with
  | S754_finite _ m' _ => Zpos m' < 2 ^ prec
  | S754_nan => False
  | _ => True
  end.
Proof.
  unfold binary_round_aux.
  pose proof (shr_fexp_bounds (Zpos m) e l ltac:(lia)) as H1.
  destruct (shr_fexp prec emax (Zpos m) e l) as [mrs1 e1]. simpl in H1.
  pose proof (round_nearest_even_bounds (shr_m mrs1) (loc_of_shr_record mrs1)) as Hr.
  set (m2 := round_nearest_even (shr_m mrs1) (loc_of_shr_record mrs1)) in *.
  pose proof (shr_fexp_bounds m2 e1 loc_Exact ltac:(lia)) as H2.
  destruct (shr_fexp prec emax m2 e1 loc_Exact) as [mrs2 e2]. simpl in H2.
  destruct (shr_m mrs2) as [|m'|m']; [exact I| |lia].
  destruct (e2 <=? emax - prec)%Z; [lia | exact I].
Qed.


(** Shifting to the exponent of the format: the mantissa loses the low
    bits, the exponent gains their number. *)
Lemma shr_fexp_spec (m e : Z) (l : location) :
  0 <= m ->
  let n := Z.max 0 (fexp prec emax (Zdigits2 m + e) - e) in
  shr_m (shr_fexp prec emax m e l).1 = m / 2 ^ n /\
  (shr_fexp prec emax m e l).2 = e + n.
Proof.
  intros Hm. unfold shr_fexp, shr.
  destruct (fexp prec emax (Zdigits2 m + e) - e) as [|p|p]; simpl.
  - rewrite shr_record_of_loc_m, Z.div_1_r. split; [reflexivity | lia].
  - rewrite iter_pos_shr_m by (rewrite shr_record_of_loc_m; lia).
    rewrite shr_record_of_loc_m. split; reflexivity.
  - rewrite shr_record_of_loc_m, Z.div_1_r. split; [reflexivity | lia].
Qed.

Lemma Qpower2_pos (e : Z) : (0 < 2 ^ e)%Q.
Proof. apply Qpower_0_lt. reflexivity. Qed.

Lemma val_le (m m' e : Z) : m <= m' -> (Binary32.val m e <= Binary32.val m' e)%Q.
Proof.
  intros H. unfold Binary32.val. apply Qmult_le_compat_r.
  - rewrite <- Zle_Qle. exact H.
  - apply Qlt_le_weak, Qpower2_pos.
Qed.

Lemma val_succ (m e : Z) : (Binary32.val (m + 1) e == Binary32.val m e + 2 ^ e)%Q.
Proof. unfold Binary32.val. rewrite inject_Z_plus. ring. Qed.

Lemma val_shr (m e n : Z) :
  0 <= m -> 0 <= n -> (Binary32.val (m / 2 ^ n) (e + n) <= Binary32.val m e)%Q.
Proof.
  intros Hm Hn. unfold Binary32.val.
  rewrite Qpower_plus by discriminate.
  assert (E : (2 ^ n == inject_Z (2 ^ n))%Q) by (rewrite Zpower_Qpower by lia; reflexivity).
  rewrite E.
  assert (E2 : (inject_Z (m / 2 ^ n) * (2 ^ e * inject_Z (2 ^ n)) ==
                inject_Z (m / 2 ^ n * 2 ^ n) * 2 ^ e)%Q)
    by (rewrite inject_Z_mult; ring).
  rewrite E2.
  apply Qmult_le_compat_r.
  - rewrite <- Zle_Qle. rewrite Z.mul_comm. apply Z.mul_div_le.
    apply Z.pow_pos_nonneg; lia.
  - apply Qlt_le_weak, Qpower2_pos.
Qed.

Lemma to_Q_abs (s : bool) (m : positive) (e : Z) :
  (Qabs (Binary32.to_Q (S754_finite s m e)) == Binary32.val (Zpos m) e)%Q.
Proof.
  unfold Binary32.to_Q, Binary32.val. rewrite Qabs_Qmult.
  rewrite (Qabs_pos (2 ^ e)) by (apply Qlt_le_weak, Qpower2_pos).
  destruct s; reflexivity.
Qed.

(** A rounded number is at most one unit of its last place above the
    number rounded. *)
Lemma binary_round_aux_upper (s : bool) (m : positive) (e : Z) (l : location) :
  (Qabs (Binary32.to_Q (binary_round_aux prec emax s (Zpos m) e l)) <=
   Binary32.val (Zpos m) e +
   2 ^ (e + Z.max 0 (fexp prec emax (Zdigits2 (Zpos m) + e) - e)))%Q.
Proof.
  unfold binary_round_aux.
  destruct (shr_fexp_spec (Zpos m) e l ltac:(lia)) as [M1 E1].
  destruct (shr_fexp prec emax (Zpos m) e l) as [mrs1 e1]. simpl in M1, E1.
  set (n1 := Z.max 0 (fexp prec emax (Zdigits2 (Zpos m) + e) - e)) in *.
  pose proof (round_nearest_even_bounds (shr_m mrs1) (loc_of_shr_record mrs1)) as Hr.
  set (m2 := round_nearest_even (shr_m mrs1) (loc_of_shr_record mrs1)) in *.
  assert (H1 : 0 <= shr_m mrs1)
    by (rewrite M1; apply Z.div_pos; [lia | apply Z.pow_pos_nonneg; lia]).
  destruct (shr_fexp_spec m2 e1 loc_Exact ltac:(lia)) as [M3 E3].
  destruct (shr_fexp prec emax m2 e1 loc_Exact) as [mrs2 e2]. simpl in M3, E3.
  set (n2 := Z.max 0 (fexp prec emax (Zdigits2 m2 + e1) - e1)) in *.
  assert (B : (Binary32.val (shr_m mrs2) e2 <= Binary32.val (Zpos m) e + 2 ^ (e + n1))%Q).
  { rewrite M3, E3.
    eapply Qle_trans; [apply val_shr; lia|].
    eapply Qle_trans; [apply (val_le m2 (shr_m mrs1 + 1)); lia|].
    rewrite val_succ, E1. apply Qplus_le_l. rewrite M1. apply val_shr; lia. }
  assert (P : (0 <= Binary32.val (Zpos m) e + 2 ^ (e + n1))%Q).
  { apply Qle_trans with (Binary32.val (shr_m mrs2) e2); [|exact B].
    unfold Binary32.val. apply Qmult_le_0_compat.
    - change 0%Q with (inject_Z 0). rewrite <- Zle_Qle. rewrite M3.
      apply Z.div_pos; [lia | apply Z.pow_pos_nonneg; lia].
    - apply Qlt_le_weak, Qpower2_pos. }
  destruct (shr_m mrs2) as [|m'|m']; [exact P| |exact P].
  destruct (e2 <=? emax - prec)%Z; [|exact P].
  rewrite to_Q_abs. exact B.
Qed.

End Rounding.

(** ** Multiplication in binary32 *)

(** The product of two normal binary32 numbers, when it is not too small,
    exceeds the exact product by at most the factor [1 + 2^-23]. *)
Lemma binary32_mul_upper (sx sy : bool) (mx my : positive) (ex ey : Z) :
  2 ^ 23 <= Zpos mx -> 2 ^ 23 <= Zpos my -> -172 <= ex + ey ->
  (Qabs (Binary32.to_Q (Binary32.mul (S754_finite sx mx ex) (S754_finite sy my ey))) <=
   Binary32.val (Zpos mx) ex * Binary32.val (Zpos my) ey * (1 + (1 # 8388608)))%Q.
Proof.
  intros Hx Hy He. unfold Binary32.mul, SFmul.
  eapply Qle_trans; [apply (binary_round_aux_upper 24 128)|].
  pose proof (digits2_pos_bounds (mx * my)) as [Dlo Dhi].
  simpl Zdigits2. set (d := Zpos (digits2_pos (mx * my))) in *.
  assert (HM : 2 ^ 46 <= Zpos (mx * my)).
  { rewrite Pos2Z.inj_mul. change (2 ^ 46) with (2 ^ 23 * 2 ^ 23).
    apply Z.mul_le_mono_nonneg; lia. }
  assert (Hd : 47 <= d).
  { assert (46 < d); [|lia]. apply (Z.pow_lt_mono_r_iff 2); lia. }
  assert (Hf : fexp 24 128 (d + (ex + ey)) = d + (ex + ey) - 24) by (unfold fexp, emin; lia).
  rewrite Hf.
  replace (ex + ey + Z.max 0 (d + (ex + ey) - 24 - (ex + ey)))
    with ((d - 1) + (ex + ey) + -23) by lia.
  rewrite !Qpower_plus by discriminate.
  assert (E : (Binary32.val (Zpos (mx * my)) (ex + ey) ==
               Binary32.val (Zpos mx) ex * Binary32.val (Zpos my) ey)%Q).
  { unfold Binary32.val. rewrite Pos2Z.inj_mul, inject_Z_mult.
    rewrite Qpower_plus by discriminate. ring. }
  rewrite <- E.
  assert (L : (2 ^ (d - 1) * (2 ^ ex * 2 ^ ey) <= Binary32.val (Zpos (mx * my)) (ex + ey))%Q).
  { unfold Binary32.val. rewrite Qpower_plus by discriminate.
    apply Qmult_le_compat_r.
    - rewrite <- (Zpower_Qpower 2 (d - 1)) by lia. rewrite <- Zle_Qle. exact Dlo.
    - apply Qlt_le_weak. apply Qmult_lt_0_compat; apply Qpower2_pos. }
  change (2 ^ (-23))%Q with (1 # 8388608)%Q.
  set (v := Binary32.val (Zpos (mx * my)) (ex + ey)) in *.
  set (u := (2 ^ (d - 1) * (2 ^ ex * 2 ^ ey))%Q) in *.
  clearbody u v. nra.
Qed.

(** ** Agreement with IEEE 754 on the 16-bit grid

    What follows is checked by running the binary32 operations on every
    16-bit sample, every level and every factor. *)

Lemma In_upto (n : nat) (z k : Z) :
  z <= k < z + Z.of_nat n -> In k (Binary32.upto n z).
Proof.
  revert z. induction n as [|n IH]; intros z H; simpl; [lia|].
  destruct (Z.eq_dec z k) as [E|E]; [left; exact E|].
  right. apply IH. lia.
Qed.

Lemma samples_checked (k : Z) :
  -32768 <= k <= 32767 -> Binary32.sample_ok k = true.
Proof.
  intros Hk.
  assert (All : forallb Binary32.sample_ok (Binary32.upto (Z.to_nat 65536) (-32768)) = true).
  { vm_compute. reflexivity. }
  rewrite forallb_forall in All. apply All. apply In_upto. lia.
Qed.

Lemma levels_checked (i : Z) :
  0 <= i <= 32768 -> Binary32.level_ok i = true.
Proof.
  intros Hi.
  assert (All : forallb Binary32.level_ok (Binary32.upto (Z.to_nat 32769) 0) = true).
  { vm_compute. reflexivity. }
  rewrite forallb_forall in All. apply All. apply In_upto. lia.
Qed.

Lemma factors_checked (i : Z) :
  32441 <= i <= 32768 -> Binary32.factor_ok i = true.
Proof.
  intros Hi.
  assert (All : forallb Binary32.factor_ok (Binary32.upto 328 32441) = true).
  { vm_compute. reflexivity. }
  rewrite forallb_forall in All. apply All. apply In_upto. lia.
Qed.

(** For each of the 65536 samples [k / 32768] that the backend can
    produce, binary32 arithmetic reads the sample exactly and exports the
    integer that the exact arithmetic exports. *)
Lemma binary32_agrees_on_grid (k : Z) :
  -32768 <= k <= 32767 ->
  (Binary32.to_Q (Binary32.of_pcm16 k) == of_pcm16 k)%Q /\
  Binary32.to_pcm16 (Binary32.of_pcm16 k) = Some (to_pcm16 (of_pcm16 k)).
Proof.
  intros Hk. pose proof (samples_checked k Hk) as H. unfold Binary32.sample_ok in H.
  cbv zeta in H. apply andb_prop in H as [H H2]. apply andb_prop in H as [_ H1]. split.
  - apply Qeq_bool_iff. exact H1.
  - destruct (Binary32.to_pcm16 (Binary32.of_pcm16 k)) as [j|]; [|discriminate].
    apply Z.eqb_eq in H2. congruence.
Qed.

(** For each peak above 0.99 that can occur, [k / 32768] with
    [32441 <= |k| <= 32768], binary32 arithmetic brings the peak sample to
    within [2^-23] of 0.99. *)
Lemma binary32_scaled_peak (k : Z) :
  32441 <= Z.abs k <= 32768 ->
  let peak := SFabs (Binary32.of_pcm16 k) in
  let scaled := Qabs (Binary32.to_Q (Binary32.scale peak (Binary32.of_pcm16 k))) in
  (Qabs (scaled - (99 # 100)) <= 1 # 8388608)%Q.
Proof.
  intros Hk. cbv zeta.
  assert (All : forallb Binary32.peak_within_tolerance
                  (Binary32.upto 328 (-32768) ++ Binary32.upto 328 32441) = true)
    by (vm_compute; reflexivity).
  rewrite forallb_forall in All.
  assert (Hin : In k (Binary32.upto 328 (-32768) ++ Binary32.upto 328 32441)).
  { apply in_or_app. destruct (Z_lt_le_dec k 0); [left | right]; apply In_upto; lia. }
  specialize (All k Hin). unfold Binary32.peak_within_tolerance in All.
  apply andb_prop in All as [H1 H2].
  apply Qle_bool_iff in H1, H2.
  set (s := Qabs (Binary32.to_Q
         (Binary32.scale (SFabs (Binary32.of_pcm16 k)) (Binary32.of_pcm16 k)))) in *.
  clearbody s. apply Qabs_Qle_condition. split; lra.
Qed.

Lemma SF_eqb_eq (x y : spec_float) : Binary32.SF_eqb x y = true -> x = y.
Proof.
  destruct x as [a|a| |a m e], y as [b|b| |b m' e']; simpl; try discriminate.
  - intros H. apply Bool.eqb_prop in H. congruence.
  - intros H. apply Bool.eqb_prop in H. congruence.
  - reflexivity.
  - intros H. apply andb_prop in H as [H He]. apply andb_prop in H as [Hs Hm].
    apply Bool.eqb_prop in Hs. apply Pos.eqb_eq in Hm. apply Z.eqb_eq in He. congruence.
Qed.

Lemma level_facts (i : Z) :
  0 <= i <= 32768 ->
  Binary32.level_like (Binary32.level i) /\
  (Binary32.level i = S754_zero false <-> i = 0) /\
  (Binary32.to_Q (Binary32.level i) == i # 32768)%Q /\
  (i < 32768 -> Binary32.key (Binary32.level i) < Binary32.key (Binary32.level (i + 1))) /\
  SFltb Binary32.c099 (Binary32.to_binary64 (Binary32.level i)) = (32441 <=? i)%Z.
Proof.
  intros Hi. pose proof (levels_checked i Hi) as H. unfold Binary32.level_ok in H.
  cbv zeta in H.
  apply andb_prop in H as [H H4]. apply andb_prop in H as [H H3].
  apply andb_prop in H as [H1 H2].
  apply Qeq_bool_iff in H2. apply Bool.eqb_prop in H4.
  split; [|split; [|split; [exact H2|split; [|exact H4]]]].
  - destruct (Binary32.level i) as [[|]|[|]| |[|] m e]; try discriminate.
    + left. reflexivity.
    + right. exists m, e. split; [reflexivity|].
      apply andb_prop in H1 as [H1 He]. apply andb_prop in H1 as [H1 Hm2].
      apply andb_prop in H1 as [_ Hm1].
      apply Z.leb_le in Hm1, He. apply Z.ltb_lt in Hm2. lia.
  - destruct (Binary32.level i) as [[|]|[|]| |[|] m e]; try discriminate.
    + apply Z.eqb_eq in H1. split; auto.
    + apply andb_prop in H1 as [H1 _]. apply andb_prop in H1 as [H1 _].
      apply andb_prop in H1 as [H1 _]. apply Z.ltb_lt in H1. split; [discriminate | lia].
  - intros Hlt. apply orb_prop in H3 as [H3|H3].
    + apply Z.eqb_eq in H3. lia.
    + apply Z.ltb_lt in H3. exact H3.
Qed.

Lemma level_key_mono (i j : Z) :
  0 <= i -> i < j -> j <= 32768 ->
  Binary32.key (Binary32.level i) < Binary32.key (Binary32.level j).
Proof.
  intros Hi Hij Hj.
  assert (G : forall n : nat, i + 1 + Z.of_nat n <= 32768 ->
            Binary32.key (Binary32.level i) <
            Binary32.key (Binary32.level (i + 1 + Z.of_nat n))).
  { induction n as [|n IH]; intros Hn.
    - rewrite Z.add_0_r. apply level_facts; lia.
    - eapply Z.lt_trans; [apply IH; lia|].
      replace (i + 1 + Z.of_nat (S n)) with (i + 1 + Z.of_nat n + 1) by lia.
      apply level_facts; lia. }
  replace j with (i + 1 + Z.of_nat (Z.to_nat (j - i - 1))) by lia.
  apply G. lia.
Qed.

(** On such numbers the comparison of floats is the comparison of keys. *)
Lemma SFltb_key (x y : spec_float) :
  Binary32.level_like x -> Binary32.level_like y ->
  SFltb x y = (Binary32.key x <? Binary32.key y)%Z.
Proof.
  intros [->|(m1 & e1 & -> & Hm1 & He1)] [->|(m2 & e2 & -> & Hm2 & He2)];
    unfold SFltb, SFcompare, Binary32.key.
  - reflexivity.
  - symmetry. apply Z.ltb_lt. lia.
  - symmetry. apply Z.ltb_ge. lia.
  - destruct (Z.compare_spec e1 e2) as [->|He|He].
    + rewrite Pos.compare_cont_spec. simpl Pos.switch_Eq.
      destruct (Pos.compare_spec m1 m2) as [->|Hlt|Hgt]; symmetry.
      * apply Z.ltb_ge. lia.
      * apply Pos2Z.pos_lt_pos in Hlt. apply Z.ltb_lt. lia.
      * apply Pos2Z.pos_lt_pos in Hgt. apply Z.ltb_ge. lia.
    + symmetry. apply Z.ltb_lt. lia.
    + symmetry. apply Z.ltb_ge. lia.
Qed.

Lemma level_like_not_nan (x : spec_float) : Binary32.level_like x -> Binary32.is_nan x = false.
Proof. intros [->|(m & e & -> & _)]; reflexivity. Qed.

Lemma maximum_level (i j : Z) :
  0 <= i <= 32768 -> 0 <= j <= 32768 ->
  Binary32.maximum (Binary32.level i) (Binary32.level j) = Binary32.level (Z.max i j).
Proof.
  intros Hi Hj.
  destruct (level_facts i Hi) as (Li & _). destruct (level_facts j Hj) as (Lj & _).
  unfold Binary32.maximum.
  rewrite (level_like_not_nan _ Li), (level_like_not_nan _ Lj), (SFltb_key _ _ Li Lj).
  destruct (Z.lt_trichotomy i j) as [H|[H|H]].
  - pose proof (level_key_mono i j ltac:(lia) H ltac:(lia)) as K.
    apply Z.ltb_lt in K. rewrite K. f_equal. lia.
  - subst j. rewrite Z.ltb_irrefl. f_equal. lia.
  - pose proof (level_key_mono j i ltac:(lia) H ltac:(lia)) as K.
    assert (E : (Binary32.key (Binary32.level i) <? Binary32.key (Binary32.level j))%Z = false)
      by (apply Z.ltb_ge; lia).
    rewrite E. f_equal. lia.
Qed.

Lemma sample_facts (k : Z) :
  -32768 <= k <= 32767 ->
  Binary32.of_pcm16 k =
    (if (k <? 0)%Z then SFopp (Binary32.level (- k)) else Binary32.level k) /\
  SFabs (Binary32.of_pcm16 k) = Binary32.level (Z.abs k).
Proof.
  intros Hk. pose proof (samples_checked k Hk) as H. unfold Binary32.sample_ok in H.
  cbv zeta in H. apply andb_prop in H as [H _]. apply andb_prop in H as [H _].
  apply SF_eqb_eq in H. split; [exact H|]. rewrite H.
  destruct (Z.ltb_spec k 0) as [Hn|Hp].
  - rewrite Z.abs_neq by lia.
    destruct (level_facts (- k) ltac:(lia)) as ([E|(m & e & E & _)] & _); rewrite E; reflexivity.
  - rewrite Z.abs_eq by lia.
    destruct (level_facts k ltac:(lia)) as ([E|(m & e & E & _)] & _); rewrite E; reflexivity.
Qed.

Lemma fold_maximum_levels (ks : list Z) (a : Z) :
  Forall (fun k => -32768 <= k <= 32767) ks -> 0 <= a <= 32768 ->
  fold_left Binary32.maximum (map SFabs (map Binary32.of_pcm16 ks)) (Binary32.level a) =
    Binary32.level (fold_left Z.max (map Z.abs ks) a) /\
  0 <= fold_left Z.max (map Z.abs ks) a <= 32768.
Proof.
  intros Hks. revert a. induction Hks as [|k ks Hk _ IH]; intros a Ha; simpl.
  - split; [reflexivity | exact Ha].
  - destruct (sample_facts k Hk) as [_ E]. rewrite E.
    rewrite maximum_level by lia. apply IH. lia.
Qed.

Lemma peak_of_grid (k : Z) (ks : list Z) :
  Forall (fun k => -32768 <= k <= 32767) (k :: ks) ->
  Binary32.peak_of (Binary32.of_pcm16 k) (map Binary32.of_pcm16 ks) =
    Binary32.level (Binary32.int_peak k ks) /\
  0 <= Binary32.int_peak k ks <= 32768.
Proof.
  intros H. inversion H as [|? ? Hk Hks]; subst.
  unfold Binary32.peak_of, Binary32.int_peak.
  destruct (sample_facts k Hk) as [_ E]. rewrite E.
  apply fold_maximum_levels; [exact Hks | lia].
Qed.

Lemma fold_Zmax_ge (l : list Z) (a : Z) : a <= fold_left Z.max l a.
Proof.
  revert a. induction l as [|s l IH]; intros a; simpl; [lia|].
  specialize (IH (Z.max a s)). lia.
Qed.

Lemma int_peak_is_max (k : Z) (ks : list Z) :
  Forall (fun j => Z.abs j <= Binary32.int_peak k ks) (k :: ks) /\
  Exists (fun j => Z.abs j = Binary32.int_peak k ks) (k :: ks).
Proof.
  unfold Binary32.int_peak.
  assert (G : forall l a,
    Forall (fun j => Z.abs j <= fold_left Z.max (map Z.abs l) a) l /\
    (fold_left Z.max (map Z.abs l) a = a \/
     Exists (fun j => Z.abs j = fold_left Z.max (map Z.abs l) a) l)).
  { induction l as [|s l IH]; intros a; simpl.
    - split; [constructor | left; reflexivity].
    - destruct (IH (Z.max a (Z.abs s))) as [F [E|E]]. split.
      + constructor; [|exact F].
        pose proof (fold_Zmax_ge (map Z.abs l) (Z.max a (Z.abs s))). lia.
      + destruct (Z.max_spec a (Z.abs s)) as [[_ M]|[_ M]].
        * right. constructor. rewrite E. symmetry. exact M.
        * left. rewrite E. exact M.
      + split.
        * constructor; [|exact F].
          pose proof (fold_Zmax_ge (map Z.abs l) (Z.max a (Z.abs s))). lia.
        * right. apply Exists_cons_tl. exact E. }
  destruct (G ks (Z.abs k)) as [F [E|E]]; split.
  - constructor; [apply fold_Zmax_ge | exact F].
  - constructor. symmetry. exact E.
  - constructor; [apply fold_Zmax_ge | exact F].
  - apply Exists_cons_tl. exact E.
Qed.

(** With the peak at [K / 32768], every sample of the buffer is scaled to
    at most [0.99 + 2^-22]. *)
Lemma scaled_sample_upper (K k : Z) :
  32441 <= K <= 32768 -> -32768 <= k <= 32767 -> Z.abs k <= K ->
  (Qabs (Binary32.to_Q (Binary32.scale (Binary32.level K) (Binary32.of_pcm16 k))) <=
   (99 # 100) + (1 # 4194304))%Q.
Proof.
  intros HK Hk Hle. unfold Binary32.scale. fold (Binary32.factor K).
  pose proof (factors_checked K HK) as F. unfold Binary32.factor_ok in F.
  destruct (Binary32.factor K) as [?|?| |[|] ms es]; try discriminate.
  apply andb_prop in F as [F B]. apply andb_prop in F as [Hms Hes].
  apply Z.leb_le in Hms, Hes. apply Qle_bool_iff in B.
  destruct (sample_facts k Hk) as [E _].
  destruct (level_facts (Z.abs k) ltac:(lia)) as (L & Z0 & V & _).
  assert (E' : Binary32.of_pcm16 k =
               if (k <? 0)%Z then SFopp (Binary32.level (Z.abs k))
               else Binary32.level (Z.abs k)).
  { rewrite E. destruct (Z.ltb_spec k 0); [rewrite Z.abs_neq by lia | rewrite Z.abs_eq by lia];
      reflexivity. }
  rewrite E'. clear E E'.
  destruct L as [L|(m & e & L & Hm & He)]; rewrite L in *.
  - destruct (k <? 0)%Z; simpl; discriminate.
  - assert (Hv : (Binary32.val (Zpos m) e == Z.abs k # 32768)%Q) by exact V.
    assert (U : forall s,
      (Qabs (Binary32.to_Q (Binary32.mul (S754_finite s m e) (S754_finite false ms es))) <=
       (99 # 100) + (1 # 4194304))%Q).
    { intros s. eapply Qle_trans; [apply binary32_mul_upper; lia|].
      rewrite Hv. eapply Qle_trans; [|exact B].
      assert (P : (0 <= Binary32.val (Zpos ms) es)%Q).
      { unfold Binary32.val. apply Qmult_le_0_compat; [discriminate|].
        apply Qlt_le_weak, Qpower2_pos. }
      assert (Q1 : (Z.abs k # 32768 <= K # 32768)%Q) by (unfold Qle; simpl; lia).
      set (v := Binary32.val (Zpos ms) es) in *. clearbody v.
      set (a := (Z.abs k # 32768)%Q) in *. set (b := (K # 32768)%Q) in *.
      clearbody a b. nra. }
    destruct (k <? 0)%Z; apply U.
Qed.

Lemma scaled_peak_sample (k : Z) :
  -32768 <= k <= 32767 -> 32441 <= Z.abs k ->
  (Qabs (Qabs (Binary32.to_Q
           (Binary32.scale (Binary32.level (Z.abs k)) (Binary32.of_pcm16 k))) -
         (99 # 100)) <= 1 # 8388608)%Q.
Proof.
  intros Hk Hp. destruct (sample_facts k Hk) as [_ E]. rewrite <- E.
  apply binary32_scaled_peak. lia.
Qed.

(** Peak normalization in binary32, on every buffer that the backend can
    produce: a buffer whose peak is at most 32440/32768 is left as it is; a
    buffer with a higher peak is scaled by one factor, no scaled sample
    exceeds [0.99 + 2^-22], and the scaled peak is within [2^-23] of
    0.99. *)
Lemma binary32_normalize_peak (k : Z) (ks : list Z) :
  Forall (fun j => -32768 <= j <= 32767) (k :: ks) ->
  let pcm := map Binary32.of_pcm16 (k :: ks) in
  let K := Binary32.int_peak k ks in
  (K <= 32440 -> Binary32.normalize_peak pcm = pcm) /\
  (32441 <= K ->
     Binary32.normalize_peak pcm = map (Binary32.scale (Binary32.level K)) pcm /\
     Forall (fun y => Qabs (Binary32.to_Q y) <= (99 # 100) + (1 # 4194304))%Q
            (Binary32.normalize_peak pcm) /\
     Exists (fun y => Qabs (Qabs (Binary32.to_Q y) - (99 # 100)) <= 1 # 8388608)%Q
            (Binary32.normalize_peak pcm)).
Proof.
  intros Hall pcm K.
  destruct (peak_of_grid k ks Hall) as [Hpeak HK].
  destruct (int_peak_is_max k ks) as [Hle Hex]. fold K in Hpeak, HK, Hle, Hex.
  destruct (level_facts K HK) as (_ & _ & _ & _ & Hthr).
  assert (Hrun : Binary32.normalize_peak pcm =
                 if (32441 <=? K)%Z then map (Binary32.scale (Binary32.level K)) pcm
                 else pcm).
  { unfold pcm. simpl map. unfold Binary32.normalize_peak.
    rewrite Hpeak, Hthr. reflexivity. }
  rewrite Hrun. split.
  - intros H. destruct (Z.leb_spec 32441 K); [lia | reflexivity].
  - intros H. destruct (Z.leb_spec 32441 K); [|lia].
    split; [reflexivity|]. split.
    + apply List.Forall_forall. intros y Hy.
      apply List.in_map_iff in Hy as (x & <- & Hx).
      apply List.in_map_iff in Hx as (j & <- & Hj).
      rewrite List.Forall_forall in Hle, Hall.
      apply scaled_sample_upper; [lia | apply Hall; exact Hj | apply Hle; exact Hj].
    + apply List.Exists_exists in Hex as (j & Hj & Ej).
      apply List.Exists_exists.
      exists (Binary32.scale (Binary32.level K) (Binary32.of_pcm16 j)). split.
      * apply List.in_map. apply List.in_map. exact Hj.
      * rewrite <- Ej. rewrite List.Forall_forall in Hall.
        apply scaled_peak_sample; [apply Hall; exact Hj | lia].
Qed.

(** ** Peak normalization *)

Section Peak.
Local Open Scope Q_scope.

Lemma fold_max_ge (l : list Q) (a : Q) : a <= fold_left Qmax l a.
Proof.
  revert a. induction l as [|s l IH]; intros a; simpl.
  - apply Qle_refl.
  - eapply Qle_trans; [apply Q.le_max_l | apply IH].
Qed.

Lemma fold_max_bound (l : list Q) (a : Q) :
  Forall (fun s => s <= fold_left Qmax l a) l.
Proof.
  revert a. induction l as [|s l IH]; intros a; simpl; constructor.
  - eapply Qle_trans; [apply Q.le_max_r | apply fold_max_ge].
  - apply IH.
Qed.

Lemma fold_max_attained (l : list Q) (a : Q) :
  fold_left Qmax l a == a \/ Exists (fun s => fold_left Qmax l a == s) l.
Proof.
  revert a. induction l as [|s l IH]; intros a; simpl.
  - left. reflexivity.
  - destruct (IH (Qmax a s)) as [E|E].
    + destruct (Q.max_dec a s) as [D|D].
      * left. eapply Qeq_trans; [exact E | exact D].
      * right. constructor. eapply Qeq_trans; [exact E | exact D].
    + right. apply Exists_cons_tl. exact E.
Qed.

(** [peak_of] is the largest absolute value in the buffer. *)
Lemma peak_of_is_max (x : Q) (rest : list Q) :
  Forall (fun s => Qabs s <= peak_of x rest) (x :: rest) /\
  Exists (fun s => Qabs s == peak_of x rest) (x :: rest).
Proof.
  unfold peak_of. split.
  - constructor; [apply fold_max_ge|].
    apply List.Forall_forall. intros s Hs.
    pose proof (fold_max_bound (map Qabs rest) (Qabs x)) as B.
    rewrite List.Forall_forall in B. apply B. apply List.in_map. exact Hs.
  - destruct (fold_max_attained (map Qabs rest) (Qabs x)) as [E|E].
    + constructor. symmetry. exact E.
    + apply Exists_cons_tl. apply List.Exists_exists in E as (y & Hy & Ey).
      apply List.in_map_iff in Hy as (s & <- & Hs).
      apply List.Exists_exists. exists s. split; [exact Hs|]. symmetry. exact Ey.
Qed.

Lemma Qabs_scale (s k : Q) : 0 <= k -> Qabs (s * k) == Qabs s * k.
Proof. intros Hk. rewrite Qabs_Qmult, (Qabs_pos k Hk). reflexivity. Qed.

(** Scaling by [0.99 / peak] brings the largest absolute value to 0.99. *)
Lemma scaled_peak (pcm : list Q) (peak : Q) :
  0 < peak ->
  Forall (fun s => Qabs s <= peak) pcm ->
  Exists (fun s => Qabs s == peak) pcm ->
  let k := (99 # 100) / peak in
  Forall (fun s => Qabs s <= 99 # 100) (map (fun s => s * k) pcm) /\
  Exists (fun s => Qabs s == 99 # 100) (map (fun s => s * k) pcm).
Proof.
  intros Hp Hall Hex k.
  assert (Hk : 0 <= k).
  { unfold k. apply Qlt_le_weak. apply Qlt_shift_div_l; [exact Hp|].
    rewrite Qmult_0_l. reflexivity. }
  assert (Hpk : peak * k == 99 # 100).
  { unfold k. field. intros E. rewrite E in Hp. discriminate. }
  split.
  - apply List.Forall_forall. intros y Hy.
    apply List.in_map_iff in Hy as (s & <- & Hs).
    rewrite List.Forall_forall in Hall. specialize (Hall s Hs). simpl in Hall.
    rewrite Qabs_scale by exact Hk. rewrite <- Hpk.
    apply Qmult_le_compat_r; assumption.
  - apply List.Exists_exists in Hex as (s & Hs & Es).
    apply List.Exists_exists. exists (s * k). split.
    + apply List.in_map_iff. exists s. split; [reflexivity | exact Hs].
    + rewrite Qabs_scale by exact Hk. rewrite Es. exact Hpk.
Qed.

End Peak.

(** C4. When the backend returns a non-empty buffer, [synthesize] takes its
    peak, the largest absolute sample.  A buffer whose peak is at most 0.99
    is returned as it is.  A buffer whose peak exceeds 0.99 is returned
    with every sample multiplied by the one factor [0.99 / peak], which
    lies strictly between 0 and 1; the largest absolute sample of the
    result is 0.99.  Sample rate and world are those of the backend.

    Samples are exact rationals here, so the new peak is 0.99 exactly.  In
    binary32 arithmetic, on every buffer of 16-bit samples (all that the
    backend produces): a buffer whose peak is at most 32440/32768, the
    largest level below 0.99, is left as it is; a buffer with a higher peak
    is scaled by one factor, no scaled sample exceeds [0.99 + 2^-22], and
    the scaled peak is within [2^-23] of 0.99. *)
Theorem synthesize_normalizes_peak (P : platform) (t : tid)
    (self : TalkAsMicService) (text : string) (w w1 : world)
    (x : Q) (rest : list Q) (samplerate : Z) :
  synth_pcm16 P t text (rate self) (volume self) (voice_token_id self) w =
    (Ok (x :: rest, samplerate), w1) ->
  let pcm := x :: rest in
  let peak := peak_of x rest in
  (Forall (fun s => Qabs s <= peak) pcm /\ Exists (fun s => Qabs s == peak) pcm)%Q /\
  (peak <= 99 # 100 -> synthesize P t self text w = (Ok (pcm, samplerate), w1))%Q /\
  (99 # 100 < peak ->
     let k := (99 # 100) / peak in
     let scaled := map (fun s => s * k) pcm in
     0 < k /\ k < 1 /\
     synthesize P t self text w = (Ok (scaled, samplerate), w1) /\
     Forall (fun s => Qabs s <= 99 # 100) scaled /\
     Exists (fun s => Qabs s == 99 # 100) scaled)%Q /\
  (forall k ks,
     Forall (fun j => -32768 <= j <= 32767) (k :: ks) ->
     let pcm32 := map Binary32.of_pcm16 (k :: ks) in
     let K := Binary32.int_peak k ks in
     (K <= 32440 -> Binary32.normalize_peak pcm32 = pcm32) /\
     (32441 <= K ->
        Binary32.normalize_peak pcm32 = map (Binary32.scale (Binary32.level K)) pcm32 /\
        Forall (fun y => Qabs (Binary32.to_Q y) <= (99 # 100) + (1 # 4194304))%Q
               (Binary32.normalize_peak pcm32) /\
        Exists (fun y => Qabs (Qabs (Binary32.to_Q y) - (99 # 100)) <= 1 # 8388608)%Q
               (Binary32.normalize_peak pcm32))).
Proof.
  intros Hsyn pcm peak.
  destruct (peak_of_is_max x rest) as [Hall Hex].
  split; [split; assumption|].
  assert (Hrun : synthesize P t self text w =
                 match normalize_peak pcm with
                 | Ok pcm' => (Ok (pcm', samplerate), w1)
                 | Raise e => (Raise e, w1)
                 end).
  { unfold synthesize, mbind, M_bind, bind. rewrite Hsyn. unfold lift_result.
    unfold pcm. destruct (normalize_peak (x :: rest)); reflexivity. }
  rewrite Hrun. unfold normalize_peak, pcm. fold peak.
  split; [|split; [|exact binary32_normalize_peak]].
  - intros Hle. destruct (Qlt_le_dec (99 # 100) peak) as [Hlt|_]; [|reflexivity].
    exfalso. exact (Qlt_not_le _ _ Hlt Hle).
  - intros Hlt. simpl.
    assert (Hpos : (0 < peak)%Q) by (eapply Qlt_trans; [|exact Hlt]; reflexivity).
    destruct (scaled_peak (x :: rest) peak Hpos Hall Hex) as [Hall' Hex'].
    split; [|split; [|split; [|split]]].
    + apply Qlt_shift_div_l; [exact Hpos|]. rewrite Qmult_0_l. reflexivity.
    + apply Qlt_shift_div_r; [exact Hpos|]. rewrite Qmult_1_l. exact Hlt.
    + destruct (Qlt_le_dec (99 # 100) peak) as [_|Hle]; [reflexivity|].
      exfalso. exact (Qlt_not_le _ _ Hlt Hle).
    + exact Hall'.
    + exact Hex'.
Qed.

Lemma synthesize_normalizes_peak_witness :
  let w1 := (synth_pcm16 Demo.windows 0%nat "hello" 0 100 None Demo.boot).2 in
  synth_pcm16 Demo.windows 0%nat "hello" 0 100 None Demo.boot =
    (Ok ([16384 # 32768; -32768 # 32768; 1 # 32768]%Q, 16000), w1) /\
  (99 # 100 < peak_of (16384 # 32768) [-32768 # 32768; 1 # 32768])%Q /\
  Exists (fun s => Qabs s == 99 # 100)%Q
    (map (fun s => s * ((99 # 100) / peak_of (16384 # 32768) [-32768 # 32768; 1 # 32768]))%Q
         [16384 # 32768; -32768 # 32768; 1 # 32768]%Q).
Proof.
  intros w1.
  assert (H : synth_pcm16 Demo.windows 0%nat "hello" 0 100 None Demo.boot =
              (Ok ([16384 # 32768; -32768 # 32768; 1 # 32768]%Q, 16000), w1))
    by (vm_compute; reflexivity).
  assert (Hp : (99 # 100 < peak_of (16384 # 32768) [-32768 # 32768; 1 # 32768])%Q)
    by reflexivity.
  split; [exact H|]. split; [exact Hp|].
  apply (synthesize_normalizes_peak Demo.windows 0%nat (Service.init Demo.windows)
           "hello" Demo.boot w1 _ _ 16000 H).
  exact Hp.
Defined.

(** Peak 1.5 comes out as 0.99; a quiet buffer stays as it is. *)
Example normalize_peak_loud :
  normalize_peak [3 # 2; -(1 # 2)]%Q = Ok [(3 # 2) * ((99 # 100) / (3 # 2)); -(1 # 2) * ((99 # 100) / (3 # 2))]%Q /\
  ((3 # 2) * ((99 # 100) / (3 # 2)) == 99 # 100)%Q /\
  (-(1 # 2) * ((99 # 100) / (3 # 2)) == -(33 # 100))%Q.
Proof. repeat split. Qed.

Example normalize_peak_quiet :
  normalize_peak [1 # 2; -(98 # 100)]%Q = Ok [1 # 2; -(98 # 100)]%Q.
Proof. reflexivity. Qed.

(** ** Samples as 16-bit integers *)

Section Samples.
Local Open Scope Q_scope.

Lemma Qmax_lo (v lo : Q) : lo <= v -> Qmax v lo = v.
Proof.
  intros H. unfold Qmax, GenericMinMax.gmax.
  destruct (v ?= lo) eqn:E; try reflexivity.
  apply Qlt_alt in E. exfalso. exact (Qlt_not_le _ _ E H).
Qed.

Lemma Qmin_hi (v hi : Q) : v <= hi -> Qmin v hi = v.
Proof.
  intros H. unfold Qmin, GenericMinMax.gmin.
  destruct (v ?= hi) eqn:E; try reflexivity.
  apply Qgt_alt in E. exfalso. exact (Qlt_not_le _ _ E H).
Qed.

Lemma clip_bounds (v lo hi : Q) : lo <= hi -> lo <= clip v lo hi <= hi.
Proof.
  intros H. unfold clip. split.
  - apply Q.min_glb; [apply Q.le_max_r | exact H].
  - apply Q.le_min_r.
Qed.

Lemma clip_inside (v lo hi : Q) : lo <= v -> v <= hi -> clip v lo hi = v.
Proof. intros Hlo Hhi. unfold clip. rewrite Qmax_lo, Qmin_hi; auto. Qed.

(** Dropping the fraction keeps a value between two integers between
    them. *)
Lemma Qtrunc_bounds (v : Q) (lo hi : Z) :
  inject_Z lo <= v <= inject_Z hi -> (lo <= Qtrunc v <= hi)%Z.
Proof.
  destruct v as [n d]. unfold Qle, Qtrunc. simpl. intros [Hlo Hhi]. split.
  - apply Z.quot_le_lower_bound; lia.
  - apply Z.quot_le_upper_bound; lia.
Qed.

Lemma wrap16_small (z : Z) : (-32768 <= z <= 32767)%Z -> wrap16 z = z.
Proof. intros H. unfold wrap16. rewrite Z.mod_small by lia. lia. Qed.

Lemma wrap16_range (z : Z) : (-32768 <= wrap16 z <= 32767)%Z.
Proof.
  unfold wrap16. pose proof (Z.mod_pos_bound (z + 32768) 65536). lia.
Qed.

(** The conversion of [export_wav], one sample: the clipped value lies in
    the 16-bit range, so does its integer part, and the cast to [int16]
    keeps that integer. *)
Lemma to_pcm16_spec (x : Q) :
  -32768 <= clip (x * 32767) (-32768) 32767 <= 32767 /\
  to_pcm16 x = Qtrunc (clip (x * 32767) (-32768) 32767) /\
  (-32768 <= to_pcm16 x <= 32767)%Z.
Proof.
  assert (B : -32768 <= clip (x * 32767) (-32768) 32767 <= 32767)
    by (apply clip_bounds; discriminate).
  pose proof (Qtrunc_bounds _ (-32768) 32767 B) as T.
  split; [exact B|]. unfold to_pcm16, astype_int16.
  rewrite wrap16_small by exact T. split; [reflexivity | exact T].
Qed.

Lemma Z_of_byte_of_Z (z : Z) : Z_of_byte (byte_of_Z z) = (z mod 256)%Z.
Proof.
  unfold Z_of_byte, byte_of_Z.
  pose proof (Z.mod_pos_bound z 256 eq_refl) as Hm.
  destruct (Byte.of_N (Z.to_N (z mod 256))) as [b|] eqn:E.
  - apply Byte.to_of_N in E. rewrite E. lia.
  - apply Byte.of_N_None_iff in E. lia.
Qed.

(** Two bytes hold a 16-bit sample. *)
Lemma int16_of_bytes (k : Z) :
  (-32768 <= k <= 32767)%Z ->
  wrap16 (Z_of_byte (byte_of_Z k) + 256 * Z_of_byte (byte_of_Z (k / 256))) = k.
Proof.
  intros H. rewrite !Z_of_byte_of_Z.
  replace (k mod 256 + 256 * ((k / 256) mod 256))%Z with (k mod 65536)%Z
    by (change 65536%Z with (256 * 256)%Z; apply Z.rem_mul_r; lia).
  unfold wrap16.
  destruct (Z_lt_le_dec k 0).
  - replace (k mod 65536)%Z with (k + 65536)%Z
      by (apply Z.mod_unique with (-1)%Z; lia).
    replace (k + 65536 + 32768)%Z with (k + 32768 + 1 * 65536)%Z by lia.
    rewrite Z.mod_add by lia. rewrite Z.mod_small by lia. lia.
  - rewrite (Z.mod_small k) by lia. rewrite Z.mod_small by lia. lia.
Qed.

Lemma frombuffer_tobytes (pcm16 : list Z) :
  Forall (fun k => -32768 <= k <= 32767)%Z pcm16 ->
  frombuffer_int16 (tobytes pcm16) = Some pcm16.
Proof.
  induction 1 as [|k l Hk _ IH]; [reflexivity|].
  unfold tobytes in *. simpl. rewrite IH, (int16_of_bytes k Hk). reflexivity.
Qed.

Lemma tobytes_length (pcm16 : list Z) :
  length (tobytes pcm16) = (2 * length pcm16)%nat.
Proof. unfold tobytes. induction pcm16 as [|k l IH]; simpl; lia. Qed.

End Samples.

(** ** The export conversion in binary32 *)

Lemma div_pow2_small (m : positive) (p : positive) :
  Zpos m < 2 ^ 24 -> 9 <= Zpos p -> 0 <= Zpos m / 2 ^ Zpos p <= 32767.
Proof.
  intros Hm Hp.
  assert (Hpos : 0 < 2 ^ Zpos p) by (apply Z.pow_pos_nonneg; lia).
  split; [apply Z.div_pos; lia|].
  assert (Zpos m / 2 ^ Zpos p < 32768); [|lia].
  apply Z.div_lt_upper_bound; [exact Hpos|].
  change 32768 with (2 ^ 15). rewrite <- Z.pow_add_r by lia.
  eapply Z.lt_le_trans; [exact Hm|]. apply Z.pow_le_mono_r; lia.
Qed.

(** A finite binary32 number, clipped, has its integer part in the 16-bit
    range. *)
Lemma clip_trunc_finite (s : bool) (m : positive) (e : Z) :
  Zpos m < 2 ^ 24 ->
  exists j,
    Binary32.trunc (Binary32.clip (S754_finite s m e)
                      (S754_finite true 8388608 (-8))
                      (S754_finite false 16776704 (-9))) = Some j /\
    -32768 <= j <= 32767.
Proof.
  intros Hm. assert (Hm' : Zpos m < 16777216) by exact Hm.
  unfold Binary32.clip, Binary32.maximum, Binary32.minimum.
  simpl Binary32.is_nan. cbv iota. unfold SFltb, SFcompare.
  destruct s.
  - cbv iota. destruct (Z.compare_spec e (-8)) as [->|He|He].
    + rewrite Pos.compare_cont_spec.
      destruct (Pos.compare_spec m 8388608) as [->|Hlt|Hgt];
        try apply Pos2Z.pos_lt_pos in Hlt; try apply Pos2Z.pos_lt_pos in Hgt;
        cbn [CompOpp Pos.switch_Eq]; cbv iota.
      * eexists; split; [reflexivity|]. vm_compute. split; discriminate.
      * eexists; split; [reflexivity|]. cbn [cond_Zopp]. change (2 ^ 8) with 256.
        clear Hm. assert (Zpos m / 256 <= 32768) by (apply Z.div_le_upper_bound; lia).
        assert (0 <= Zpos m / 256) by (apply Z.div_pos; lia).
        generalize dependent (Zpos m / 256). intros; lia.
      * eexists; split; [reflexivity|]. vm_compute. split; discriminate.
    + simpl. destruct e as [|p|p]; try lia.
      eexists; split; [reflexivity|].
      pose proof (div_pow2_small m p Hm ltac:(lia)). simpl. lia.
    + simpl. eexists; split; [reflexivity|]. vm_compute. split; discriminate.
  - cbv iota. destruct (Z.compare_spec (-9) e) as [<-|He|He].
    + rewrite Pos.compare_cont_spec.
      destruct (Pos.compare_spec 16776704 m) as [<-|Hlt|Hgt];
        try apply Pos2Z.pos_lt_pos in Hlt; try apply Pos2Z.pos_lt_pos in Hgt;
        cbn [Pos.switch_Eq]; cbv iota.
      * eexists; split; [reflexivity|]. vm_compute. split; discriminate.
      * eexists; split; [reflexivity|]. vm_compute. split; discriminate.
      * eexists; split; [reflexivity|]. cbn [cond_Zopp]. change (2 ^ 9) with 512.
        clear Hm. assert (Zpos m / 512 <= 32767) by (apply Z.div_le_upper_bound; lia).
        assert (0 <= Zpos m / 512) by (apply Z.div_pos; lia).
        generalize dependent (Zpos m / 512). intros; lia.
    + simpl. eexists; split; [reflexivity|]. vm_compute. split; discriminate.
    + simpl. destruct e as [|p|p]; try lia.
      eexists; split; [reflexivity|].
      pose proof (div_pow2_small m p Hm ltac:(lia)). simpl. lia.
Qed.

(** In binary32 arithmetic too, every sample that is not a NaN is exported
    as an integer in the 16-bit range, and the cast does not wrap. *)
Lemma binary32_to_pcm16_range (x : spec_float) :
  Binary32.is_nan x = false ->
  exists j,
    Binary32.trunc (Binary32.clip (Binary32.mul x (Binary32.of_Z 32767))
                      (Binary32.of_Z (-32768)) (Binary32.of_Z 32767)) = Some j /\
    -32768 <= j <= 32767 /\
    Binary32.to_pcm16 x = Some j.
Proof.
  intros Hx.
  enough (exists j,
    Binary32.trunc (Binary32.clip (Binary32.mul x (Binary32.of_Z 32767))
                      (Binary32.of_Z (-32768)) (Binary32.of_Z 32767)) = Some j /\
    -32768 <= j <= 32767) as (j & Hj & Hr).
  { exists j. split; [exact Hj|]. split; [exact Hr|].
    unfold Binary32.to_pcm16. rewrite Hj. simpl. rewrite wrap16_small by exact Hr.
    reflexivity. }
  change (Binary32.of_Z 32767) with (S754_finite false 16776704 (-9)).
  change (Binary32.of_Z (-32768)) with (S754_finite true 8388608 (-8)).
  assert (Zero : forall s, exists j,
    Binary32.trunc (Binary32.clip (S754_zero s) (S754_finite true 8388608 (-8))
                      (S754_finite false 16776704 (-9))) = Some j /\ -32768 <= j <= 32767).
  { intros s. exists 0. split; [reflexivity | lia]. }
  assert (Inf : forall s, exists j,
    Binary32.trunc (Binary32.clip (S754_infinity s) (S754_finite true 8388608 (-8))
                      (S754_finite false 16776704 (-9))) = Some j /\ -32768 <= j <= 32767).
  { intros [|]; eexists; (split; [reflexivity|]); vm_compute; split; discriminate. }
  destruct x as [s|s| |s m e]; simpl Binary32.mul.
  - apply Zero.
  - apply Inf.
  - discriminate.
  - unfold Binary32.mul, SFmul.
    pose proof (binary_round_aux_bounded 24 128 eq_refl (xorb s false)
                  (m * 16776704) (e + -9) loc_Exact) as B.
    destruct (binary_round_aux 24 128 (xorb s false) (Z.pos (m * 16776704)) (e + -9) loc_Exact)
      as [s'|s'| |s' m' e'].
    + apply Zero.
    + apply Inf.
    + contradiction.
    + apply clip_trunc_finite. exact B.
Qed.

Example binary32_to_pcm16_out_of_range :
  Binary32.to_pcm16 (Binary32.of_Z 2) = Some 32767 /\
  Binary32.to_pcm16 (Binary32.of_Z (-3)) = Some (-32768) /\
  Binary32.to_pcm16 (S754_infinity false) = Some 32767 /\
  Binary32.to_pcm16 S754_nan = None.
Proof. repeat split; vm_compute; reflexivity. Qed.

(** ** Export *)

(** What [write_pcm] does, case by case: the file cannot be opened; it is
    opened, which empties it, and then the frame rate is refused, or the
    header does not fit, or the write fails, or the samples are written. *)
Lemma write_pcm_spec (P : platform) (path : string) (pcm : list Q)
    (samplerate : Z) (w : world) :
  let opened f := World (<[path := f]> (fs w)) (com_count w)
                        (trace w ++ [EvWaveWrite path]) in
  write_pcm P path pcm samplerate w =
    match open_for_write P path with
    | Some e => (Raise e, w)
    | None =>
        if (samplerate <=? 0)%Z then
          (Raise (Exn WaveError "sampling rate not specified"), opened EmptyFile)
        else if ((4294967295 <? 2 * samplerate)
                 || (4294967295 <? 36 + 2 * Z.of_nat (length pcm)))%Z then
          (Raise (Exn StructError "'L' format requires 0 <= number <= 4294967295"),
           opened (Damaged (Exn WaveError "not a WAVE file")))
        else
          match write_frames P path with
          | Some (rest, e) => (Raise e, opened rest)
          | None => (Ok tt, opened (WavFile 1 2 samplerate (tobytes (map to_pcm16 pcm))))
          end
    end.
Proof.
  unfold write_pcm, mbind, M_bind, bind, may_raise, emit, put_file, raise.
  rewrite length_map.
  destruct (open_for_write P path); simpl; [reflexivity|].
  destruct (samplerate <=? 0)%Z; simpl; [reflexivity|].
  destruct (_ || _); simpl; [rewrite insert_insert_eq; reflexivity|].
  destruct (write_frames P path) as [[rest e]|]; simpl;
    rewrite insert_insert_eq; reflexivity.
Qed.

(** [write_pcm] returns exactly when the file can be opened, the frame rate
    is positive, rate and length fit the 32-bit fields of the header, and
    the write itself does not fail; the file then holds the samples. *)
Lemma write_pcm_ok (P : platform) (path : string) (pcm : list Q)
    (samplerate : Z) (w : world) :
  ((write_pcm P path pcm samplerate w).1 = Ok tt <->
     open_for_write P path = None /\
     0 < samplerate <= 2147483647 /\
     Z.of_nat (length pcm) <= 2147483629 /\
     write_frames P path = None) /\
  ((write_pcm P path pcm samplerate w).1 = Ok tt ->
     (write_pcm P path pcm samplerate w).2 =
       World (<[path := WavFile 1 2 samplerate (tobytes (map to_pcm16 pcm))]> (fs w))
             (com_count w) (trace w ++ [EvWaveWrite path])).
Proof.
  rewrite write_pcm_spec. cbv zeta.
  destruct (open_for_write P path) as [e|]; simpl.
  { split; [split; [discriminate | intros [[=] _]] | discriminate]. }
  destruct (Z.leb_spec samplerate 0); simpl.
  { split; [split; [discriminate | intros (_ & ? & _); lia] | discriminate]. }
  destruct (Z.ltb_spec 4294967295 (2 * samplerate)); simpl.
  { split; [split; [discriminate | intros (_ & ? & _); lia] | discriminate]. }
  destruct (Z.ltb_spec 4294967295 (36 + 2 * Z.of_nat (length pcm))); simpl.
  { split; [split; [discriminate | intros (_ & _ & ? & _); lia] | discriminate]. }
  destruct (write_frames P path) as [[rest e]|]; simpl.
  { split; [split; [discriminate | intros (_ & _ & _ & [=])] | discriminate]. }
  split; [|reflexivity]. split; [intros _|reflexivity].
  split; [reflexivity|]. split; [lia|]. split; [lia|reflexivity].
Qed.

(** C10. For every buffer given to the conversion of [export_wav], with
    samples of any size: each scaled sample is clipped into
    [-32768, 32767] before the cast, the cast then changes no value (the
    16-bit word never wraps), every exported sample lies in the 16-bit
    range, and the bytes written to the WAV file decode to exactly these
    samples.  The file is written when it can be opened, the frame rate is
    positive, rate and length fit the header, and the write does not fail.
    The same holds in binary32 arithmetic for every sample that is not a
    NaN, the infinities included. *)
Theorem exported_samples_fit_int16 (P : platform) (path : string)
    (pcm : list Q) (samplerate : Z) (w : world) :
  let pcm16 := map to_pcm16 pcm in
  Forall (fun x => -32768 <= clip (x * 32767) (-32768) 32767 <= 32767)%Q pcm /\
  pcm16 = map (fun x => Qtrunc (clip (x * 32767) (-32768) 32767)) pcm /\
  Forall (fun k => -32768 <= k <= 32767) pcm16 /\
  frombuffer_int16 (tobytes pcm16) = Some pcm16 /\
  match open_for_write P path with
  | None =>
      ((write_pcm P path pcm samplerate w).1 = Ok tt <->
         0 < samplerate <= 2147483647 /\
         Z.of_nat (length pcm) <= 2147483629 /\
         write_frames P path = None) /\
      ((write_pcm P path pcm samplerate w).1 = Ok tt ->
         fs (write_pcm P path pcm samplerate w).2 !! path =
           Some (WavFile 1 2 samplerate (tobytes pcm16)))
  | Some e => write_pcm P path pcm samplerate w = (Raise e, w)
  end /\
  (forall x32, Binary32.is_nan x32 = false ->
     exists j,
       Binary32.trunc (Binary32.clip (Binary32.mul x32 (Binary32.of_Z 32767))
                         (Binary32.of_Z (-32768)) (Binary32.of_Z 32767)) = Some j /\
       -32768 <= j <= 32767 /\
       Binary32.to_pcm16 x32 = Some j).
Proof.
  cbv zeta.
  assert (R : Forall (fun k => -32768 <= k <= 32767) (map to_pcm16 pcm)).
  { apply List.Forall_forall. intros k Hk. apply List.in_map_iff in Hk as (x & <- & _).
    apply to_pcm16_spec. }
  split; [|split; [|split; [exact R|split; [|split]]]].
  - apply List.Forall_forall. intros x _. apply to_pcm16_spec.
  - apply map_ext. intros x. apply to_pcm16_spec.
  - apply frombuffer_tobytes. exact R.
  - destruct (write_pcm_ok P path pcm samplerate w) as [Hiff Hfile].
    destruct (open_for_write P path) as [e|] eqn:Hopen.
    + rewrite write_pcm_spec, Hopen. reflexivity.
    + split.
      * rewrite Hiff. split; [intros (_ & H); exact H | intros H; split; [reflexivity|exact H]].
      * intros Hok. rewrite (Hfile Hok). apply lookup_insert_eq.
  - exact binary32_to_pcm16_range.
Qed.

(** Samples beyond full scale come out as the ends of the range; the cast
    alone would wrap. *)
Example to_pcm16_out_of_range :
  to_pcm16 2 = 32767 /\ to_pcm16 (-3) = -32768 /\ to_pcm16 1 = 32767 /\
  to_pcm16 (-1) = -32767 /\ astype_int16 (2 * 32767) = -2.
Proof. repeat split. Qed.

Section RoundTrip.
Local Open Scope Q_scope.

(** A sample on the 16-bit grid comes back one step closer to zero, zero
    as zero. *)
Lemma grid_round_trip (k : Z) :
  (-32768 <= k <= 32767)%Z ->
  to_pcm16 (of_pcm16 k) = (k - Z.sgn k)%Z /\
  Qabs (of_pcm16 (to_pcm16 (of_pcm16 k)) - of_pcm16 k) <= 1 # 32768.
Proof.
  intros Hk.
  assert (E : to_pcm16 (of_pcm16 k) = (k - Z.sgn k)%Z).
  { unfold to_pcm16, of_pcm16. rewrite clip_inside by (unfold Qle; simpl; lia).
    unfold astype_int16, Qtrunc. simpl Qnum. simpl Qden.
    replace (k * 1 * 32767)%Z with (k * 32767)%Z by lia.
    assert (Q : ((k * 32767) ÷ 32768 = k - Z.sgn k)%Z).
    { destruct (Z.lt_trichotomy k 0) as [Hn|[->|Hp]]; [| reflexivity |].
      - replace (k * 32767)%Z with (- (- k * 32767))%Z by lia.
        rewrite Z.quot_opp_l by lia. rewrite Z.quot_div_nonneg by lia.
        rewrite <- (Z.div_unique (- k * 32767) 32768 (- k - 1) (32768 + k)) by lia.
        rewrite Z.sgn_neg by lia. lia.
      - rewrite Z.quot_div_nonneg by lia.
        rewrite <- (Z.div_unique (k * 32767) 32768 (k - 1) (32768 - k)) by lia.
        rewrite Z.sgn_pos by lia. lia. }
    change (Z.pos (1 * 32768 * 1)) with 32768%Z.
    rewrite Q. apply wrap16_small. lia. }
  split; [exact E|]. rewrite E.
  apply Qabs_Qle_condition.
  unfold of_pcm16, Qle, Qdiv, Qminus, Qplus, Qmult, Qinv, Qopp; simpl.
  split; lia.
Qed.

End RoundTrip.

(** ** The samples that [export_wav] receives *)

Lemma frombuffer_int16_range (frames : list Byte.byte) (ks : list Z) :
  frombuffer_int16 frames = Some ks -> Forall (fun k => -32768 <= k <= 32767) ks.
Proof.
  revert ks.
  assert (H : (forall ks, frombuffer_int16 frames = Some ks ->
                 Forall (fun k => -32768 <= k <= 32767) ks) /\
              (forall b ks, frombuffer_int16 (b :: frames) = Some ks ->
                 Forall (fun k => -32768 <= k <= 32767) ks)).
  { induction frames as [|hi frames [IH1 IH2]].
    - split; [intros ks [= <-]; constructor | intros b ks [=]].
    - split; [exact (IH2 hi)|].
      intros lo ks. simpl.
      destruct (frombuffer_int16 frames) as [ks'|] eqn:E; [|discriminate].
      intros [= <-]. constructor; [apply wrap16_range | apply IH1; reflexivity]. }
  exact (proj1 H).
Qed.

Lemma read_pcm_samples (P : platform) (path : string) (w w' : world)
    (pcm : list Q) (samplerate : Z) :
  read_pcm P path w = (Ok (pcm, samplerate), w') ->
  exists ks, pcm = map of_pcm16 ks /\ Forall (fun k => -32768 <= k <= 32767) ks.
Proof.
  unfold read_pcm, wave_read, mbind, M_bind, bind.
  destruct (fs w !! path) as [f|]; [|discriminate].
  destruct (held f && win32 P); [discriminate|].
  destruct (wave_parse f) as [[frames sr]|e]; [|discriminate].
  destruct (frombuffer_int16 frames) as [ks|] eqn:E; [|discriminate].
  intros [= <- _ _]. exists ks. split; [reflexivity|].
  exact (frombuffer_int16_range _ _ E).
Qed.

(** Reading a WAV file that nothing holds gives its frames as samples. *)
Lemma read_pcm_wav (P : platform) (path : string) (w : world)
    (nchannels sampwidth samplerate : Z) (ks : list Z) :
  fs w !! path = Some (WavFile nchannels sampwidth samplerate (tobytes ks)) ->
  Forall (fun k => -32768 <= k <= 32767) ks ->
  read_pcm P path w = (Ok (map of_pcm16 ks, samplerate), w).
Proof.
  intros Hf Hks. unfold read_pcm, wave_read, mbind, M_bind, bind.
  rewrite Hf. simpl. rewrite (frombuffer_tobytes _ Hks). reflexivity.
Qed.

(** A buffer that [synth_pcm16] returns was read from 16-bit samples. *)
Lemma synth_pcm16_samples (P : platform) (t : tid) (text : string) (rate volume : Z)
    (voice_token_id : option string) (w w' : world) (pcm : list Q) (samplerate : Z) :
  synth_pcm16 P t text rate volume voice_token_id w = (Ok (pcm, samplerate), w') ->
  exists ks, pcm = map of_pcm16 ks /\ Forall (fun k => -32768 <= k <= 32767) ks.
Proof.
  unfold synth_pcm16.
  destruct (truthy (strip (str_or text ""))); simpl.
  2:{ intros [= <- _ _]. exists []. split; [reflexivity | constructor]. }
  unfold mbind, M_bind, bind.
  destruct (mkstemp_wav P w) as [[p|e] w0]; [|discriminate].
  intros H.
  pose proof (try_finally_ok
    (synth_try P t (strip (str_or text "")) rate volume voice_token_id p)
    (synth_finally P p) w0 (pcm, samplerate)) as E.
  rewrite H in E. specialize (E eq_refl).
  unfold synth_try, mbind, M_bind, bind in E.
  destruct (_com_scope P t _ w0) as [[[]|e] w1]; [|discriminate].
  destruct (read_pcm P p w1) as [[[pcm' sr']|e] w2] eqn:R; [|discriminate].
  simpl in E. injection E as <- <-.
  exact (read_pcm_samples _ _ _ _ _ _ R).
Qed.

(** C7. The buffers that the export conversion receives are those that
    [synth_pcm16] returns, with samples [k / 32768] for 16-bit [k].  Every
    such buffer that is not empty, written by the conversion of
    [export_wav] and read back by the conversion of [synth_pcm16], comes
    back with the same length and with each sample at most one 16-bit
    quantization step (1/32768) from the original: the sample [k / 32768]
    is written as [k] moved one towards zero, in exact and in binary32
    arithmetic alike.  The bytes of the file decode to the integers
    written, and when [export_wav] returns, reading its file gives the
    buffer that came back, at the sample rate of the synthesis. *)
Theorem export_then_read_back (P : platform) (t : tid) (text path : string)
    (rate volume : Z) (voice_token_id : option string) (w w1 : world)
    (pcm : list Q) (samplerate : Z) :
  synth_pcm16 P t text rate volume voice_token_id w = (Ok (pcm, samplerate), w1) ->
  pcm <> [] ->
  let written := map to_pcm16 pcm in
  let back := map of_pcm16 written in
  length back = length pcm /\
  Forall2 (fun x y => Qabs (y - x) <= 1 # 32768)%Q pcm back /\
  frombuffer_int16 (tobytes written) = Some written /\
  (forall w2, export_wav P t text path rate volume voice_token_id w = (Ok tt, w2) ->
     read_pcm P path w2 = (Ok (back, samplerate), w2)) /\
  exists ks,
    pcm = map of_pcm16 ks /\
    Forall (fun k =>
      -32768 <= k <= 32767 /\
      to_pcm16 (of_pcm16 k) = k - Z.sgn k /\
      (Binary32.to_Q (Binary32.of_pcm16 k) == of_pcm16 k)%Q /\
      Binary32.to_pcm16 (Binary32.of_pcm16 k) = Some (k - Z.sgn k)) ks.
Proof.
  intros Hsyn Hne. cbv zeta.
  destruct (synth_pcm16_samples _ _ _ _ _ _ _ _ _ _ Hsyn) as (ks & E & Hks).
  assert (R : Forall (fun k => -32768 <= k <= 32767) (map to_pcm16 pcm)).
  { apply List.Forall_forall. intros k Hk. apply List.in_map_iff in Hk as (x & <- & _).
    apply to_pcm16_spec. }
  split; [|split; [|split; [|split]]].
  - rewrite !length_map. reflexivity.
  - rewrite E. clear -Hks. induction Hks as [|k ks Hk _ IH]; simpl; constructor.
    + exact (proj2 (grid_round_trip k Hk)).
    + exact IH.
  - apply frombuffer_tobytes. exact R.
  - intros w2. unfold export_wav, mbind, M_bind, bind. rewrite Hsyn.
    destruct pcm as [|x rest]; [congruence|].
    intros Hw.
    pose proof (proj2 (write_pcm_ok P path (x :: rest) samplerate w1)) as Hfile.
    rewrite Hw in Hfile. specialize (Hfile eq_refl). simpl in Hfile. subst w2.
    apply (read_pcm_wav _ _ _ 1 2); [apply lookup_insert_eq | exact R].
  - exists ks. split; [exact E|].
    eapply Forall_impl; [exact Hks|]. intros k Hk.
    destruct (grid_round_trip k Hk) as [G _].
    destruct (binary32_agrees_on_grid k Hk) as [B W].
    rewrite G in W. split; [exact Hk|]. split; [exact G|]. split; [exact B|exact W].
Qed.

Lemma export_then_read_back_witness :
  let pcm := [16384 # 32768; -32768 # 32768; 1 # 32768]%Q in
  let call := synth_pcm16 Demo.windows 0%nat "hello" 0 100 None Demo.boot in
  let w2 := (export_wav Demo.windows 0%nat "hello" "out.wav" 0 100 None Demo.boot).2 in
  call = (Ok (pcm, 16000), call.2) /\
  pcm <> [] /\
  map to_pcm16 pcm = [16383; -32767; 0] /\
  Forall2 (fun x y => Qabs (y - x) <= 1 # 32768)%Q pcm
    [16383 # 32768; -32767 # 32768; 0 # 32768]%Q /\
  read_pcm Demo.windows "out.wav" w2 =
    (Ok ([16383 # 32768; -32767 # 32768; 0 # 32768]%Q, 16000), w2).
Proof.
  intros pcm call w2.
  assert (H : call = (Ok (pcm, 16000), call.2)) by (vm_compute; reflexivity).
  assert (Hne : pcm <> []) by discriminate.
  split; [exact H|]. split; [exact Hne|]. split; [reflexivity|].
  destruct (export_then_read_back Demo.windows 0%nat "hello" "out.wav" 0 100 None
              Demo.boot call.2 pcm 16000 H Hne) as (_ & Hclose & _ & Hread & _).
  split; [exact Hclose|].
  apply (Hread w2). vm_compute. reflexivity.
Defined.

(** * Further properties *)
(** ** Stripping *)

Lemma append_cons (x : ascii) (a b : string) : String x a +:+ b = String x (a +:+ b).
Proof. reflexivity. Qed.

Lemma append_assoc (a b c : string) : (a +:+ b) +:+ c = a +:+ (b +:+ c).
Proof.
  induction a as [|x a IH]; [reflexivity|].
  rewrite !append_cons, IH. reflexivity.
Qed.

Lemma rev_app_spec (s1 s2 : string) : String.rev_app s1 s2 = String.rev s1 +:+ s2.
Proof.
  unfold String.rev. revert s2.
  induction s1 as [|c s1 IH]; intros s2; simpl; [reflexivity|].
  rewrite IH, (IH (String c "")), append_assoc. reflexivity.
Qed.

Lemma rev_cons (c : ascii) (s : string) :
  String.rev (String c s) = String.rev s +:+ String c "".
Proof. unfold String.rev at 1. simpl. apply rev_app_spec. Qed.

Lemma rev_snoc (s : string) (c : ascii) :
  String.rev (s +:+ String c "") = String c (String.rev s).
Proof.
  induction s as [|x s IH]; [reflexivity|].
  rewrite append_cons, !rev_cons, IH. reflexivity.
Qed.

Lemma rev_involutive (s : string) : String.rev (String.rev s) = s.
Proof.
  induction s as [|c s IH]; [reflexivity|].
  rewrite rev_cons, rev_snoc, IH. reflexivity.
Qed.

Lemma lstrip_idempotent (s : string) : lstrip (lstrip s) = lstrip s.
Proof.
  induction s as [|c s IH]; simpl; [reflexivity|].
  destruct (isspace c) eqn:E; [exact IH|]. simpl. rewrite E. reflexivity.
Qed.

(** Stripping on the left keeps a last character that is no whitespace. *)
Lemma lstrip_snoc (s : string) (c : ascii) :
  isspace c = false -> exists s', lstrip (s +:+ String c "") = s' +:+ String c "".
Proof.
  intros Hc. induction s as [|x s IH].
  - exists "". simpl. rewrite Hc. reflexivity.
  - rewrite append_cons. simpl. destruct (isspace x); [exact IH|].
    exists (String x s). reflexivity.
Qed.

Lemma rstrip_idempotent (s : string) : rstrip (rstrip s) = rstrip s.
Proof. unfold rstrip. rewrite rev_involutive, lstrip_idempotent. reflexivity. Qed.

(** Stripping on the right leaves alone the left end of a string that is
    stripped on the left. *)
Lemma lstrip_rstrip_lstrip (s : string) : lstrip (rstrip (lstrip s)) = rstrip (lstrip s).
Proof.
  assert (H : lstrip s = "" \/ exists c s', lstrip s = String c s' /\ isspace c = false).
  { induction s as [|c s IH]; simpl; [left; reflexivity|].
    destruct (isspace c) eqn:E; [exact IH|]. right. eauto. }
  destruct H as [->|(c & s' & -> & Hc)]; [reflexivity|].
  unfold rstrip. rewrite rev_cons.
  destruct (lstrip_snoc (String.rev s') c Hc) as [y ->].
  rewrite rev_snoc. simpl. rewrite Hc. reflexivity.
Qed.

Lemma strip_idempotent (s : string) : strip (strip s) = strip s.
Proof. unfold strip. rewrite lstrip_rstrip_lstrip. apply rstrip_idempotent. Qed.

Lemma str_or_empty (s : string) : str_or s "" = s.
Proof. destruct s; reflexivity. Qed.

(** What is left of a stripped text neither starts nor ends with
    whitespace. *)
Lemma strip_ends (s : string) :
  lstrip (strip s) = strip s /\ rstrip (strip s) = strip s.
Proof.
  unfold strip. split; [apply lstrip_rstrip_lstrip | apply rstrip_idempotent].
Qed.

(** ** The samples that synthesis returns *)

Lemma of_pcm16_range (k : Z) :
  -32768 <= k <= 32767 -> (-1 <= of_pcm16 k /\ of_pcm16 k <= 32767 # 32768)%Q.
Proof.
  intros Hk. unfold of_pcm16, Qle, Qdiv, Qmult, Qinv; simpl. lia.
Qed.

(** X1. Whatever [synth_pcm16] returns was read from 16-bit samples: each
    sample of the buffer is [k / 32768] for a 16-bit integer [k], so it
    lies between -1 and 32767/32768; full positive scale does not occur.
    Reading in binary32 gives these numbers exactly. *)
Theorem synth_pcm16_samples_on_grid (P : platform) (t : tid) (text : string)
    (rate volume : Z) (voice_token_id : option string) (w w' : world)
    (pcm : list Q) (samplerate : Z) :
  synth_pcm16 P t text rate volume voice_token_id w = (Ok (pcm, samplerate), w') ->
  exists ks,
    pcm = map of_pcm16 ks /\
    Forall (fun k => -32768 <= k <= 32767) ks /\
    Forall (fun x => -1 <= x /\ x <= 32767 # 32768 /\ x < 1)%Q pcm /\
    Forall (fun k => Binary32.to_Q (Binary32.of_pcm16 k) == of_pcm16 k)%Q ks.
Proof.
  intros H. destruct (synth_pcm16_samples _ _ _ _ _ _ _ _ _ _ H) as (ks & -> & Hks).
  exists ks. split; [reflexivity|]. split; [exact Hks|]. split.
  - apply List.Forall_forall. intros x Hx.
    apply List.in_map_iff in Hx as (k & <- & Hk).
    rewrite List.Forall_forall in Hks.
    destruct (of_pcm16_range k (Hks k Hk)) as [Hlo Hhi].
    split; [exact Hlo|]. split; [exact Hhi|].
    eapply Qle_lt_trans; [exact Hhi | reflexivity].
  - eapply Forall_impl; [exact Hks|]. intros k Hk.
    exact (proj1 (binary32_agrees_on_grid k Hk)).
Qed.

Lemma synth_pcm16_samples_on_grid_witness :
  let call := synth_pcm16 Demo.windows 0%nat "hello" 0 100 None Demo.boot in
  call = (Ok ([16384 # 32768; -32768 # 32768; 1 # 32768]%Q, 16000), call.2) /\
  exists ks,
    [16384 # 32768; -32768 # 32768; 1 # 32768]%Q = map of_pcm16 ks /\
    Forall (fun k => -32768 <= k <= 32767) ks.
Proof.
  intros call.
  assert (H : call = (Ok ([16384 # 32768; -32768 # 32768; 1 # 32768]%Q, 16000), call.2))
    by (vm_compute; reflexivity).
  split; [exact H|].
  destruct (synth_pcm16_samples_on_grid Demo.windows 0%nat "hello" 0 100 None
              Demo.boot call.2 _ 16000 H) as (ks & E & Hks & _).
  exists ks. split; assumption.
Defined.

(** X2. Whitespace around the text does not count: a text and the same
    text stripped are synthesized, exported and spoken in the same way, on
    every machine and in every state.  A caller that strips the text first
    changes nothing. *)
Theorem synth_pcm16_ignores_surrounding_whitespace (P : platform) (t : tid)
    (text path : string) (rate volume : Z) (voice_token_id : option string)
    (self : TalkAsMicService) (w : world) :
  synth_pcm16 P t (strip text) rate volume voice_token_id w =
    synth_pcm16 P t text rate volume voice_token_id w /\
  export_wav P t (strip text) path rate volume voice_token_id w =
    export_wav P t text path rate volume voice_token_id w /\
  synthesize P t self (strip text) w = synthesize P t self text w /\
  speak P t self (strip text) w = speak P t self text w.
Proof.
  assert (E : forall r v vt, synth_pcm16 P t (strip text) r v vt = synth_pcm16 P t text r v vt).
  { intros. unfold synth_pcm16. rewrite !str_or_empty, strip_idempotent. reflexivity. }
  unfold speak, synthesize, export_wav. rewrite !E. repeat split.
Qed.

Example synth_pcm16_padded_text :
  synth_pcm16 Demo.windows 0%nat "  hello
 " 0 100 None Demo.boot =
  synth_pcm16 Demo.windows 0%nat "hello" 0 100 None Demo.boot.
Proof. vm_compute. reflexivity. Qed.

(** ** What a call of [synth_pcm16] does to the outside *)

Global Instance adds_only_preorder (ok : event -> bool) : PreOrder (adds_only ok).
Proof.
  split.
  - intros w. exists []. split; [symmetry; apply app_nil_r | reflexivity].
  - intros w1 w2 w3 (e1 & H1 & O1) (e2 & H2 & O2). exists (e1 ++ e2)%list. split.
    + rewrite H2, H1, app_assoc. reflexivity.
    + rewrite forallb_app, O1, O2. reflexivity.
Qed.

Lemma adds_one (ok : event -> bool) (w w' : world) (e : event) :
  trace w' = (trace w ++ [e])%list -> ok e = true -> adds_only ok w w'.
Proof. intros Ht He. exists [e]. split; [exact Ht|]. simpl. rewrite He. reflexivity. Qed.

Lemma adds_none (ok : event -> bool) (w w' : world) :
  trace w' = trace w -> adds_only ok w w'.
Proof. intros Ht. exists []. split; [rewrite Ht, app_nil_r; reflexivity | reflexivity]. Qed.

Section Adds.
Context (P : platform) (ok : event -> bool).

Lemma adds_emit (e : event) : ok e = true -> keeps (adds_only ok) (emit e).
Proof. intros He w. eapply adds_one; eauto. Qed.

Lemma adds_set_count (t : tid) (v : Z) : keeps (adds_only ok) (set_count t v).
Proof. intros w. apply adds_none. reflexivity. Qed.

Lemma adds_put_file (path : string) (f : file) : keeps (adds_only ok) (put_file path f).
Proof. intros w. apply adds_none. reflexivity. Qed.

Lemma adds_alter_file (change : file -> file) (path : string) :
  keeps (adds_only ok) (alter_file change path).
Proof. intros w. apply adds_none. reflexivity. Qed.

Lemma adds_os_remove (path : string) :
  ok (EvRemove path) = true -> keeps (adds_only ok) (os_remove P path).
Proof.
  intros He w. unfold os_remove. destruct (fs w !! path) as [f|]; simpl; [|reflexivity].
  destruct (held f && win32 P); simpl; [reflexivity|].
  eapply adds_one; eauto.
Qed.

Lemma adds_Speak text rate volume voice path :
  ok (EvSpeak text path) = true ->
  keeps (adds_only ok) (Speak P text rate volume voice path).
Proof.
  intros He w. unfold Speak.
  destruct (sapi_render P text rate volume voice path (fs w)) as [fs' [e|]]; simpl;
    eapply adds_one; eauto.
Qed.

Lemma adds_render text rate volume voice path :
  ok (EvSpeak text path) = true ->
  keeps (adds_only ok) (render P text rate volume voice path).
Proof.
  intros He. unfold render, stream_Open, stream_Close.
  apply keeps_mbind; preorder; [|intros ?].
  { apply keeps_mbind; preorder; [apply keeps_may_raise; preorder|intros ?].
    apply adds_put_file. }
  apply keeps_mbind; preorder; [apply adds_Speak; exact He|intros ?].
  apply keeps_mbind; preorder; [apply keeps_may_raise; preorder|intros ?].
  apply adds_alter_file.
Qed.

Lemma adds_wave_read path : keeps (adds_only ok) (wave_read P path).
Proof.
  intros w. unfold wave_read.
  destruct (fs w !! path) as [f|]; [destruct (held f && win32 P)|]; reflexivity.
Qed.

Lemma adds_CreateObject progid :
  ok (EvCreateObject progid) = true -> keeps (adds_only ok) (CreateObject P progid).
Proof.
  intros He. unfold CreateObject. apply keeps_mbind; preorder; [|intros ?].
  - apply adds_emit. exact He.
  - apply keeps_may_raise; preorder.
Qed.

Lemma adds_ensure_windows : keeps (adds_only ok) (_ensure_windows P).
Proof.
  unfold _ensure_windows.
  repeat match goal with |- keeps _ (if ?b then _ else _) => destruct b end;
    first [apply keeps_raise | apply keeps_ret]; preorder.
Qed.

Lemma adds_com_scope {A} (t : tid) (body : M A) :
  ok (EvCoInitialize t) = true -> ok (EvCoUninitialize t) = true ->
  keeps (adds_only ok) body -> keeps (adds_only ok) (_com_scope P t body).
Proof.
  intros H1 H2 Hb. unfold _com_scope.
  destruct (bool_decide _); [apply keeps_raise; preorder|].
  apply keeps_mbind; preorder; [apply keeps_get_count; preorder|intros c].
  destruct (0 <? c)%Z.
  - apply keeps_mbind; preorder; [apply adds_set_count|intros ?].
    apply keeps_try_finally; preorder; [exact Hb|].
    apply keeps_mbind; preorder; [apply keeps_get_count; preorder|intros ?].
    apply adds_set_count.
  - apply keeps_mbind; preorder; [apply keeps_may_raise; preorder|intros ?].
    apply keeps_mbind; preorder; [apply adds_emit; exact H1|intros ?].
    apply keeps_mbind; preorder; [apply adds_set_count|intros ?].
    apply keeps_try_finally; preorder; [exact Hb|].
    apply keeps_mbind; preorder; [apply adds_set_count|intros ?].
    apply adds_emit; exact H2.
Qed.

Lemma adds_create_voice (voice : option string) :
  ok (EvCreateObject "SAPI.SpVoice") = true ->
  (forall id, voice = Some id -> truthy id = true ->
     ok (EvCreateObject "SAPI.SpObjectToken") = true /\ ok (EvSelectVoice id) = true) ->
  keeps (adds_only ok) (_create_voice P voice).
Proof.
  intros H1 H2. unfold _create_voice.
  apply keeps_mbind; preorder; [apply adds_ensure_windows|intros ?].
  apply keeps_mbind; preorder; [apply adds_CreateObject; exact H1|intros ?].
  destruct voice as [id|]; [|apply keeps_ret; preorder].
  destruct (truthy id) eqn:T; [|apply keeps_ret; preorder].
  destruct (H2 id eq_refl T) as [H3 H4].
  apply keeps_try_except_raise; preorder.
  apply keeps_mbind; preorder; [apply adds_CreateObject; exact H3|intros ?].
  apply keeps_mbind; preorder; [apply adds_emit; exact H4|intros ?].
  apply keeps_may_raise; preorder.
Qed.

Lemma adds_read_pcm path : keeps (adds_only ok) (read_pcm P path).
Proof.
  unfold read_pcm. apply keeps_mbind; preorder; [apply adds_wave_read|intros [frames sr]].
  destruct (frombuffer_int16 frames); [apply keeps_ret | apply keeps_raise]; preorder.
Qed.

End Adds.

Lemma clamp_range (value lo hi : Z) : lo <= hi -> lo <= _clamp value lo hi <= hi.
Proof. unfold _clamp. lia. Qed.

(** Inside the [try] of [synth_pcm16], and in its [finally]. *)
Lemma adds_synth_try (P : platform) (t : tid) (text : string) (rate volume : Z)
    (voice : option string) (p : string) :
  truthy (strip text) = true ->
  keeps (adds_only (synth_event t text voice p))
    (try_finally (synth_try P t (strip text) rate volume voice p) (synth_finally P p)).
Proof.
  intros Htext.
  assert (Hp : String.eqb p p = true) by apply String.eqb_refl.
  apply keeps_try_finally; preorder.
  - unfold synth_try.
    apply keeps_mbind; preorder; [|intros ?; apply adds_read_pcm].
    apply adds_com_scope; [apply bool_decide_eq_true_2; reflexivity..|].
    apply keeps_mbind; preorder; [|intros ?].
    { apply adds_create_voice; [reflexivity|].
      intros id -> T. split; [reflexivity|]. simpl. rewrite T.
      rewrite bool_decide_eq_true_2 by reflexivity. reflexivity. }
    apply keeps_mbind; preorder; [|intros ?].
    { destruct (voices_count P =? 0)%Z; [apply keeps_raise | apply keeps_ret]; preorder. }
    apply keeps_mbind; preorder; [|intros ?].
    { apply adds_emit. simpl. pose proof (clamp_range rate (-10) 10 ltac:(lia)).
      apply andb_true_intro. split; apply Z.leb_le; lia. }
    apply keeps_mbind; preorder; [|intros ?].
    { apply adds_emit. simpl. pose proof (clamp_range volume 0 100 ltac:(lia)).
      apply andb_true_intro. split; apply Z.leb_le; lia. }
    apply keeps_mbind; preorder; [apply adds_CreateObject; reflexivity|intros ?].
    apply keeps_mbind; preorder; [apply adds_CreateObject; reflexivity|intros ?].
    apply adds_render. simpl. rewrite String.eqb_refl, Htext, Hp. reflexivity.
  - unfold synth_finally. apply keeps_try_except_pass; preorder.
    apply adds_os_remove. exact Hp.
Qed.

(** X3. Every call of [synth_pcm16] only adds to what has happened, and
    what it adds is of these kinds: the temporary file is created and
    removed, and [os.remove] is called on no other file; COM is initialized
    and uninitialized for the calling thread only; the four SAPI objects
    are created and no other; the voice selected is the one asked for, and
    none is selected for an empty token; the rate and the volume set lie in
    [-10, 10] and [0, 100]; the text spoken is the stripped text, which is
    not empty, and it is spoken into the temporary file.  No WAV file is
    written and nothing is played.  When no temporary file can be made
    nothing happens at all. *)
Theorem synth_pcm16_events (P : platform) (t : tid) (text : string)
    (rate volume : Z) (voice_token_id : option string) (w : world) :
  exists evs,
    trace (synth_pcm16 P t text rate volume voice_token_id w).2 = (trace w ++ evs)%list /\
    match mkstemp P (fs w) with
    | Ok p => forallb (synth_event t text voice_token_id p) evs = true
    | Raise _ => evs = []
    end.
Proof.
  unfold synth_pcm16. rewrite str_or_empty.
  destruct (truthy (strip text)) eqn:Htext; simpl.
  2:{ exists []. rewrite app_nil_r. split; [reflexivity|].
      destruct (mkstemp P (fs w)); reflexivity. }
  unfold mbind, M_bind, bind, mkstemp_wav.
  destruct (mkstemp P (fs w)) as [p|e] eqn:Hmk.
  2:{ exists []. rewrite app_nil_r. split; reflexivity. }
  set (created := World _ _ _).
  destruct (adds_synth_try P t text rate volume voice_token_id p Htext created)
    as (evs & Ht & Hok).
  exists (EvMkstemp p :: evs). split.
  - rewrite Ht. unfold created. simpl. rewrite <- app_assoc. reflexivity.
  - simpl. rewrite String.eqb_refl. exact Hok.
Qed.

Example synth_pcm16_events_windows :
  trace (synth_pcm16 Demo.windows 0%nat " hello " 3 250 (Some "") Demo.boot).2 =
    [EvMkstemp "tmp0.wav"; EvCoInitialize 0%nat; EvCreateObject "SAPI.SpVoice";
     EvSetRate 3; EvSetVolume 100;
     EvCreateObject "SAPI.SpFileStream"; EvCreateObject "SAPI.SpAudioFormat";
     EvSpeak "hello" "tmp0.wav"; EvCoUninitialize 0%nat; EvRemove "tmp0.wav"].
Proof. vm_compute. reflexivity. Qed.

(** ** COM around a call of [synth_pcm16] *)

Global Instance com_same_preorder (t : tid) : PreOrder (com_same t).
Proof.
  split.
  - intros w. split; reflexivity.
  - intros w1 w2 w3 [C1 T1] [C2 T2]. split; congruence.
Qed.

Lemma com_same_events (t : tid) (w w' : world) (evs : list event) :
  com_count w' !! t = com_count w !! t ->
  trace w' = (trace w ++ evs)%list ->
  com_calls t evs = [] ->
  com_same t w w'.
Proof.
  intros Hc Ht He. split; [exact Hc|].
  rewrite Ht, com_calls_app, He, app_nil_r. reflexivity.
Qed.

Lemma com_same_count (t : tid) (w w' : world) :
  com_same t w w' -> count_of t w' = count_of t w.
Proof. intros [Hc _]. unfold count_of. rewrite Hc. reflexivity. Qed.

Section Same.
Context (P : platform) (t : tid).

Lemma same_emit (e : event) : com_calls t [e] = [] -> keeps (com_same t) (emit e).
Proof. intros He w. eapply com_same_events; simpl; eauto. Qed.

Lemma same_set_count (t' : tid) (v : Z) : t' <> t -> keeps (com_same t) (set_count t' v).
Proof.
  intros Hne w. split; simpl; [|reflexivity]. apply lookup_insert_ne. exact Hne.
Qed.

Lemma same_put_file (path : string) (f : file) : keeps (com_same t) (put_file path f).
Proof. intros w. split; reflexivity. Qed.

Lemma same_alter_file (change : file -> file) (path : string) :
  keeps (com_same t) (alter_file change path).
Proof. intros w. split; reflexivity. Qed.

Lemma same_os_remove (path : string) : keeps (com_same t) (os_remove P path).
Proof.
  intros w. unfold os_remove. destruct (fs w !! path) as [f|]; simpl; [|reflexivity].
  destruct (held f && win32 P); simpl; [reflexivity|].
  eapply com_same_events; simpl; eauto.
Qed.

Lemma same_mkstemp_wav : keeps (com_same t) (mkstemp_wav P).
Proof.
  intros w. unfold mkstemp_wav. destruct (mkstemp P (fs w)); simpl; [|reflexivity].
  eapply com_same_events; simpl; eauto.
Qed.

Lemma same_Speak text rate volume voice path :
  keeps (com_same t) (Speak P text rate volume voice path).
Proof.
  intros w. unfold Speak.
  destruct (sapi_render P text rate volume voice path (fs w)) as [fs' [e|]]; simpl;
    eapply com_same_events; simpl; eauto.
Qed.

Lemma same_render text rate volume voice path :
  keeps (com_same t) (render P text rate volume voice path).
Proof.
  unfold render, stream_Open, stream_Close.
  apply keeps_mbind; preorder; [|intros ?].
  { apply keeps_mbind; preorder; [apply keeps_may_raise; preorder|intros ?].
    apply same_put_file. }
  apply keeps_mbind; preorder; [apply same_Speak|intros ?].
  apply keeps_mbind; preorder; [apply keeps_may_raise; preorder|intros ?].
  apply same_alter_file.
Qed.

Lemma same_read_pcm path : keeps (com_same t) (read_pcm P path).
Proof.
  intros w. unfold read_pcm, wave_read, mbind, M_bind, bind.
  destruct (fs w !! path) as [f|]; [|reflexivity].
  destruct (held f && win32 P); [reflexivity|].
  destruct (wave_parse f) as [[frames sr]|e]; [|reflexivity].
  destruct (frombuffer_int16 frames); reflexivity.
Qed.

Lemma same_synth_finally path : keeps (com_same t) (synth_finally P path).
Proof. apply keeps_try_except_pass; preorder. apply same_os_remove. Qed.

Lemma same_CreateObject progid : keeps (com_same t) (CreateObject P progid).
Proof.
  unfold CreateObject. apply keeps_mbind; preorder; [|intros ?].
  - apply same_emit. reflexivity.
  - apply keeps_may_raise; preorder.
Qed.

Lemma same_ensure_windows : keeps (com_same t) (_ensure_windows P).
Proof.
  unfold _ensure_windows.
  repeat match goal with |- keeps _ (if ?b then _ else _) => destruct b end;
    first [apply keeps_raise | apply keeps_ret]; preorder.
Qed.

Lemma same_create_voice (voice : option string) : keeps (com_same t) (_create_voice P voice).
Proof.
  unfold _create_voice.
  apply keeps_mbind; preorder; [apply same_ensure_windows|intros ?].
  apply keeps_mbind; preorder; [apply same_CreateObject|intros ?].
  destruct voice as [id|]; [|apply keeps_ret; preorder].
  destruct (truthy id); [|apply keeps_ret; preorder].
  apply keeps_try_except_raise; preorder.
  apply keeps_mbind; preorder; [apply same_CreateObject|intros ?].
  apply keeps_mbind; preorder; [apply same_emit; reflexivity|intros ?].
  apply keeps_may_raise; preorder.
Qed.

(** A scope of another thread *)
Lemma same_com_scope {A} (t' : tid) (body : M A) :
  t' <> t -> keeps (com_same t) body -> keeps (com_same t) (_com_scope P t' body).
Proof.
  intros Hne Hb. unfold _com_scope.
  assert (He : forall b, com_calls t [if b : bool then EvCoInitialize t' else EvCoUninitialize t'] = []).
  { intros []; simpl; rewrite bool_decide_eq_false_2 by exact Hne; reflexivity. }
  destruct (bool_decide _); [apply keeps_raise; preorder|].
  apply keeps_mbind; preorder; [apply keeps_get_count; preorder|intros c].
  destruct (0 <? c)%Z.
  - apply keeps_mbind; preorder; [apply same_set_count; exact Hne|intros ?].
    apply keeps_try_finally; preorder; [exact Hb|].
    apply keeps_mbind; preorder; [apply keeps_get_count; preorder|intros ?].
    apply same_set_count; exact Hne.
  - apply keeps_mbind; preorder; [apply keeps_may_raise; preorder|intros ?].
    apply keeps_mbind; preorder; [apply same_emit; exact (He true)|intros ?].
    apply keeps_mbind; preorder; [apply same_set_count; exact Hne|intros ?].
    apply keeps_try_finally; preorder; [exact Hb|].
    apply keeps_mbind; preorder; [apply same_set_count; exact Hne|intros ?].
    apply same_emit; exact (He false).
Qed.

(** What [synth_pcm16] runs inside its scope, seen from a thread that the
    scope does not belong to *)
Lemma same_synth_scope text rate volume voice path :
  keeps (com_same t)
    (_create_voice P voice;;
     (if (voices_count P =? 0)%Z then
        raise (Exn RuntimeError
          "Windows SAPI does not have any voices installed. Install a voice pack from Windows settings.")
      else ret tt);;
     emit (EvSetRate (_clamp rate (-10) 10));;
     emit (EvSetVolume (_clamp volume 0 100));;
     CreateObject P "SAPI.SpFileStream";;
     CreateObject P "SAPI.SpAudioFormat";;
     render P text (_clamp rate (-10) 10) (_clamp volume 0 100) voice path).
Proof.
  apply keeps_mbind; preorder; [apply same_create_voice|intros ?].
  apply keeps_mbind; preorder; [|intros ?].
  { destruct (voices_count P =? 0)%Z; [apply keeps_raise | apply keeps_ret]; preorder. }
  apply keeps_mbind; preorder; [apply same_emit; reflexivity|intros ?].
  apply keeps_mbind; preorder; [apply same_emit; reflexivity|intros ?].
  apply keeps_mbind; preorder; [apply same_CreateObject|intros ?].
  apply keeps_mbind; preorder; [apply same_CreateObject|intros ?].
  apply same_render.
Qed.

End Same.

Lemma balanced_of_same (t : tid) (w w' : world) : com_same t w w' -> com_balanced t w w'.
Proof.
  intros H. split; [exact (com_same_count _ _ _ H) | left; exact (proj2 H)].
Qed.

Lemma balanced_same_l (t : tid) (w0 w1 w2 : world) :
  com_same t w0 w1 -> com_balanced t w1 w2 -> com_balanced t w0 w2.
Proof.
  intros H [B1 B2]. pose proof (com_same_count _ _ _ H) as C. destruct H as [_ T].
  split; [congruence|]. rewrite <- T, <- C. exact B2.
Qed.

Lemma balanced_same_r (t : tid) (w0 w1 w2 : world) :
  com_balanced t w0 w1 -> com_same t w1 w2 -> com_balanced t w0 w2.
Proof.
  intros [B1 B2] H. pose proof (com_same_count _ _ _ H) as C. destruct H as [_ T].
  split; [congruence|]. rewrite T. exact B2.
Qed.

Lemma balanced_bind {A B} (t : tid) (m : M A) (k : A -> M B) (w : world) :
  com_balanced t w (m w).2 -> (forall a, keeps (com_same t) (k a)) ->
  com_balanced t w (bind m k w).2.
Proof.
  intros Hm Hk. unfold bind. destruct (m w) as [[a|e] w1]; simpl in *; [|exact Hm].
  eapply balanced_same_r; [exact Hm | apply Hk].
Qed.

Lemma balanced_try_finally {A} (t : tid) (body : M A) (fin : M unit) (w : world) :
  com_balanced t w (body w).2 -> keeps (com_same t) fin ->
  com_balanced t w (try_finally body fin w).2.
Proof.
  intros Hb Hf. unfold try_finally. destruct (body w) as [r w1]; simpl in *.
  specialize (Hf w1). destruct (fin w1) as [[[]|e] w2]; simpl in *;
    eapply balanced_same_r; eauto.
Qed.

(** A scope of thread [t] around a neutral body, entered with a count that
    is not negative, is balanced. *)
Lemma com_scope_balanced (P : platform) (t : tid) {A} (body : M A) (w : world) :
  keeps (com_neutral t) body ->
  0 <= count_of t w ->
  com_balanced t w (_com_scope P t body w).2.
Proof.
  intros Hbody Hc. unfold com_balanced, _com_scope.
  destruct (bool_decide _); [simpl; auto|].
  unfold mbind, M_bind, bind, get_count, set_count, try_finally, emit. simpl.
  fold (count_of t w). destruct (Z.ltb_spec 0 (count_of t w)) as [Hpos|Hz].
  - set (inside := World (fs w) (<[t:=count_of t w + 1]> (com_count w)) (trace w)).
    assert (Hin : 0 < count_of t inside).
    { unfold count_of, inside. simpl. rewrite lookup_insert_eq. simpl. lia. }
    destruct (Hbody inside Hin) as [Hcnt Ht].
    destruct (body inside) as [r w2]. simpl in *.
    split; [|left; exact Ht].
    unfold count_of at 1. simpl. rewrite lookup_insert_eq. simpl.
    rewrite Hcnt. unfold inside. simpl. rewrite lookup_insert_eq. simpl. lia.
  - destruct (co_initialize P t) as [e|]; simpl; [auto|].
    set (inside := World (fs w) (<[t:=1]> (com_count w)) (trace w ++ [EvCoInitialize t])).
    assert (Hin : 0 < count_of t inside).
    { unfold count_of, inside. simpl. rewrite lookup_insert_eq. simpl. lia. }
    destruct (Hbody inside Hin) as [Hcnt Ht].
    destruct (body inside) as [r w2]. simpl in *.
    split.
    + unfold count_of at 1. simpl. rewrite lookup_insert_eq. simpl. lia.
    + right. split; [lia|].
      rewrite com_calls_app, Ht. unfold inside. simpl.
      rewrite com_calls_app. simpl. rewrite !bool_decide_eq_true_2 by reflexivity.
      rewrite <- app_assoc. reflexivity.
Qed.

(** X4. A call of [synth_pcm16] by thread [t], entered with a count that is
    not negative, leaves the count of the thread as it found it, however
    the call ends.  COM calls are made only when the count was zero, and
    then they are one initialization followed by one uninitialization.  The
    counts and the COM calls of all other threads are untouched. *)
Theorem synth_pcm16_com_balanced (P : platform) (t : tid) (text : string)
    (rate volume : Z) (voice_token_id : option string) (w : world) :
  0 <= count_of t w ->
  let w' := (synth_pcm16 P t text rate volume voice_token_id w).2 in
  com_balanced t w w' /\
  (forall t', t' <> t -> com_same t' w w').
Proof.
  intros Hc. simpl. split.
  - unfold synth_pcm16. destruct (negb _); [apply balanced_of_same; reflexivity|].
    change (mkstemp_wav P ≫= ?k) with (bind (mkstemp_wav P) k).
    unfold bind at 1.
    pose proof (same_mkstemp_wav P t w) as H0.
    destruct (mkstemp_wav P w) as [[p|e] w0]; simpl in H0 |- *;
      [|apply balanced_of_same; exact H0].
    eapply balanced_same_l; [exact H0|].
    apply balanced_try_finally; [|apply same_synth_finally].
    unfold synth_try. apply balanced_bind; [|intros ?; apply same_read_pcm].
    apply com_scope_balanced; [apply neutral_synth_scope|].
    rewrite (com_same_count _ _ _ H0). exact Hc.
  - intros t' Hne.
    assert (K : keeps (com_same t') (synth_pcm16 P t text rate volume voice_token_id)).
    { unfold synth_pcm16. destruct (negb _); [apply keeps_ret; preorder|].
      apply keeps_mbind; preorder; [apply same_mkstemp_wav|intros p].
      apply keeps_try_finally; preorder; [|apply same_synth_finally].
      unfold synth_try. apply keeps_mbind; preorder; [|intros ?; apply same_read_pcm].
      apply same_com_scope; [congruence|]. apply same_synth_scope. }
    exact (K w).
Qed.

Lemma synth_pcm16_com_balanced_witness :
  let w' := (synth_pcm16 Demo.windows 0%nat "hello" 0 100 None Demo.boot).2 in
  0 <= count_of 0%nat Demo.boot /\
  count_of 0%nat w' = 0 /\
  com_calls 0%nat (trace w') = [true; false].
Proof.
  intros w'.
  assert (H : 0 <= count_of 0%nat Demo.boot) by (vm_compute; discriminate).
  split; [exact H|].
  destruct (synth_pcm16_com_balanced Demo.windows 0%nat "hello" 0 100 None Demo.boot H)
    as [[Hcount _] _].
  split; [exact Hcount|]. vm_compute. reflexivity.
Defined.

(** ** Synthesis that cannot reach the engine *)

Lemma keeps_raise_bind (R : world -> world -> Prop) `{!PreOrder R} {A B}
    (e : exn) (k : A -> M B) :
  keeps R (raise e ≫= k).
Proof. intros w. simpl. reflexivity. Qed.

(** A scope around a body that always raises always raises. *)
Lemma com_scope_raises (P : platform) (t : tid) {A} (body : M A) (w : world) :
  (forall w0, exists e, (body w0).1 = Raise e) ->
  exists e, (_com_scope P t body w).1 = Raise e.
Proof.
  intros Hb. unfold _com_scope.
  destruct (bool_decide _); [simpl; eauto|].
  unfold mbind, M_bind, bind, get_count, set_count, try_finally, emit. simpl.
  destruct (0 <? _)%Z; simpl.
  - match goal with |- context [body ?w0] => destruct (Hb w0) as [e He];
      destruct (body w0) as [r w1] end.
    simpl in *. subst r. eauto.
  - destruct (co_initialize P t); simpl; [eauto|].
    match goal with |- context [body ?w0] => destruct (Hb w0) as [e He];
      destruct (body w0) as [r w1] end.
    simpl in *. subst r. eauto.
Qed.

(** With no voice installed the body of the [try] stops after the voice
    object is made. *)
Lemma synth_try_without_voices (P : platform) (t : tid) (text : string)
    (rate volume : Z) (voice_token_id : option string) (p : string) :
  voices_count P = 0 ->
  synth_try P t text rate volume voice_token_id p =
    (_com_scope P t
       (_create_voice P voice_token_id;;
        @raise unit (Exn RuntimeError
          "Windows SAPI does not have any voices installed. Install a voice pack from Windows settings."));;
     read_pcm P p).
Proof. intros H. unfold synth_try. rewrite H. reflexivity. Qed.

(** A [try] whose body raises ends in an exception, whatever the [finally]
    does. *)
Lemma try_finally_raises {A} (body : M A) (fin : M unit) (w : world) (e : exn) :
  (body w).1 = Raise e -> exists e', (try_finally body fin w).1 = Raise e'.
Proof.
  unfold try_finally. destruct (body w) as [r w1]. simpl. intros ->.
  destruct (fin w1) as [[[]|e'] w2]; simpl; eauto.
Qed.

(** Entering and leaving COM, and making the voice object, touch no file. *)
Global Instance same_files_preorder : PreOrder same_files.
Proof.
  split.
  - intros w. reflexivity.
  - intros w1 w2 w3 H12 H23. unfold same_files in *. congruence.
Qed.

Lemma files_emit (e : event) : keeps same_files (emit e).
Proof. intros w. reflexivity. Qed.

Lemma files_set_count (t : tid) (v : Z) : keeps same_files (set_count t v).
Proof. intros w. reflexivity. Qed.

Ltac files :=
  repeat first
    [ apply keeps_mbind; preorder; [|intros ?]
    | apply keeps_try_finally; preorder
    | apply keeps_try_except_raise; preorder
    | apply keeps_ret; preorder
    | apply keeps_raise; preorder
    | apply keeps_may_raise; preorder
    | apply keeps_get_count; preorder
    | apply files_emit
    | apply files_set_count
    | assumption
    | match goal with
      | |- keeps _ (if ?b then _ else _) => destruct b
      | |- keeps _ (match ?x with _ => _ end) => destruct x
      end ].

Lemma files_create_voice (P : platform) (voice : option string) :
  keeps same_files (_create_voice P voice).
Proof. unfold _create_voice, _ensure_windows, CreateObject. files. Qed.

Lemma files_com_scope (P : platform) (t : tid) {A} (body : M A) :
  keeps same_files body -> keeps same_files (_com_scope P t body).
Proof. intros Hb. unfold _com_scope. files. Qed.

(** X5. With no voice installed, a call of [synth_pcm16] with a text that
    is not blank always fails, and it fails before the engine is used: no
    rate or volume is set, no file stream is made, nothing is spoken.  On a
    machine where the temporary file, COM and the voice object are to be
    had, the failure is the [RuntimeError] that asks for a voice pack. *)
Theorem synth_pcm16_without_voices (P : platform) (t : tid) (text : string)
    (rate volume : Z) (voice_token_id : option string) (w : world) :
  voices_count P = 0 ->
  truthy (strip text) = true ->
  let call := synth_pcm16 P t text rate volume voice_token_id w in
  (exists e, call.1 = Raise e) /\
  adds_only (fun e => negb (is_speaking e)) w call.2 /\
  (forall p, mkstemp P (fs w) = Ok p ->
     _IMPORT_ERROR P = None ->
     (count_of t w <= 0 -> co_initialize P t = None) ->
     (forall w0, (_create_voice P voice_token_id w0).1 = Ok tt) ->
     call.1 = Raise (Exn RuntimeError
       "Windows SAPI does not have any voices installed. Install a voice pack from Windows settings.")).
Proof.
  intros Hcount Htext. simpl.
  unfold synth_pcm16. rewrite str_or_empty, Htext. simpl.
  set (E := Exn RuntimeError _).
  set (body := _create_voice P voice_token_id;; @raise unit E).
  assert (Hbody : forall w0, (body w0).1 =
            match (_create_voice P voice_token_id w0).1 with
            | Ok _ => Raise E
            | Raise e => Raise e
            end).
  { intros w0. unfold body, mbind, M_bind, bind.
    destruct (_create_voice P voice_token_id w0) as [[[]|e] w1]; reflexivity. }
  split; [|split].
  - unfold mbind at 1, M_bind, bind.
    destruct (mkstemp_wav P w) as [[p|e] w0]; [|simpl; eauto].
    destruct (com_scope_raises P t body w0) as [e He].
    { intros w1. rewrite Hbody. destruct (_create_voice P voice_token_id w1).1; eauto. }
    apply (try_finally_raises _ _ _ e).
    rewrite synth_try_without_voices by exact Hcount.
    fold E body. unfold mbind, M_bind, bind.
    destruct (_com_scope P t body w0) as [r w1]. simpl in He. subst r. reflexivity.
  - revert w. apply keeps_mbind; preorder; [|intros p].
    { intros w. unfold mkstemp_wav. destruct (mkstemp P (fs w)); simpl; [|reflexivity].
      eapply adds_one; eauto. }
    rewrite synth_try_without_voices by exact Hcount. fold E body.
    apply keeps_try_finally; preorder.
    + apply keeps_mbind; preorder; [|intros ?; apply adds_read_pcm].
      apply adds_com_scope; [reflexivity..|].
      unfold body. apply keeps_mbind; preorder; [|intros ?; apply keeps_raise; preorder].
      apply adds_create_voice; [reflexivity|]. intros id _ _. split; reflexivity.
    + unfold synth_finally. apply keeps_try_except_pass; preorder.
      apply adds_os_remove. reflexivity.
  - intros p Hmk Himp Hinit Hvoice.
    unfold mbind at 1, M_bind, bind, mkstemp_wav. rewrite Hmk.
    rewrite synth_try_without_voices by exact Hcount.
    fold E body. unfold try_finally, mbind, M_bind, bind.
    set (created := World _ _ _).
    assert (Hfs : fs (_com_scope P t body created).2 = fs created).
    { apply (files_com_scope P t body). unfold body.
      apply keeps_mbind; preorder; [apply files_create_voice|intros ?].
      apply keeps_raise; preorder. }
    assert (Hs : (_com_scope P t body created).1 = Raise E).
    { unfold _com_scope. rewrite Himp. simpl.
      unfold mbind, M_bind, bind, get_count, set_count, try_finally, emit. simpl.
      fold (count_of t w).
      destruct (Z.ltb_spec 0 (count_of t w)) as [Hpos|Hz]; simpl.
      - match goal with |- context [body ?w0] =>
          pose proof (Hbody w0) as Hb; rewrite Hvoice in Hb;
          destruct (body w0) as [r w1] end.
        simpl in *. exact Hb.
      - rewrite (Hinit Hz). simpl.
        match goal with |- context [body ?w0] =>
          pose proof (Hbody w0) as Hb; rewrite Hvoice in Hb;
          destruct (body w0) as [r w1] end.
        simpl in *. exact Hb. }
    destruct (_com_scope P t body created) as [r w1]. simpl in Hs, Hfs. subst r.
    rewrite synth_finally_spec, Hfs. unfold created. simpl.
    rewrite lookup_insert_eq. reflexivity.
Qed.

Lemma synth_pcm16_without_voices_witness :
  let P := Demo.with_voices 0 in
  voices_count P = 0 /\
  truthy (strip "hello") = true /\
  (synth_pcm16 P 0%nat "hello" 0 100 None Demo.boot).1 =
    Raise (Exn RuntimeError
      "Windows SAPI does not have any voices installed. Install a voice pack from Windows settings.").
Proof.
  intros P. split; [reflexivity|]. split; [reflexivity|].
  apply (synth_pcm16_without_voices P 0%nat "hello" 0 100 None Demo.boot eq_refl eq_refl)
    with (p := "tmp0.wav"); reflexivity.
Defined.



(** ** [export_wav] as a whole *)

(** X7. When synthesis gives audio at a positive sample rate, the output
    file can be opened and written, and rate and length fit the 32-bit
    fields of the WAV header, [export_wav] succeeds and writes one file:
    mono, two bytes a sample, the sample rate that synthesis returned, and
    two bytes for every sample of the buffer.  The sample that was read as
    [k / 32768] is written as [k] moved one towards zero, in exact and in
    binary32 arithmetic alike, so the file is not the rendering of the
    engine bit for bit.  Nothing else changes after synthesis. *)
Theorem export_wav_writes_rendered_samples (P : platform) (t : tid)
    (text path : string) (rate volume : Z) (voice_token_id : option string)
    (w w1 : world) (pcm : list Q) (samplerate : Z) :
  synth_pcm16 P t text rate volume voice_token_id w = (Ok (pcm, samplerate), w1) ->
  pcm <> [] ->
  0 < samplerate <= 2147483647 ->
  Z.of_nat (length pcm) <= 2147483629 ->
  open_for_write P path = None ->
  write_frames P path = None ->
  exists ks,
    pcm = map of_pcm16 ks /\
    let frames := tobytes (map (fun k => k - Z.sgn k) ks) in
    export_wav P t text path rate volume voice_token_id w =
      (Ok tt, World (<[path := WavFile 1 2 samplerate frames]> (fs w1)) (com_count w1)
                    (trace w1 ++ [EvWaveWrite path])) /\
    length frames = (2 * length pcm)%nat /\
    frombuffer_int16 frames = Some (map (fun k => k - Z.sgn k) ks) /\
    Forall (fun k => Binary32.to_pcm16 (Binary32.of_pcm16 k) = Some (k - Z.sgn k)) ks.
Proof.
  intros Hsyn Hne Hrate Hlen Hopen Hwrite.
  destruct (synth_pcm16_samples _ _ _ _ _ _ _ _ _ _ Hsyn) as (ks & -> & Hks).
  exists ks. split; [reflexivity|]. simpl.
  assert (E : map to_pcm16 (map of_pcm16 ks) = map (fun k => k - Z.sgn k) ks).
  { rewrite map_map. apply map_ext_in. intros k Hk.
    rewrite List.Forall_forall in Hks. exact (proj1 (grid_round_trip k (Hks k Hk))). }
  split; [|split; [|split]].
  - unfold export_wav, mbind, M_bind, bind. rewrite Hsyn.
    destruct (write_pcm_ok P path (map of_pcm16 ks) samplerate w1) as [Hiff Hfile].
    assert (Hok : (write_pcm P path (map of_pcm16 ks) samplerate w1).1 = Ok tt)
      by (apply Hiff; auto).
    specialize (Hfile Hok). rewrite E in Hfile.
    destruct (map of_pcm16 ks) as [|x l] eqn:El; [congruence|].
    destruct (write_pcm P path (x :: l) samplerate w1) as [r w2].
    simpl in Hok, Hfile. subst r w2. reflexivity.
  - rewrite tobytes_length, !length_map. reflexivity.
  - apply frombuffer_tobytes. apply List.Forall_forall. intros j Hj.
    apply List.in_map_iff in Hj as (k & <- & Hk).
    rewrite List.Forall_forall in Hks. specialize (Hks k Hk).
    destruct (Z.sgn_spec k) as [[? ->]|[[? ->]|[? ->]]]; lia.
  - eapply Forall_impl; [exact Hks|]. intros k Hk.
    rewrite (proj2 (binary32_agrees_on_grid k Hk)).
    rewrite (proj1 (grid_round_trip k Hk)). reflexivity.
Qed.

Lemma export_wav_writes_rendered_samples_witness :
  let call := export_wav Demo.windows 0%nat "hello" "out.wav" 0 100 None Demo.boot in
  open_for_write Demo.windows "out.wav" = None /\
  write_frames Demo.windows "out.wav" = None /\
  call.1 = Ok tt /\
  fs call.2 = {[ "out.wav" := WavFile 1 2 16000 (tobytes [16383; -32767; 0]) ]}.
Proof.
  intros call. split; [reflexivity|]. split; [reflexivity|].
  destruct (export_wav_writes_rendered_samples Demo.windows 0%nat "hello" "out.wav"
              0 100 None Demo.boot
              (synth_pcm16 Demo.windows 0%nat "hello" 0 100 None Demo.boot).2
              [16384 # 32768; -32768 # 32768; 1 # 32768]%Q 16000)
    as (ks & _ & E & _).
  - vm_compute. reflexivity.
  - discriminate.
  - lia.
  - simpl. lia.
  - reflexivity.
  - reflexivity.
  - split; vm_compute; reflexivity.
Defined.

(** X8. The ways out of [export_wav].  A failure of the synthesis, an empty
    buffer (a blank text, or an engine that rendered nothing) and an output
    file that cannot be opened each end the call with the world as
    synthesis left it: the file at [path], if any, is untouched.  Once the
    file is opened it has been emptied, and a failure after that leaves it
    behind: empty when the frame rate is not positive, with eight bytes
    that are no WAV file when rate or length do not fit the header, and as
    the failed write left it otherwise.  The call returns in the one
    remaining case, and then the file holds every sample. *)
Theorem export_wav_outcomes (P : platform) (t : tid) (text path : string)
    (rate volume : Z) (voice_token_id : option string) (w : world) :
  let synth := synth_pcm16 P t text rate volume voice_token_id w in
  let call := export_wav P t text path rate volume voice_token_id w in
  let opened f := World (<[path := f]> (fs synth.2)) (com_count synth.2)
                        (trace synth.2 ++ [EvWaveWrite path]) in
  (forall e, synth.1 = Raise e -> call = (Raise e, synth.2)) /\
  (forall samplerate, synth.1 = Ok ([], samplerate) ->
     call = (Raise (Exn RuntimeError "No audio was generated for the provided text."),
             synth.2)) /\
  (forall pcm samplerate, synth.1 = Ok (pcm, samplerate) -> pcm <> [] ->
     (forall e, open_for_write P path = Some e -> call = (Raise e, synth.2)) /\
     (open_for_write P path = None ->
        (samplerate <= 0 ->
           call = (Raise (Exn WaveError "sampling rate not specified"), opened EmptyFile)) /\
        (0 < samplerate ->
         2147483647 < samplerate \/ 2147483629 < Z.of_nat (length pcm) ->
           call = (Raise (Exn StructError "'L' format requires 0 <= number <= 4294967295"),
                   opened (Damaged (Exn WaveError "not a WAVE file")))) /\
        (0 < samplerate <= 2147483647 -> Z.of_nat (length pcm) <= 2147483629 ->
           match write_frames P path with
           | Some (rest, e) => call = (Raise e, opened rest)
           | None =>
               call = (Ok tt, opened (WavFile 1 2 samplerate (tobytes (map to_pcm16 pcm)))) /\
               length (tobytes (map to_pcm16 pcm)) = (2 * length pcm)%nat
           end))).
Proof.
  simpl. unfold export_wav, mbind, M_bind, bind.
  destruct (synth_pcm16 P t text rate volume voice_token_id w) as [[[pcm sr]|e] w1]; simpl.
  2:{ split; [intros ? [= <-]; reflexivity|]. split; discriminate. }
  split; [discriminate|]. split.
  { intros ? [= -> <-]. reflexivity. }
  intros pcm' sr' [= <- <-] Hne.
  destruct pcm as [|x rest]; [congruence|].
  rewrite write_pcm_spec. cbv zeta.
  set (pcm := x :: rest). split.
  { intros e ->. reflexivity. }
  intros ->. split; [|split].
  - intros H. destruct (Z.leb_spec sr 0); [reflexivity|lia].
  - intros H0 H. destruct (Z.leb_spec sr 0); [lia|].
    destruct (Z.ltb_spec 4294967295 (2 * sr)); [reflexivity|].
    destruct (Z.ltb_spec 4294967295 (36 + 2 * Z.of_nat (length pcm))); [reflexivity|lia].
  - intros H0 H. destruct (Z.leb_spec sr 0); [lia|].
    destruct (Z.ltb_spec 4294967295 (2 * sr)); [lia|].
    destruct (Z.ltb_spec 4294967295 (36 + 2 * Z.of_nat (length pcm))); [lia|].
    simpl. destruct (write_frames P path) as [[f e]|]; [reflexivity|].
    split; [reflexivity|]. rewrite tobytes_length, length_map. simpl. lia.
Qed.

(** A frame rate of zero in the rendering of the engine: synthesis returns
    the samples, and the export fails after it has emptied its file. *)
Example export_wav_rate_zero :
  let P := Demo.with_engine (fun path files =>
             (<[path := WavFile 1 2 0 (tobytes [16384; -32768; 1])]> files, None)) in
  let call := export_wav P 0%nat "hello" "out.wav" 0 100 None Demo.boot in
  (synth_pcm16 P 0%nat "hello" 0 100 None Demo.boot).1 =
    Ok ([16384 # 32768; -32768 # 32768; 1 # 32768]%Q, 0) /\
  call.1 = Raise (Exn WaveError "sampling rate not specified") /\
  fs call.2 = {[ "out.wav" := EmptyFile ]}.
Proof. repeat split; vm_compute; reflexivity. Qed.

(** An engine that renders no frame: the text is not blank, the buffer is
    empty, and neither [export_wav] nor [synthesize] lets it pass. *)
Example engine_renders_nothing :
  let P := Demo.with_engine (fun path files =>
             (<[path := WavFile 1 2 16000 []]> files, None)) in
  (synth_pcm16 P 0%nat "hello" 0 100 None Demo.boot).1 = Ok ([], 16000) /\
  (export_wav P 0%nat "hello" "out.wav" 0 100 None Demo.boot).1 =
    Raise (Exn RuntimeError "No audio was generated for the provided text.") /\
  (synthesize P 0%nat Demo.unset "hello" Demo.boot).1 =
    Raise (Exn RuntimeError "Speech synthesis returned empty audio.").
Proof. repeat split; vm_compute; reflexivity. Qed.

(** ** [synthesize] as a whole *)

(** X9. [synthesize] never returns an empty buffer.  It fails as the
    backend fails; it raises its empty-audio error when the backend returns
    no sample, whether the text was blank or the engine rendered nothing;
    and otherwise it returns a buffer with as many samples as the backend
    returned, no sample with its sign changed, and the sample rate of the
    backend.  The world is in every case as the backend left it. *)
Theorem synthesize_outcomes (P : platform) (t : tid) (self : TalkAsMicService)
    (text : string) (w : world) :
  let backend := synth_pcm16 P t text (rate self) (volume self) (voice_token_id self) w in
  let call := synthesize P t self text w in
  call.2 = backend.2 /\
  (forall e, backend.1 = Raise e -> call.1 = Raise e) /\
  (forall samplerate, backend.1 = Ok ([], samplerate) ->
     call.1 = Raise (Exn RuntimeError "Speech synthesis returned empty audio.")) /\
  (forall pcm samplerate, backend.1 = Ok (pcm, samplerate) -> pcm <> [] ->
     exists pcm', call.1 = Ok (pcm', samplerate) /\ pcm' <> [] /\
       Forall2 (fun s s' => (0 <= s -> 0 <= s') /\ (s <= 0 -> s' <= 0))%Q pcm pcm') /\
  (forall pcm' samplerate, call.1 = Ok (pcm', samplerate) ->
     pcm' <> [] /\ exists pcm, backend.1 = Ok (pcm, samplerate) /\ length pcm' = length pcm).
Proof.
  simpl. unfold synthesize, mbind, M_bind, bind, lift_result, mret, M_ret, ret.
  destruct (synth_pcm16 P t text (rate self) (volume self) (voice_token_id self) w)
    as [[[pcm sr]|e] w1]; simpl.
  2:{ repeat split; try discriminate. intros e' [= <-]. reflexivity. }
  destruct pcm as [|x rest]; simpl.
  { repeat split; try discriminate. intros ? ? ? ?. congruence. }
  assert (K : forall k : Q, (0 < k)%Q ->
    Forall2 (fun s s' => (0 <= s -> 0 <= s') /\ (s <= 0 -> s' <= 0))%Q
            (x :: rest) (map (fun s => s * k)%Q (x :: rest))).
  { intros k Hk. apply Forall2_fmap_r. apply Forall_Forall2_diag.
    apply List.Forall_forall. intros s _. split; intros Hs; nra. }
  assert (Id : Forall2 (fun s s' => (0 <= s -> 0 <= s') /\ (s <= 0 -> s' <= 0))%Q
                 (x :: rest) (x :: rest)).
  { apply Forall_Forall2_diag. apply List.Forall_forall. intros s _. split; auto. }
  destruct (Qlt_le_dec (99 # 100) (peak_of x rest)) as [Hlt|Hle]; simpl.
  - split; [reflexivity|]. split; [discriminate|]. split; [discriminate|]. split.
    + intros pcm sr' [= <- <-] _. eexists. split; [reflexivity|]. split; [discriminate|].
      apply (K ((99 # 100) / peak_of x rest)%Q).
      apply Qlt_shift_div_l; [eapply Qlt_trans; [|exact Hlt]; reflexivity|].
      rewrite Qmult_0_l. reflexivity.
    + intros pcm' sr' [= <- <-]. split; [discriminate|].
      eexists. split; [reflexivity|]. simpl. rewrite length_map. reflexivity.
  - split; [reflexivity|]. split; [discriminate|]. split; [discriminate|]. split.
    + intros pcm sr' [= <- <-] _. eexists. split; [reflexivity|]. split; [discriminate|].
      exact Id.
    + intros pcm' sr' [= <- <-]. split; [discriminate|]. eauto.
Qed.

(** ** [speak] as a whole *)

(** X10. The streams that a call of [speak] opens.  When synthesis fails or
    no primary device is selected, none.  Otherwise one on the primary
    device and, when a monitor is selected, one on the monitor, and no
    other; each with the sample rate that synthesis returned; in the order
    in which the two finish.  Playing touches neither the files nor the
    COM counts, and nothing else happens after synthesis.  With the primary
    device alone, [speak] succeeds exactly when playing on it succeeds, and
    otherwise names that device in its error. *)
Theorem speak_opens_one_stream_per_device (P : platform) (t : tid)
    (self : TalkAsMicService) (text : string) (w : world) :
  let syn := synthesize P t self text w in
  let call := speak P t self text w in
  let streams :=
    match syn.1, device_vb self with
    | Ok (_, samplerate), Some vb =>
        match device_monitor self with
        | None => [EvPlayback vb samplerate]
        | Some mon =>
            if monitor_finishes_first P
            then [EvPlayback mon samplerate; EvPlayback vb samplerate]
            else [EvPlayback vb samplerate; EvPlayback mon samplerate]
        end
    | _, _ => []
    end in
  trace call.2 = (trace syn.2 ++ streams)%list /\
  playbacks (trace call.2) = (playbacks (trace w) ++ streams)%list /\
  fs call.2 = fs syn.2 /\
  com_count call.2 = com_count syn.2 /\
  (forall pcm samplerate vb,
     syn.1 = Ok (pcm, samplerate) -> device_vb self = Some vb ->
     device_monitor self = None ->
     call.1 = match sd_play P samplerate vb pcm with
              | None => Ok tt
              | Some e =>
                  Raise (Exn RuntimeError
                    ("Failed to play audio on device(s): #" +:+ str_of_int vb +:+ ": "
                     +:+ exn_msg e))
              end).
Proof.
  simpl. pose proof (quiet_synthesize P t self text w) as Hq.
  unfold same_playbacks in Hq.
  unfold speak, mbind, M_bind, bind.
  destruct (synthesize P t self text w) as [[[pcm sr]|e] w1]; simpl in *.
  2:{ rewrite !app_nil_r. repeat split; auto. discriminate. }
  destruct (device_vb self) as [vb|]; simpl.
  2:{ rewrite !app_nil_r. repeat split; auto. discriminate. }
  destruct (device_monitor self) as [mon|]; simpl.
  - unfold run_threads, runner, mbind, M_bind, mret, M_ret, bind, ret, emit. simpl.
    destruct (monitor_finishes_first P); simpl;
      destruct (sd_play P sr vb pcm), (sd_play P sr mon pcm); simpl;
      rewrite <- ?app_assoc; simpl; unfold playbacks;
      rewrite List.filter_app; fold (playbacks (trace w1)); rewrite Hq;
      repeat split; discriminate.
  - unfold run_threads, runner, mbind, M_bind, mret, M_ret, bind, ret, emit. simpl.
    destruct (sd_play P sr vb pcm) eqn:Eplay; simpl;
      unfold playbacks; rewrite List.filter_app; fold (playbacks (trace w1)); rewrite Hq;
      repeat split; intros ? ? ? [= <- <-] [= <-] _; rewrite Eplay; reflexivity.
Qed.

Example speak_same_device_twice :
  let self := set_monitor_device (Some 2) (init Demo.windows) in
  (speak Demo.windows 0%nat self "hello" Demo.boot).1 = Ok tt /\
  playbacks (trace (speak Demo.windows 0%nat self "hello" Demo.boot).2) =
    [EvPlayback 2 16000; EvPlayback 2 16000].
Proof. split; vm_compute; reflexivity. Qed.

(** ** [_clamp] *)

(** X11. [_clamp] for any bounds.  With [lo <= hi] the result lies between
    the bounds, a value between the bounds is returned as it is, and a
    value beyond a bound gives that bound.  With the bounds the wrong way
    round the result is [lo] whatever the value.  In every case clamping
    twice is clamping once, and a larger value never clamps to a smaller
    result. *)
Theorem clamp_any_bounds (value lo hi : Z) :
  (lo <= hi -> lo <= _clamp value lo hi <= hi) /\
  (lo <= value <= hi -> _clamp value lo hi = value) /\
  (lo <= hi -> value <= lo -> _clamp value lo hi = lo) /\
  (lo <= hi -> hi <= value -> _clamp value lo hi = hi) /\
  (hi < lo -> _clamp value lo hi = lo) /\
  _clamp (_clamp value lo hi) lo hi = _clamp value lo hi /\
  (forall value', value <= value' -> _clamp value lo hi <= _clamp value' lo hi).
Proof. unfold _clamp. repeat split; intros; lia. Qed.

(** ** The table of output devices *)

Lemma enumerate_In {A} (l : list A) (start i : Z) (x : A) :
  In (i, x) (enumerate start l) <-> start <= i /\ l !! Z.to_nat (i - start) = Some x.
Proof.
  revert start. induction l as [|y l IH]; intros start; simpl.
  - split; [tauto | intros [_ H]; discriminate].
  - rewrite IH. split.
    + intros [[= <- <-]|[Hi Hl]].
      * split; [lia|]. rewrite Z.sub_diag. reflexivity.
      * split; [lia|].
        replace (Z.to_nat (i - start)) with (S (Z.to_nat (i - (start + 1)))) by lia.
        exact Hl.
    + intros [Hi Hl]. destruct (Z.eq_dec i start) as [->|Hne].
      * left. rewrite Z.sub_diag in Hl. injection Hl as <-. reflexivity.
      * right. split; [lia|].
        replace (Z.to_nat (i - start)) with (S (Z.to_nat (i - (start + 1)))) in Hl by lia.
        exact Hl.
Qed.

Lemma filter_enumerate_sorted {A} (keep : Z * A -> bool) (l : list A) (start : Z) :
  StronglySorted Z.lt (map fst (List.filter keep (enumerate start l))) /\
  Forall (fun i => start <= i) (map fst (List.filter keep (enumerate start l))).
Proof.
  revert start. induction l as [|y l IH]; intros start; simpl.
  - split; constructor.
  - destruct (IH (start + 1)) as [S1 F1].
    assert (F2 : Forall (fun i => start < i)
                   (map fst (List.filter keep (enumerate (start + 1) l)))).
    { eapply Forall_impl; [exact F1|]. simpl. intros; lia. }
    destruct (keep (start, y)); simpl.
    + split; [constructor; assumption|].
      constructor; [lia|]. eapply Forall_impl; [exact F2|]. simpl. intros; lia.
    + split; [exact S1|]. eapply Forall_impl; [exact F2|]. simpl. intros; lia.
Qed.

Lemma list_output_devices_indices (P : platform) :
  map index (list_output_devices P) =
  map fst (List.filter (fun '(_, d) => (0 <? default 0 (max_output_channels d))%Z)
             (enumerate 0 (query_devices P))).
Proof.
  unfold list_output_devices. rewrite map_map. apply map_ext. intros [i d]. reflexivity.
Qed.

Lemma list_output_devices_In (P : platform) (i : Z) (n : string) :
  In {| index := i; name := n |} (list_output_devices P) <->
  0 <= i /\
  exists d, query_devices P !! Z.to_nat i = Some d /\ dev_name d = n /\
            0 < default 0 (max_output_channels d).
Proof.
  unfold list_output_devices. rewrite List.in_map_iff. split.
  - intros ([j d] & [= -> <-] & Hin). apply List.filter_In in Hin as [Hin Hout].
    apply enumerate_In in Hin as [Hi Hl]. rewrite Z.sub_0_r in Hl.
    split; [exact Hi|]. exists d. repeat split; [exact Hl|]. apply Z.ltb_lt. exact Hout.
  - intros (Hi & d & Hl & <- & Hout). exists (i, d). split; [reflexivity|].
    apply List.filter_In. split.
    + apply enumerate_In. rewrite Z.sub_0_r. split; assumption.
    + apply Z.ltb_lt. exact Hout.
Qed.

(** X12. [list_output_devices] lists exactly the entries of the table of
    PortAudio that have an output channel (an entry that does not say how
    many it has counts as having none).  Each is listed once, under its
    position in the whole table, not under its position among the output
    devices, and with its name; the list is in the order of the table. *)
Theorem list_output_devices_keeps_table_index (P : platform) :
  (forall i n,
     In {| index := i; name := n |} (list_output_devices P) <->
     0 <= i /\
     exists d, query_devices P !! Z.to_nat i = Some d /\ dev_name d = n /\
               0 < default 0 (max_output_channels d)) /\
  StronglySorted Z.lt (map index (list_output_devices P)) /\
  NoDup (map index (list_output_devices P)) /\
  (length (list_output_devices P) <= length (query_devices P))%nat.
Proof.
  assert (S : StronglySorted Z.lt (map index (list_output_devices P))).
  { rewrite list_output_devices_indices. apply filter_enumerate_sorted. }
  split; [apply list_output_devices_In|]. split; [exact S|]. split.
  - induction S as [|a l _ IH Ha]; constructor; [|exact IH].
    intros Hin. apply list_elem_of_In in Hin.
    rewrite List.Forall_forall in Ha. specialize (Ha a Hin). lia.
  - unfold list_output_devices. rewrite length_map.
    etransitivity; [apply filter_length_le|].
    clear. generalize 0. induction (query_devices P) as [|d l IH]; intros s; simpl;
      [lia | specialize (IH (s + 1)); lia].
Qed.

(** ** The device that is picked *)

Lemma StronglySorted_app_r {A} (R : A -> A -> Prop) (l1 l2 : list A) :
  StronglySorted R (l1 ++ l2) -> StronglySorted R l2.
Proof.
  induction l1 as [|x l1 IH]; simpl; [auto|].
  intros H. apply StronglySorted_inv in H as [H _]. exact (IH H).
Qed.

Lemma first_match_found (keywords : list string) (devices : list OutputDevice) (i : Z) :
  first_match keywords devices = Some i ->
  exists pre d post,
    devices = (pre ++ d :: post)%list /\
    Forall (fun x => name_matches keywords x = false) pre /\
    name_matches keywords d = true /\ index d = i.
Proof.
  induction devices as [|x l IH]; simpl; [discriminate|].
  destruct (name_matches keywords x) eqn:E.
  - intros [= <-]. exists [], x, l. repeat split; [constructor | exact E].
  - intros H. destruct (IH H) as (pre & d & post & -> & Hpre & Hd & Hi).
    exists (x :: pre), d, post. repeat split; [constructor|..]; assumption.
Qed.

Lemma first_match_nothing (keywords : list string) (devices : list OutputDevice) :
  first_match keywords devices = None ->
  Forall (fun x => name_matches keywords x = false) devices.
Proof.
  induction devices as [|x l IH]; simpl; [constructor|].
  destruct (name_matches keywords x) eqn:E; [discriminate|].
  intros H. constructor; [exact E | exact (IH H)].
Qed.

(** X13. What the scan of [_auto_pick_output_device] finds.  If it finds a
    device, that device has an output channel and a name that contains a
    keyword, and no output device earlier in the table has such a name: the
    pick is the first match of the table, and a matching entry without
    output channels is never picked.  If it finds none, no output device of
    the table has a matching name. *)
Theorem auto_pick_scans_output_devices_in_order (P : platform) (keywords : list string) :
  let matches (d : device_info) :=
    name_matches keywords {| index := 0; name := dev_name d |} in
  (forall i,
     first_match keywords (list_output_devices P) = Some i ->
     _auto_pick_output_device P keywords = Some i /\
     0 <= i /\
     (exists d, query_devices P !! Z.to_nat i = Some d /\
                0 < default 0 (max_output_channels d) /\ matches d = true) /\
     (forall j d', 0 <= j < i -> query_devices P !! Z.to_nat j = Some d' ->
                   0 < default 0 (max_output_channels d') -> matches d' = false)) /\
  (first_match keywords (list_output_devices P) = None ->
   forall j d', 0 <= j -> query_devices P !! Z.to_nat j = Some d' ->
                0 < default 0 (max_output_channels d') -> matches d' = false).
Proof.
  simpl.
  assert (Hname : forall i n, name_matches keywords {| index := i; name := n |} =
                              name_matches keywords {| index := 0; name := n |})
    by reflexivity.
  split.
  - intros i Hfm. split; [unfold _auto_pick_output_device; rewrite Hfm; reflexivity|].
    destruct (first_match_found _ _ _ Hfm) as (pre & [i' n] & post & E & Hpre & Hd & Hi).
    simpl in Hi. subst i'.
    assert (Hin : In {| index := i; name := n |} (list_output_devices P))
      by (rewrite E; apply in_elt).
    apply list_output_devices_In in Hin as (Hi & d & Hl & <- & Hout).
    split; [exact Hi|]. split.
    { exists d. split; [exact Hl|]. split; [exact Hout|]. rewrite <- (Hname i). exact Hd. }
    intros j d' Hj Hl' Hout'.
    assert (Hin' : In {| index := j; name := dev_name d' |} (list_output_devices P)).
    { apply list_output_devices_In. split; [lia|]. exists d'. repeat split; assumption. }
    rewrite E in Hin'. apply in_app_or in Hin' as [Hin'|[Heq|Hin']].
    + rewrite List.Forall_forall in Hpre. rewrite <- (Hname j). exact (Hpre _ Hin').
    + injection Heq as Heq _. lia.
    + exfalso.
      pose proof (filter_enumerate_sorted
        (fun '(_, d) => (0 <? default 0 (max_output_channels d))%Z) (query_devices P) 0)
        as [S _].
      rewrite <- list_output_devices_indices, E, map_app in S. simpl in S.
      apply StronglySorted_app_r in S. apply StronglySorted_inv in S as [_ S].
      rewrite List.Forall_forall in S.
      specialize (S j). simpl in S.
      assert (i < j); [|lia]. apply S.
      apply (List.in_map index) in Hin'. exact Hin'.
  - intros Hfm j d' Hj Hl' Hout'.
    apply first_match_nothing in Hfm. rewrite List.Forall_forall in Hfm.
    rewrite <- (Hname j). apply Hfm.
    apply list_output_devices_In. split; [lia|]. exists d'. repeat split; assumption.
Qed.

(** The playback side of a virtual cable has the name but no output
    channel; it is passed over. *)
Example auto_pick_skips_input_devices :
  let P := Demo.with_devices
             [DeviceInfo "CABLE Output (VB-Audio Virtual Cable)" (Some 0);
              DeviceInfo "VB-Audio Point" None;
              DeviceInfo "Speakers" (Some 2);
              DeviceInfo "CABLE Input (VB-Audio Virtual Cable)" (Some 8)]
             (DefaultObject (Some 0) (Some 2)) in
  _auto_pick_output_device P PREFERRED_VB_KEYWORDS = Some 3.
Proof. reflexivity. Qed.

(** ** The settings of the service *)

(** X14. Whatever sequence of setters is applied to a new service, its rate
    lies in [-10, 10], its volume in [0, 100], and its voice token is
    never the empty string.  So the clamping of [synth_pcm16] changes
    neither value: the engine is given the rate and the volume that the
    service holds; and a stored token is always one that [_create_voice]
    selects. *)
Theorem configured_settings_in_range (P : platform) (self : TalkAsMicService) :
  configured P self ->
  -10 <= rate self <= 10 /\
  0 <= volume self <= 100 /\
  (forall id, voice_token_id self = Some id -> truthy id = true) /\
  _clamp (rate self) (-10) 10 = rate self /\
  _clamp (volume self) 0 100 = volume self.
Proof.
  intros H.
  assert (I : -10 <= rate self <= 10 /\ 0 <= volume self <= 100 /\
              (forall id, voice_token_id self = Some id -> truthy id = true)).
  { induction H as [|d s _ IH|d s _ IH|tok s _ IH|v s _ IH|v s _ IH]; simpl.
    - repeat split; try lia. discriminate.
    - exact IH.
    - exact IH.
    - destruct IH as (? & ? & _). repeat split; try lia.
      intros id. destruct tok as [s0|]; simpl; [|discriminate].
      destruct (truthy s0) eqn:E; [|discriminate]. intros [= <-]. exact E.
    - destruct IH as (? & ? & ?). repeat split; try assumption; lia.
    - destruct IH as (? & ? & ?). repeat split; try assumption; lia. }
  destruct I as (Hr & Hv & Ht). unfold _clamp. repeat split; try lia. exact Ht.
Qed.

Lemma configured_settings_in_range_witness :
  let self := set_voice (Some "") (set_volume 250 (set_rate (-40) Demo.monitored)) in
  configured Demo.windows self /\
  rate self = -10 /\ volume self = 100 /\ voice_token_id self = None /\
  -10 <= rate self <= 10.
Proof.
  intros self.
  assert (H : configured Demo.windows self) by (repeat constructor).
  split; [exact H|]. split; [reflexivity|]. split; [reflexivity|]. split; [reflexivity|].
  exact (proj1 (configured_settings_in_range Demo.windows self H)).
Defined.

(** ** The installed voices *)

(** The outcome of a scope is the outcome of its body, unless the scope
    cannot be entered. *)
Lemma com_scope_result (P : platform) (t : tid) {A} (body : M A) (w : world) (a : A) :
  (_com_scope P t body w).1 = Ok a -> exists w0, (body w0).1 = Ok a.
Proof.
  unfold _com_scope. destruct (bool_decide _); [discriminate|].
  unfold mbind, M_bind, bind, get_count, set_count, try_finally, emit. simpl.
  destruct (0 <? _)%Z; simpl.
  - match goal with |- context [body ?w0] => exists w0; destruct (body w0) as [r w1] end.
    simpl in *. assumption.
  - destruct (co_initialize P t); simpl; [discriminate|].
    match goal with |- context [body ?w0] => exists w0; destruct (body w0) as [r w1] end.
    simpl in *. assumption.
Qed.

Lemma voice_info_spec (Item : Z -> result token) (i : Z) (w : world) :
  (voice_info Item i w).2 = w /\
  forall v, (voice_info Item i w).1 = Ok v -> Sapi.index v = i /\ recorded Item v.
Proof.
  unfold voice_info, mbind, M_bind, bind, lift_result, mret, M_ret, ret.
  destruct (Item i) as [tok|e] eqn:E1; [|split; [reflexivity|discriminate]].
  destruct (GetDescription tok) as [d|e] eqn:E2; [|split; [reflexivity|discriminate]].
  destruct (GetAttribute tok "Language") as [a|e] eqn:E3; [|split; [reflexivity|discriminate]].
  destruct (Id tok) as [id|e] eqn:E4; [|split; [reflexivity|discriminate]].
  split; [reflexivity|]. intros v [= <-]. split; [reflexivity|].
  exists tok, a. simpl. rewrite E1. repeat split; try assumption.
  destruct a as [s|]; [apply str_or_empty | reflexivity].
Qed.

Lemma collect_voices_spec (Item : Z -> result token) (indices : list Z)
    (items : list VoiceInfo) (w : world) :
  (collect_voices Item indices items w).2 = w /\
  forall vs, (collect_voices Item indices items w).1 = Ok vs ->
    exists new, vs = (items ++ new)%list /\ map Sapi.index new = indices /\
                Forall (recorded Item) new.
Proof.
  revert items. induction indices as [|i rest IH]; intros items; simpl.
  - split; [reflexivity|]. intros vs [= <-]. exists []. rewrite app_nil_r.
    repeat split. constructor.
  - unfold mbind, M_bind, bind.
    destruct (voice_info_spec Item i w) as [Hw Hv].
    destruct (voice_info Item i w) as [[v|e] w1]; simpl in *; subst w1;
      [|split; [reflexivity|discriminate]].
    destruct (Hv v eq_refl) as [Hi Hrec].
    destruct (IH (items ++ [v])%list) as [IHw IHv]. split; [exact IHw|].
    intros vs Hvs. destruct (IHv vs Hvs) as (new & -> & Hm & Hf).
    exists (v :: new). rewrite <- app_assoc. simpl. repeat split.
    + rewrite Hi, Hm. reflexivity.
    + constructor; assumption.
Qed.

Lemma neutral_collect_voices (Item : Z -> result token) (t : tid) indices items :
  keeps (com_neutral t) (collect_voices Item indices items).
Proof.
  intros w. rewrite (proj1 (collect_voices_spec Item indices items w)). reflexivity.
Qed.

(** X15. When [list_voices] returns, it returns one entry for every token
    of the engine, in the order of the tokens: the entry at position [i]
    has index [i] and holds the description, the language and the id that
    token [i] answered, with the empty string for a language that is
    missing.  A token that fails makes the whole call fail, so no partial
    list is returned; the list is empty only when there is no voice.
    Called with a count that is not negative, it leaves COM balanced,
    however it ends. *)
Theorem list_voices_one_entry_per_token (P : platform) (Item : Z -> result token)
    (t : tid) (w : world) :
  let call := list_voices P Item t w in
  (forall vs, call.1 = Ok vs ->
     map Sapi.index vs = range (voices_count P) /\
     length vs = Z.to_nat (voices_count P) /\
     Forall (recorded Item) vs /\
     (vs = [] <-> voices_count P <= 0)) /\
  (0 <= count_of t w -> com_balanced t w call.2).
Proof.
  simpl. split.
  - intros vs H. unfold list_voices in H.
    apply com_scope_result in H as [w0 H].
    unfold mbind, M_bind, bind in H.
    destruct (_create_voice P None w0) as [[[]|e] w1]; [|discriminate].
    destruct (proj2 (collect_voices_spec Item (range (voices_count P)) [] w1) vs H)
      as (new & -> & Hm & Hf).
    simpl. split; [exact Hm|].
    assert (Hlen : length new = Z.to_nat (voices_count P)).
    { rewrite <- (length_map Sapi.index), Hm. unfold range.
      rewrite length_map, length_seq. reflexivity. }
    split; [exact Hlen|]. split; [exact Hf|].
    split.
    + intros ->. simpl in Hlen. lia.
    + intros Hc. destruct new; [reflexivity|]. simpl in Hlen. lia.
  - intros Hc. unfold list_voices. apply com_scope_balanced; [|exact Hc].
    apply keeps_mbind; preorder; [apply neutral_create_voice|intros ?].
    apply neutral_collect_voices.
Qed.

Example list_voices_windows :
  (list_voices Demo.windows Demo.tokens 0%nat Demo.boot).1 =
    Ok [ {| Sapi.index := 0;
            description := "Microsoft David Desktop - English (United States)";
            language := "409";
            token_id := "HKEY_LOCAL_MACHINE\SOFTWARE\Microsoft\Speech\Voices\Tokens\TTS_MS_EN-US_DAVID_11.0" |};
         {| Sapi.index := 1;
            description := "Microsoft Zira Desktop - English (United States)";
            language := "";
            token_id := "HKEY_LOCAL_MACHINE\SOFTWARE\Microsoft\Speech\Voices\Tokens\TTS_MS_EN-US_ZIRA_11.0" |} ] /\
  trace (list_voices Demo.windows Demo.tokens 0%nat Demo.boot).2 =
    [EvCoInitialize 0%nat; EvCreateObject "SAPI.SpVoice"; EvCoUninitialize 0%nat].
Proof. split; vm_compute; reflexivity. Qed.

(** ** Loading the type library *)

(** The three guards of [_ensure_windows], in their order. *)
Lemma ensure_windows_spec (P : platform) (w : world) :
  _ensure_windows P w =
    (if negb (String.eqb (sys_platform P) "win32") then
       Raise (Exn OSError "Windows SAPI speech synthesis is only available on Windows.")
     else match _IMPORT_ERROR P, _SPEECHLIB_ERROR P with
          | Some _, _ =>
              Raise (Exn ImportError "Failed to import comtypes. Install the dependency first.")
          | None, Some _ => Raise (Exn ImportError "Failed to load SAPI type library.")
          | None, None => Ok tt
          end, w).
Proof.
  unfold _ensure_windows. destruct (negb _); [reflexivity|].
  destruct (_IMPORT_ERROR P), (_SPEECHLIB_ERROR P); reflexivity.
Qed.

(** Around a body that leaves the globals alone, the scope that carries
    globals is the scope of [_com_scope]. *)
Lemma g_com_scope_lift (P : platform) (t : tid) {A} (body : M A) (g : globals) (w : world) :
  g_com_scope P t (g_lift body) g w = g_lift (_com_scope P t body) g w.
Proof.
  unfold g_com_scope, g_lift, _com_scope.
  destruct (bool_decide _); [reflexivity|].
  unfold mbind, M_bind, bind, get_count, set_count, try_finally, emit. simpl.
  destruct (0 <? _)%Z; simpl.
  - match goal with |- context [body ?w0] => destruct (body w0) as [[a|e] w1] end;
      reflexivity.
  - destruct (co_initialize P t); simpl; [reflexivity|].
    match goal with |- context [body ?w0] => destruct (body w0) as [[a|e] w1] end;
      reflexivity.
Qed.

Section LoadingFacts.
Context (P : platform) (R : runtime).

Lemma try_candidates_spec (paths called : list string) (w : world) :
  exists called' broke w',
    try_candidates R paths called w = (Ok (called', broke), w') /\
    com_count w' = com_count w /\ trace w' = trace w.
Proof.
  revert called w. induction paths as [|path rest IH]; intros called w; simpl.
  - exists called, false, w. repeat split.
  - unfold mbind, M_bind, bind, os_path_exists. simpl.
    destruct (bool_decide _); simpl; [|apply IH].
    unfold call_GetModule.
    destruct (GetModule R path (fs w)) as [fs' [e|]]; simpl.
    + destruct (IH (called ++ [path])%list (World fs' (com_count w) (trace w)))
        as (c' & b & w' & E & Hc & Ht).
      exists c', b, w'. repeat split; assumption.
    + eexists _, true, _. repeat split.
Qed.

(** What runs inside the scope changes files only.  It changes the globals
    only to record the [ImportError] of the first import, which it then
    raises. *)
Lemma import_or_generate_spec (g : globals) (w : world) :
  let '(r, g', w') := import_or_generate P R g w in
  com_count w' = com_count w /\ trace w' = trace w /\
  match r with
  | Ok _ => g' = g
  | Raise e =>
      g' = g \/
      g' = Globals (g_SpeechLib g) (Some e) /\
      import_SpeechLib R [] = Some e /\ is_ImportError (exn_cls e) = true
  end.
Proof.
  unfold import_or_generate.
  destruct (import_SpeechLib R []) as [err|] eqn:E1; [|cbv [g_ret]; auto].
  destruct (is_ImportError (exn_cls err)) eqn:E2; cbv [negb]; [|cbv [g_raise]; auto].
  destruct (bool_decide _);
    cbv [g_bind g_lift g_ret g_raise get_globals set_globals]; [auto 6|].
  destruct (try_candidates_spec (candidates R) [] w) as (c' & b & w' & -> & Hc & Ht).
  destruct b.
  - destruct (import_SpeechLib R c'); auto.
  - auto 6.
Qed.

(** The same seen from the scope: the body is neutral. *)
Lemma neutral_import_or_generate (t : tid) (g : globals) :
  keeps (com_neutral t)
    (fun w0 => let '(r, g', w') := import_or_generate P R g w0 in (Ok (r, g'), w')).
Proof.
  intros w _. pose proof (import_or_generate_spec g w) as H.
  destruct (import_or_generate P R g w) as [[r g'] w']. simpl.
  destruct H as (Hc & Ht & _). rewrite Hc, Ht. split; reflexivity.
Qed.

(** The scope around it: entered or not, the outcome is as for the body,
    and COM is balanced. *)
Lemma g_com_scope_import_spec (t : tid) (g : globals) (w : world) :
  let '(r, g', w') := g_com_scope P t (import_or_generate P R) g w in
  (0 <= count_of t w -> com_balanced t w w') /\
  match r with
  | Ok _ => g' = g
  | Raise e =>
      g' = g \/
      g' = Globals (g_SpeechLib g) (Some e) /\
      import_SpeechLib R [] = Some e /\ is_ImportError (exn_cls e) = true
  end.
Proof.
  unfold g_com_scope.
  set (body := fun w0 => let '(r, g', w') := import_or_generate P R g w0 in (Ok (r, g'), w')).
  pose proof (fun H => com_scope_balanced P t body w (neutral_import_or_generate t g) H) as B.
  pose proof (com_scope_result P t body w) as Hres.
  destruct (_com_scope P t body w) as [[[r g']|e] w']; simpl in *; [|auto].
  split; [exact B|].
  destruct (Hres (r, g') eq_refl) as [w0 H0]. unfold body in H0.
  pose proof (import_or_generate_spec g w0) as S.
  destruct (import_or_generate P R g w0) as [[r0 g0] w1]. simpl in H0.
  injection H0 as -> ->. exact (proj2 (proj2 S)).
Qed.

(** The loader in one statement. *)
Lemma load_speechlib_spec (t : tid) (g : globals) (w : world) :
  let '(r, g', w') := _load_speechlib P R t g w in
  (0 <= count_of t w -> com_balanced t w w') /\
  match g_SpeechLib g with
  | Some _ => (r, g', w') = (Ok tt, g, w)
  | None =>
      match r with
      | Ok _ =>
          g' = Globals (Some tt) None /\ g_SPEECHLIB_ERROR g = None /\
          _IMPORT_ERROR P = None
      | Raise e =>
          g' = g \/
          g_SPEECHLIB_ERROR g = None /\ g' = Globals None (Some e) /\
          import_SpeechLib R [] = Some e /\ is_ImportError (exn_cls e) = true
      end
  end.
Proof.
  unfold _load_speechlib, g_bind at 1, get_globals at 1.
  destruct (g_SpeechLib g) as [[]|] eqn:Hlib.
  { split; [intros _; apply balanced_of_same; reflexivity | reflexivity]. }
  destruct (g_SPEECHLIB_ERROR g) as [e0|] eqn:Herr.
  { split; [intros _; apply balanced_of_same; reflexivity | left; reflexivity]. }
  destruct (_IMPORT_ERROR P) as [ie|] eqn:Hie.
  { rewrite bool_decide_eq_true_2 by eauto.
    split; [intros _; apply balanced_of_same; reflexivity | left; reflexivity]. }
  rewrite bool_decide_eq_false_2 by (intros [? [=]]).
  cbv [g_bind get_globals set_globals].
  pose proof (g_com_scope_import_spec t g w) as S.
  destruct (g_com_scope P t (import_or_generate P R) g w) as [[[[]|e] g'] w'].
  - destruct S as [B ->]. split; [exact B|]. rewrite Herr. repeat split.
  - destruct S as [B [->|(-> & Hi & Hc)]]; (split; [exact B|]).
    + left; reflexivity.
    + right. rewrite Hlib. repeat split; assumption.
Qed.

End LoadingFacts.

(** X16. [_load_speechlib] loads once.  When it returns, [SpeechLib] is
    set and no error is recorded that was not recorded before.  With
    [SpeechLib] set, a call returns at once: it touches neither COM nor the
    files nor the globals.  So after one call has returned, every later
    call is free.  Called with a count that is not negative, it leaves COM
    balanced, however it ends. *)
Theorem load_speechlib_loads_once (P : platform) (R : runtime) (t : tid)
    (g : globals) (w : world) :
  let call := _load_speechlib P R t g w in
  (call.1.1 = Ok tt ->
     g_SpeechLib call.1.2 = Some tt /\
     g_SPEECHLIB_ERROR call.1.2 = g_SPEECHLIB_ERROR g /\
     forall w2, _load_speechlib P R t call.1.2 w2 = (Ok tt, call.1.2, w2)) /\
  (is_Some (g_SpeechLib g) -> call = (Ok tt, g, w)) /\
  (0 <= count_of t w -> com_balanced t w call.2).
Proof.
  simpl.
  assert (Loaded : forall g0 w0, is_Some (g_SpeechLib g0) ->
            _load_speechlib P R t g0 w0 = (Ok tt, g0, w0)).
  { intros g0 w0 [u Hu]. unfold _load_speechlib, g_bind, get_globals. rewrite Hu.
    reflexivity. }
  pose proof (load_speechlib_spec P R t g w) as S.
  destruct (_load_speechlib P R t g w) as [[r g'] w']. simpl.
  destruct S as [B S]. split; [|split; [|exact B]].
  - intros ->. destruct (g_SpeechLib g) as [[]|] eqn:Hlib.
    + injection S as -> ->. split; [exact Hlib|]. split; [reflexivity|].
      intros w2. apply Loaded. rewrite Hlib. eauto.
    + destruct S as (-> & Herr & _). simpl. split; [reflexivity|].
      split; [symmetry; exact Herr|]. intros w2. apply Loaded. simpl. eauto.
  - intros [u Hu]. rewrite Hu in S. exact S.
Qed.

Lemma load_speechlib_loads_once_witness :
  let call := _load_speechlib Demo.windows Demo.fresh_runtime 0%nat Demo.unloaded
                Demo.installed in
  call.1.1 = Ok tt /\
  g_SpeechLib call.1.2 = Some tt /\
  com_calls 0%nat (trace call.2) = [true; false] /\
  _load_speechlib Demo.windows Demo.fresh_runtime 0%nat call.1.2 call.2 =
    (Ok tt, call.1.2, call.2).
Proof.
  intros call.
  assert (H : call.1.1 = Ok tt) by (vm_compute; reflexivity).
  split; [exact H|].
  destruct (load_speechlib_loads_once Demo.windows Demo.fresh_runtime 0%nat
              Demo.unloaded Demo.installed) as [L _].
  destruct (L H) as (H1 & _ & H2).
  split; [exact H1|]. split; [vm_compute; reflexivity | apply H2].
Defined.

(** X17. When [_load_speechlib] fails, [SpeechLib] remains unset, and one
    of two things holds.  Either nothing is recorded and the globals are as
    they were: a later call tries again.  Or the error raised is the
    [ImportError] of the first import, and it is now recorded in
    [_SPEECHLIB_ERROR].  A recorded error stays: every later call raises it
    at once, touching nothing, and [SapiSynth()] fails in
    [_ensure_windows] without reaching the loader. *)
Theorem load_speechlib_failure_is_kept (P : platform) (R : runtime) (t : tid)
    (g : globals) (w : world) :
  let call := _load_speechlib P R t g w in
  (forall e, call.1.1 = Raise e ->
     g_SpeechLib call.1.2 = None /\
     (call.1.2 = g \/
      g_SPEECHLIB_ERROR g = None /\
      call.1.2 = Globals None (Some e) /\
      import_SpeechLib R [] = Some e /\ is_ImportError (exn_cls e) = true)) /\
  (forall g0 e0 w0,
     g_SpeechLib g0 = None -> g_SPEECHLIB_ERROR g0 = Some e0 ->
     _load_speechlib P R t g0 w0 = (Raise e0, g0, w0) /\
     exists e, SapiSynth_init P R t g0 w0 = (Raise e, g0, w0) /\
               (sys_platform P = "win32" -> _IMPORT_ERROR P = None ->
                e = Exn ImportError "Failed to load SAPI type library.")).
Proof.
  simpl. split.
  - intros e He.
    pose proof (load_speechlib_spec P R t g w) as S.
    destruct (_load_speechlib P R t g w) as [[r g'] w']. simpl in *. subst r.
    destruct S as [_ S]. destruct (g_SpeechLib g) as [[]|] eqn:Hlib; [discriminate|].
    destruct S as [->|(Herr & -> & Hi & Hc)].
    + split; [exact Hlib | left; reflexivity].
    + split; [reflexivity|]. right. repeat split; assumption.
  - intros g0 e0 w0 Hlib Herr. split.
    + unfold _load_speechlib, g_bind, get_globals. rewrite Hlib, Herr. reflexivity.
    + unfold SapiSynth_init, g_bind, get_globals, g_lift.
      rewrite ensure_windows_spec. simpl. rewrite Herr.
      destruct (String.eqb_spec (sys_platform P) "win32") as [Hwin|Hwin]; simpl.
      * destruct (_IMPORT_ERROR P) as [ie|]; eexists; (split; [reflexivity|]).
        -- intros _ [=].
        -- reflexivity.
      * eexists. split; [reflexivity|]. intros Hw. contradiction.
Qed.

Lemma load_speechlib_failure_is_kept_witness :
  let call := _load_speechlib Demo.windows Demo.broken_runtime 0%nat Demo.unloaded
                Demo.installed in
  let err := Exn ImportError "cannot import name 'SpeechLib' from 'comtypes.gen'" in
  call.1.1 = Raise err /\
  call.1.2 = Globals None (Some err) /\
  _load_speechlib Demo.windows Demo.broken_runtime 0%nat call.1.2 call.2 =
    (Raise err, call.1.2, call.2) /\
  (SapiSynth_init Demo.windows Demo.fresh_runtime 0%nat call.1.2 call.2).1.1 =
    Raise (Exn ImportError "Failed to load SAPI type library.").
Proof.
  intros call err.
  assert (H : call.1.1 = Raise err) by (vm_compute; reflexivity).
  assert (G : call.1.2 = Globals None (Some err)) by (vm_compute; reflexivity).
  split; [exact H|]. split; [exact G|].
  destruct (load_speechlib_failure_is_kept Demo.windows Demo.broken_runtime 0%nat
              Demo.unloaded Demo.installed) as [_ K].
  destruct (K call.1.2 err call.2) as [K1 _]; [rewrite G; reflexivity..|].
  split; [exact K1|].
  rewrite G. vm_compute. reflexivity.
Defined.

(** X18. When [SapiSynth()] returns, the machine is a Windows machine,
    [comtypes] has been imported, the type library is loaded and no error
    is recorded.  None of this changes afterwards: from then on
    [_ensure_windows] returns without raising in every state of the world,
    and constructing another synthesizer returns at once, touching
    nothing. *)
Theorem constructed_synth_passes_guards (P : platform) (R : runtime) (t : tid)
    (g g' : globals) (w w' : world) :
  SapiSynth_init P R t g w = (Ok tt, g', w') ->
  sys_platform P = "win32" /\
  _IMPORT_ERROR P = None /\
  g_SpeechLib g' = Some tt /\
  g_SPEECHLIB_ERROR g' = None /\
  (forall w2, _ensure_windows (with_globals P g') w2 = (Ok tt, w2)) /\
  (forall w2, SapiSynth_init P R t g' w2 = (Ok tt, g', w2)).
Proof.
  unfold SapiSynth_init, g_bind at 1 2, get_globals at 1, g_lift.
  rewrite ensure_windows_spec. simpl.
  destruct (String.eqb_spec (sys_platform P) "win32") as [Hwin|Hwin]; simpl; [|discriminate].
  destruct (_IMPORT_ERROR P) as [ie|] eqn:Hie; [discriminate|].
  destruct (g_SPEECHLIB_ERROR g) as [e0|] eqn:Herr; [discriminate|].
  intros Hload.
  assert (Hlib : g_SpeechLib g' = Some tt /\ g_SPEECHLIB_ERROR g' = None).
  { pose proof (load_speechlib_spec P R t g w) as S. rewrite Hload in S.
    destruct S as [_ S]. destruct (g_SpeechLib g) as [[]|] eqn:Hlib.
    - injection S as <- _. split; assumption.
    - destruct S as (-> & _). split; reflexivity. }
  destruct Hlib as [Hlib Herr'].
  assert (Guard : forall w2, _ensure_windows (with_globals P g') w2 = (Ok tt, w2)).
  { intros w2. rewrite ensure_windows_spec. simpl. rewrite Hwin, Hie, Herr'. reflexivity. }
  repeat split; try assumption.
  intros w2. unfold SapiSynth_init, g_bind, get_globals, g_lift. rewrite Guard.
  unfold _load_speechlib, g_bind, get_globals. rewrite Hlib. reflexivity.
Qed.

Lemma constructed_synth_passes_guards_witness :
  let call := SapiSynth_init Demo.windows Demo.fresh_runtime 0%nat Demo.unloaded
                Demo.installed in
  call = (Ok tt, call.1.2, call.2) /\
  g_SpeechLib call.1.2 = Some tt /\
  SapiSynth_init Demo.windows Demo.fresh_runtime 0%nat call.1.2 Demo.boot =
    (Ok tt, call.1.2, Demo.boot).
Proof.
  intros call.
  assert (H : call = (Ok tt, call.1.2, call.2)) by (vm_compute; reflexivity).
  split; [exact H|].
  destruct (constructed_synth_passes_guards Demo.windows Demo.fresh_runtime 0%nat
              Demo.unloaded call.1.2 Demo.installed call.2 H)
    as (_ & _ & Hlib & _ & _ & Hagain).
  split; [exact Hlib | apply Hagain].
Defined.

(** X19. The search for the type library.  [try_candidates] never raises:
    what [GetModule] raises is dropped and the next candidate is tried.
    The paths it gives to [GetModule] are candidates, each at most once and
    in the order of the list (System32 before SysWOW64).  It makes no COM
    call and adds no event.  A candidate that does not exist is passed
    over: when none exists, [GetModule] is not called and nothing changes.
    When the first candidate that exists loads, the search stops there with
    the files as [GetModule] left them, and the later candidates are not
    looked at. *)
Theorem try_candidates_first_loadable (R : runtime) (paths : list string) (w : world) :
  (exists called broke w',
     try_candidates R paths [] w = (Ok (called, broke), w') /\
     sublist called paths /\
     com_count w' = com_count w /\ trace w' = trace w /\
     (broke = true -> called <> [])) /\
  (Forall (fun p => fs w !! p = None) paths ->
     try_candidates R paths [] w = (Ok ([], false), w)) /\
  (forall missing p rest files,
     paths = (missing ++ p :: rest)%list ->
     Forall (fun q => fs w !! q = None) missing ->
     is_Some (fs w !! p) ->
     GetModule R p (fs w) = (files, None) ->
     try_candidates R paths [] w =
       (Ok ([p], true), World files (com_count w) (trace w))).
Proof.
  assert (G : forall paths called w,
    exists new broke w',
      try_candidates R paths called w = (Ok ((called ++ new)%list, broke), w') /\
      sublist new paths /\
      com_count w' = com_count w /\ trace w' = trace w /\
      (broke = true -> new <> [])).
  { clear. induction paths as [|path rest IH]; intros called w; simpl.
    - exists [], false, w. rewrite app_nil_r. repeat split; [constructor | discriminate].
    - unfold mbind, M_bind, bind, os_path_exists. simpl.
      destruct (bool_decide _); simpl.
      + unfold call_GetModule.
        destruct (GetModule R path (fs w)) as [fs' [e|]]; simpl.
        * destruct (IH (called ++ [path])%list (World fs' (com_count w) (trace w)))
            as (new & b & w' & E & Hs & Hc & Ht & Hb).
          exists (path :: new), b, w'. rewrite E, <- app_assoc. simpl.
          repeat split; try assumption; [constructor; exact Hs | discriminate].
        * exists [path], true, (World fs' (com_count w) (trace w)).
          repeat split; [|discriminate].
          constructor. apply sublist_nil_l.
      + destruct (IH called w) as (new & b & w' & E & Hs & Hc & Ht & Hb).
        exists new, b, w'. repeat split; try assumption. constructor. exact Hs. }
  assert (Skip : forall missing rest called w,
    Forall (fun q => fs w !! q = None) missing ->
    try_candidates R (missing ++ rest) called w = try_candidates R rest called w).
  { clear. intros missing rest called w H. induction H as [|q l Hq _ IH]; [reflexivity|].
    simpl. unfold mbind, M_bind, bind, os_path_exists. simpl.
    rewrite bool_decide_eq_false_2 by (rewrite Hq; intros [? [=]]). simpl. exact IH. }
  split; [|split].
  - destruct (G paths [] w) as (new & b & w' & E & H). exists new, b, w'.
    split; [exact E | exact H].
  - intros H. rewrite <- (app_nil_r paths), Skip by exact H. reflexivity.
  - intros missing p rest files -> Hmiss Hp Hload. rewrite Skip by exact Hmiss.
    simpl. unfold mbind, M_bind, bind, os_path_exists. simpl.
    rewrite bool_decide_eq_true_2 by exact Hp. simpl.
    unfold call_GetModule. rewrite Hload. reflexivity.
Qed.

Example try_candidates_syswow64 :
  let w := World {[ "C:\Windows\SysWOW64\Speech\Common\sapi.dll" := OtherFile ]} ∅ [] in
  (try_candidates Demo.fresh_runtime (candidates Demo.fresh_runtime) [] w).1 =
    Ok (["C:\Windows\SysWOW64\Speech\Common\sapi.dll"], true).
Proof. vm_compute. reflexivity. Qed.

(** ** Making the voice object *)

(** X20. How [_create_voice] fails.  A guard of [_ensure_windows] that
    fails is raised before any object is made.  A failure to make the voice
    object is passed on as it is.  With no token, or the empty token, the
    voice object is all that is made, and the call returns.  With a token,
    the call returns exactly when the token object can be made and the
    token can be selected; every failure of either is replaced by the
    [RuntimeError] that names the token. *)
Theorem create_voice_failures (P : platform) (voice_token_id : option string)
    (w : world) :
  let call := _create_voice P voice_token_id w in
  let made := World (fs w) (com_count w) (trace w ++ [EvCreateObject "SAPI.SpVoice"]) in
  (forall e, (_ensure_windows P w).1 = Raise e -> call = (Raise e, w)) /\
  ((_ensure_windows P w).1 = Ok tt ->
   (forall e, create_object P "SAPI.SpVoice" = Some e -> call = (Raise e, made)) /\
   (create_object P "SAPI.SpVoice" = None ->
    match voice_token_id with
    | Some id =>
        if truthy id then
          (call.1 = Ok tt <->
           create_object P "SAPI.SpObjectToken" = None /\ select_voice P id = None) /\
          (call.1 <> Ok tt ->
           call.1 = Raise (Exn RuntimeError ("Failed to select voice: " +:+ id)))
        else call = (Ok tt, made)
    | None => call = (Ok tt, made)
    end)).
Proof.
  simpl.
  unfold _create_voice, try_except_raise, CreateObject, mbind, M_bind, bind, emit, may_raise.
  rewrite ensure_windows_spec.
  destruct (if negb _ then _ else _) as [[]|e0]; simpl.
  2:{ split; [intros e [= <-]; reflexivity | discriminate]. }
  split; [discriminate|]. intros _.
  destruct (create_object P "SAPI.SpVoice") as [e1|]; simpl.
  { split; [intros e [= <-]; reflexivity | discriminate]. }
  split; [discriminate|]. intros _.
  destruct voice_token_id as [id|]; [|reflexivity].
  destruct (truthy id); [|reflexivity]. simpl.
  destruct (create_object P "SAPI.SpObjectToken") as [e2|]; simpl.
  { split; [split; [discriminate | intros [[=] _]] | reflexivity]. }
  destruct (select_voice P id) as [e3|]; simpl.
  - split; [split; [discriminate | intros [_ [=]]] | reflexivity].
  - split; [split; auto | congruence].
Qed.

(** Off Windows nothing is made; the empty token selects nothing. *)
Example create_voice_guard_and_empty_token :
  _create_voice Demo.without_comtypes (Some "x") Demo.boot =
    (Raise (Exn OSError "Windows SAPI speech synthesis is only available on Windows."),
     Demo.boot) /\
  trace (_create_voice Demo.windows (Some "") Demo.boot).2 = [EvCreateObject "SAPI.SpVoice"].
Proof. split; vm_compute; reflexivity. Qed.
